(** * openclaw-memory-offline-sqlite-plugin: capture / recall pipeline

    A shallow embedding of the plugin's hooks and tools
    ([src/index.ts], [capture-utils.ts]) and the properties of the
    capture pipeline, the recall assembler, the hybrid degradation guard
    and the retention policy.

    JavaScript strings are sequences of UTF-16 code units and [.length]
    counts code units, so a string is a [list N] here.  Timestamps are
    integers ([Z]).  The hooks and tools are modelled for a host that
    configures integers ([PluginConfig], [getCfg]); what [getCfg] and the
    capture loop do with any other JavaScript number is modelled beside
    them ([JsNumber], [getCfg_numbers], [agent_end_number]).  A
    [Set<string>] is a [gset].  Tables of the SQLite store are lists of
    rows in rowid order. *)

From Stdlib Require Import ZArith NArith QArith Qcanon Qround Ascii String.
From stdpp Require Import base list sorting gmap sets.

Local Open Scope Z_scope.

(** ** JavaScript strings *)

Module Js.

(** A string value: its UTF-16 code units. *)
Definition jsstring : Type := list N.

(** Source literals written in ASCII. *)
Definition lit (s : string) : jsstring :=
  map N_of_ascii (list_ascii_of_string s).

(** [WhiteSpace] and [LineTerminator] code units: what [String.prototype.trim]
    removes and what the regular expression class [\s] matches. *)
Definition is_ws (c : N) : bool :=
  ((9 <=? c) && (c <=? 13) || (c =? 32) || (c =? 160) || (c =? 5760)
   || (8192 <=? c) && (c <=? 8202) || (c =? 8232) || (c =? 8233)
   || (c =? 8239) || (c =? 8287) || (c =? 12288) || (c =? 65279))%N.

Fixpoint trimStart (s : jsstring) : jsstring :=
  match s with
  | c :: r => if is_ws c then trimStart r else s
  | [] => []
  end.

Definition trimEnd (s : jsstring) : jsstring :=
  reverse (trimStart (reverse s)).

(** [s.trim()] *)
Definition trim (s : jsstring) : jsstring := trimEnd (trimStart s).

(** [s.startsWith(p)] *)
Fixpoint startsWith (p s : jsstring) : bool :=
  match p, s with
  | [], _ => true
  | a :: p', b :: s' => (a =? b)%N && startsWith p' s'
  | _ :: _, [] => false
  end.

(** [s.includes(p)] *)
Fixpoint includes (p s : jsstring) : bool :=
  startsWith p s ||
  match s with
  | [] => false
  | _ :: s' => includes p s'
  end.

(** [s.slice(0, n)] for [0 <= n]. *)
Definition slice0 (n : Z) (s : jsstring) : jsstring := take (Z.to_nat n) s.

(** [s.length] *)
Definition len (s : jsstring) : Z := Z.of_nat (length s).

(** [s.replace(/\s+/g, " ")]: every maximal run of white space becomes
    one space.  [in_run] records that the previous unit was white space. *)
Fixpoint collapse_ws_from (in_run : bool) (s : jsstring) : jsstring :=
  match s with
  | [] => []
  | c :: r =>
      if is_ws c
      then (if in_run then collapse_ws_from true r
            else 32%N :: collapse_ws_from true r)
      else c :: collapse_ws_from false r
  end.

Definition collapse_ws (s : jsstring) : jsstring := collapse_ws_from false s.

(** The line feed of the template literals. *)
Definition nl : jsstring := [10%N].

(** [lines.join(sep)] *)
Fixpoint join (sep : jsstring) (l : list jsstring) : jsstring :=
  match l with
  | [] => []
  | [x] => x
  | x :: r => x ++ sep ++ join sep r
  end.

End Js.

Import Js.

(** ** Messages and captures *)

Inductive Role : Type := user | assistant.

#[global] Instance Role_eq_dec : EqDecision Role.
Proof. solve_decision. Defined.

(** [role] as the string stored in the [tags] column. *)
Definition role_tag (r : Role) : jsstring :=
  match r with
  | user => lit "user"
  | assistant => lit "assistant"
  end.

(** One [{ role, text }] pair of the capture pipeline. *)
Record Capture : Type := mkCapture { role : Role; text : jsstring }.

#[global] Instance Capture_eq_dec : EqDecision Capture.
Proof. solve_decision. Defined.

(** The host's event payload is untyped; the hook only distinguishes the
    shapes below. *)
Inductive Block : Type :=
| TextBlock (t : jsstring)   (* an object with [type === "text"] and a string [text] *)
| OtherBlock.                (* any other array element *)

Inductive Content : Type :=
| ContentString (s : jsstring)
| ContentArray (blocks : list Block)
| ContentOther.

Inductive Message : Type :=
| Msg (r : option Role) (c : Content)  (* an object; [None]: role is neither "user" nor "assistant" *)
| NotAnObject.

Definition block_captures (r : Role) (b : Block) : list Capture :=
  match b with
  | TextBlock t => [mkCapture r t]
  | OtherBlock => []
  end.

Definition message_captures (m : Message) : list Capture :=
  match m with
  | Msg (Some r) (ContentString s) => [mkCapture r s]
  | Msg (Some r) (ContentArray blocks) => concat (map (block_captures r) blocks)
  | _ => []
  end.

(** The extraction loop of [agent_end] over [event.messages]. *)
Definition extract_captures (msgs : list Message) : list Capture :=
  concat (map message_captures msgs).

(** ** capture-utils.ts *)

Definition relevant_memories_open : jsstring := lit "<relevant-memories>".
Definition relevant_memories_close : jsstring := lit "</relevant-memories>".
Definition short_term_memory_open : jsstring := lit "<short-term-memory>".
Definition short_term_memory_close : jsstring := lit "</short-term-memory>".

Definition trim_capture (c : Capture) : Capture :=
  mkCapture (role c) (trim (text c)).

Definition sanitizeCaptures (captures : list Capture) : list Capture :=
  filter (λ c, negb (includes relevant_memories_open (text c)))
    (filter (λ c, 0 <? len (text c))
       (map trim_capture captures)).

(** ** Configuration *)

(** [Math.max(lo, Math.min(hi, x))] *)
Definition clamp (lo hi x : Z) : Z := Z.max lo (Z.min hi x).

Inductive Mode : Type := lexical | hybrid.

(** The plugin configuration of a host that configures integers: every
    entry is optional.  [HostConfig] below has the numeric entries of any
    host. *)
Record PluginConfig : Type := mkPluginConfig {
  pc_topK : option Z;
  pc_mode : Mode;
  pc_candidates : option Z;
  pc_ollamaTimeoutMs : option Z;
  pc_captureMaxPerTurn : option Z;
  pc_captureMinChars : option Z;
  pc_captureMaxChars : option Z;
  pc_captureDedupeWindowMs : option Z;
  pc_captureDedupeMaxCheck : option Z;
  pc_retentionDays : option Z;
  pc_retentionProtectedTags : option (list jsstring)
}.

Record Cfg : Type := mkCfg {
  topK : Z;
  mode : Mode;
  candidates : Z;
  ollamaTimeoutMs : Z;
  captureMaxPerTurn : Z;
  captureMinChars : Z;
  captureMaxChars : Z;
  captureDedupeWindowMs : Z;
  captureDedupeMaxCheck : Z;
  retentionDays : option Z;
  retentionProtectedTags : list jsstring
}.

Definition getCfg (cfg : PluginConfig) : Cfg :=
  {| topK := clamp 1 20 (default 5 (pc_topK cfg));
     mode := pc_mode cfg;
     candidates := clamp 10 500 (default 50 (pc_candidates cfg));
     ollamaTimeoutMs := clamp 250 60000 (default 3000 (pc_ollamaTimeoutMs cfg));
     captureMaxPerTurn := clamp 1 50 (default 20 (pc_captureMaxPerTurn cfg));
     captureMinChars := clamp 0 500 (default 16 (pc_captureMinChars cfg));
     captureMaxChars := clamp 200 20000 (default 4000 (pc_captureMaxChars cfg));
     captureDedupeWindowMs :=
       clamp 0 (1000 * 60 * 60 * 24 * 30)
         (default (1000 * 60 * 60 * 24) (pc_captureDedupeWindowMs cfg));
     captureDedupeMaxCheck :=
       clamp 10 2000 (default 300 (pc_captureDedupeMaxCheck cfg));
     retentionDays := clamp 1 3650 <$> pc_retentionDays cfg;
     retentionProtectedTags :=
       default [lit "personal"] (pc_retentionProtectedTags cfg) |}.

Definition default_config : PluginConfig :=
  mkPluginConfig None lexical None None None None None None None None None.

(** ** Numbers as JavaScript has them

    [getCfg] passes every numeric entry through [Number] and the clamps
    [Math.max(lo, Math.min(hi, x))], which neither round nor reject: a
    fraction stays a fraction and a value that is not numeric becomes NaN
    and stays NaN.  The clamps only compare, so they are exact on
    doubles, and every finite double is a rational. *)

Inductive JsNumber : Type :=
| Finite (q : Qc)
| PosInfinity
| NegInfinity
| NaN.

#[global] Instance JsNumber_eq_dec : EqDecision JsNumber.
Proof. solve_decision. Defined.

Definition number_of_Z (z : Z) : JsNumber := Finite (Qc_of_Z z).

(** [a < b]: false whenever one side is NaN. *)
Definition number_lt (a b : JsNumber) : bool :=
  match a, b with
  | NaN, _ | _, NaN => false
  | _, NegInfinity => false
  | NegInfinity, _ => true
  | PosInfinity, _ => false
  | _, PosInfinity => true
  | Finite x, Finite y => bool_decide (x < y)%Qc
  end.

Definition Math_min (a b : JsNumber) : JsNumber :=
  match a, b with
  | NaN, _ | _, NaN => NaN
  | _, _ => if number_lt b a then b else a
  end.

Definition Math_max (a b : JsNumber) : JsNumber :=
  match a, b with
  | NaN, _ | _, NaN => NaN
  | _, _ => if number_lt a b then b else a
  end.

(** [Math.max(lo, Math.min(hi, x))] *)
Definition clamp_number (lo hi : Z) (x : JsNumber) : JsNumber :=
  Math_max (number_of_Z lo) (Math_min (number_of_Z hi) x).

(** The numeric entries of the plugin configuration of any host: each is
    what [Number] makes of the configured value, [None] when the entry
    is undefined or null. *)
Record HostConfig : Type := mkHostConfig {
  hc_topK : option JsNumber;
  hc_candidates : option JsNumber;
  hc_semanticWeight : option JsNumber;
  hc_ollamaTimeoutMs : option JsNumber;
  hc_captureMaxPerTurn : option JsNumber;
  hc_captureMinChars : option JsNumber;
  hc_captureMaxChars : option JsNumber;
  hc_captureDedupeWindowMs : option JsNumber;
  hc_captureDedupeMaxCheck : option JsNumber;
  hc_retentionDays : option JsNumber
}.

Record NumberCfg : Type := mkNumberCfg {
  js_topK : JsNumber;
  js_candidates : JsNumber;
  js_semanticWeight : JsNumber;
  js_ollamaTimeoutMs : JsNumber;
  js_captureMaxPerTurn : JsNumber;
  js_captureMinChars : JsNumber;
  js_captureMaxChars : JsNumber;
  js_captureDedupeWindowMs : JsNumber;
  js_captureDedupeMaxCheck : JsNumber;
  js_retentionDays : option JsNumber
}.

(** The numeric settings [getCfg] returns. *)
Definition getCfg_numbers (cfg : HostConfig) : NumberCfg :=
  {| js_topK := clamp_number 1 20 (default (number_of_Z 5) (hc_topK cfg));
     js_candidates :=
       clamp_number 10 500 (default (number_of_Z 50) (hc_candidates cfg));
     js_semanticWeight :=
       clamp_number 0 1 (default (Finite (Q2Qc (7 # 10))) (hc_semanticWeight cfg));
     js_ollamaTimeoutMs :=
       clamp_number 250 60000 (default (number_of_Z 3000) (hc_ollamaTimeoutMs cfg));
     js_captureMaxPerTurn :=
       clamp_number 1 50 (default (number_of_Z 20) (hc_captureMaxPerTurn cfg));
     js_captureMinChars :=
       clamp_number 0 500 (default (number_of_Z 16) (hc_captureMinChars cfg));
     js_captureMaxChars :=
       clamp_number 200 20000 (default (number_of_Z 4000) (hc_captureMaxChars cfg));
     js_captureDedupeWindowMs :=
       clamp_number 0 (1000 * 60 * 60 * 24 * 30)
         (default (number_of_Z (1000 * 60 * 60 * 24)) (hc_captureDedupeWindowMs cfg));
     js_captureDedupeMaxCheck :=
       clamp_number 10 2000
         (default (number_of_Z 300) (hc_captureDedupeMaxCheck cfg));
     js_retentionDays := clamp_number 1 3650 <$> hc_retentionDays cfg |}.

(** A host that configures integers only, and the settings [getCfg]
    gives it, as JavaScript numbers. *)
Definition host_of (pc : PluginConfig) : HostConfig :=
  {| hc_topK := number_of_Z <$> pc_topK pc;
     hc_candidates := number_of_Z <$> pc_candidates pc;
     hc_semanticWeight := None;
     hc_ollamaTimeoutMs := number_of_Z <$> pc_ollamaTimeoutMs pc;
     hc_captureMaxPerTurn := number_of_Z <$> pc_captureMaxPerTurn pc;
     hc_captureMinChars := number_of_Z <$> pc_captureMinChars pc;
     hc_captureMaxChars := number_of_Z <$> pc_captureMaxChars pc;
     hc_captureDedupeWindowMs := number_of_Z <$> pc_captureDedupeWindowMs pc;
     hc_captureDedupeMaxCheck := number_of_Z <$> pc_captureDedupeMaxCheck pc;
     hc_retentionDays := number_of_Z <$> pc_retentionDays pc |}.

Definition numbers_of (cfg : Cfg) : NumberCfg :=
  {| js_topK := number_of_Z (topK cfg);
     js_candidates := number_of_Z (candidates cfg);
     js_semanticWeight := Finite (Q2Qc (7 # 10));
     js_ollamaTimeoutMs := number_of_Z (ollamaTimeoutMs cfg);
     js_captureMaxPerTurn := number_of_Z (captureMaxPerTurn cfg);
     js_captureMinChars := number_of_Z (captureMinChars cfg);
     js_captureMaxChars := number_of_Z (captureMaxChars cfg);
     js_captureDedupeWindowMs := number_of_Z (captureDedupeWindowMs cfg);
     js_captureDedupeMaxCheck := number_of_Z (captureDedupeMaxCheck cfg);
     js_retentionDays := number_of_Z <$> retentionDays cfg |}.

(** [lo <= r <= hi] for a number that is finite. *)
Definition within (lo hi : Z) (r : JsNumber) : Prop :=
  match r with
  | Finite q => (Qc_of_Z lo ≤ q ∧ q ≤ Qc_of_Z hi)%Qc
  | _ => False
  end.

(** What a clamp guarantees of its result [r] for the value [v] it is
    given: NaN goes through, every other value lands within the bounds,
    and a value within the bounds is returned as it is. *)
Definition clamped (lo hi : Z) (v r : JsNumber) : Prop :=
  (v = NaN → r = NaN)
  ∧ (v ≠ NaN → within lo hi r)
  ∧ (within lo hi v → r = v).

(** ** The store (external core, seen through its tables) *)

(** The [meta] object the capture loop attaches to an item. *)
Record Meta : Type := mkMeta {
  m_role : Role;
  m_sessionKey : option jsstring;
  m_channel : option jsstring;
  m_ts : Z;
  m_h : jsstring
}.

(** The argument of [addItem] in the capture loop. *)
Record NewItem : Type := mkNewItem {
  n_id : jsstring;
  n_text : jsstring;
  n_tags : jsstring;
  n_meta : Meta;
  n_entity_id : jsstring;
  n_process_id : jsstring;
  n_session_id : option jsstring
}.

(** A row of the [items] table, with the columns the plugin reads. *)
Record Item : Type := mkItem {
  id : jsstring;
  item_text : option jsstring;
  tags : option jsstring;
  meta : option jsstring;
  created_at : Z;
  session_id : option jsstring
}.

#[global] Instance Item_eq_dec : EqDecision Item.
Proof. solve_decision. Defined.

(** A row of the [embeddings] table; the vector itself is never read. *)
Record Embedding : Type := mkEmbedding { item_id : jsstring; emb_model : jsstring }.

#[global] Instance Embedding_eq_dec : EqDecision Embedding.
Proof. solve_decision. Defined.

(** A fact as [extractFactsSimple] returns it; [f_confident] is the
    outcome of [!(f.confidence < 0.6)]. *)
Record Fact : Type := mkFact {
  f_subject : jsstring;
  f_predicate : jsstring;
  f_object : jsstring;
  f_confident : bool
}.

Record Db : Type := mkDb {
  items : list Item;
  embeddings : list Embedding;
  facts : list Fact
}.

(** Stable insertion sort on a key, the order of [ORDER BY]; rows with
    equal keys stay in table order. *)
Fixpoint insert_sorted {A} (before : A → A → bool) (x : A) (l : list A) : list A :=
  match l with
  | [] => [x]
  | y :: r => if before x y then x :: l else y :: insert_sorted before x r
  end.

Definition sort_by {A} (before : A → A → bool) (l : list A) : list A :=
  foldr (insert_sorted before) [] l.

Definition order_by_created_at_asc (rows : list Item) : list Item :=
  sort_by (λ x y, created_at x <=? created_at y) rows.

Definition order_by_created_at_desc (rows : list Item) : list Item :=
  sort_by (λ x y, created_at y <=? created_at x) rows.

(** [LIMIT n] *)
Definition limit {A} (n : Z) (rows : list A) : list A := take (Z.to_nat n) rows.

(** ** Dedupe window *)

Definition is_hex (c : N) : bool :=
  ((48 <=? c) && (c <=? 57) || (97 <=? c) && (c <=? 102)
   || (65 <=? c) && (c <=? 70))%N.

(** [toLowerCase] on a string of hexadecimal digits. *)
Definition lower_hex (c : N) : N :=
  if ((65 <=? c) && (c <=? 70))%N then (c + 32)%N else c.

(** The regular expression ["h"\s*:\s*"([a-f0-9]{40})"] with flag [i],
    tried at the start of [s]; the result is the captured group. *)
Definition match_h_here (s : jsstring) : option jsstring :=
  match s with
  | 34%N :: c :: 34%N :: r =>
      if ((c =? 104) || (c =? 72))%N then
        match trimStart r with
        | 58%N :: r1 =>
            match trimStart r1 with
            | 34%N :: r2 =>
                let g := take 40 r2 in
                if (length g =? 40)%nat && forallb is_hex g
                   && startsWith [34%N] (drop 40 r2)
                then Some g else None
            | _ => None
            end
        | _ => None
        end
      else None
  | _ => None
  end.

(** [m.match(re)?.[1]]: the leftmost match. *)
Fixpoint match_h (s : jsstring) : option jsstring :=
  match match_h_here s with
  | Some g => Some g
  | None =>
      match s with
      | [] => None
      | _ :: r => match_h r
      end
  end.

(** The rows of the dedupe query: created at or after [cutoff], newest
    first, at most [maxCheck]. *)
Definition recent_rows (db : Db) (cutoff maxCheck : Z) : list Item :=
  limit maxCheck
    (order_by_created_at_desc
       (filter (λ r, cutoff <=? created_at r) (items db))).

(** One step of the loop that fills [recentHashes]. *)
Definition add_recent_hash (hashes : gset jsstring) (r : Item) : gset jsstring :=
  match meta r with
  | Some m =>
      if bool_decide (m = []) then hashes
      else match match_h m with
           | Some g => {[ map lower_hex g ]} ∪ hashes
           | None => hashes
           end
  | None => hashes
  end.

Definition recent_hashes (recent : list Item) : gset jsstring :=
  foldl add_recent_hash ∅ recent.

(** ** Text normalizer and capture filter *)

(** The number of code units up to the end of the first occurrence of
    [p] in [s]. *)
Fixpoint find_end (p s : jsstring) : option nat :=
  if startsWith p s then Some (length p)
  else match s with
       | [] => None
       | _ :: s' => S <$> find_end p s'
       end.

(** [s.replace(/<relevant-memories>[\s\S]*?<\/relevant-memories>/g, " ")]:
    [skip] counts the units of the current match still to be dropped. *)
Fixpoint strip_relevant_from (skip : nat) (s : jsstring) : jsstring :=
  match s with
  | [] => []
  | c :: r =>
      match skip with
      | S k => strip_relevant_from k r
      | O =>
          if startsWith relevant_memories_open s then
            match find_end relevant_memories_close
                    (drop (length relevant_memories_open) s) with
            | Some n =>
                32%N :: strip_relevant_from
                          (length relevant_memories_open + n - 1) r
            | None => c :: strip_relevant_from 0 r
            end
          else c :: strip_relevant_from 0 r
      end
  end.

Definition strip_relevant (s : jsstring) : jsstring := strip_relevant_from 0 s.

(** The alternatives of the acknowledgement pattern, as the source file
    spells them. *)
Definition ack_tokens : list jsstring :=
  [lit "ok"; lit "okay"; lit "kk"; lit "merci"; lit "thanks"; lit "thx";
   lit "oui"; lit "non"; lit "yep"; lit "nope";
   [240; 376; 8216]%N; [240; 376; 8216; 338]%N; [226; 339; 8230]%N;
   lit "ok."].

(** The marker appended to clipped text, as the source file spells it:
    the code units U+00E2, U+20AC, U+00A6. *)
Definition clip_marker : jsstring := [226; 8364; 166]%N.

(** [text.length > n ? text.slice(0, n) + marker : text] *)
Definition clip (n : Z) (t : jsstring) : jsstring :=
  if n <? len t then slice0 n t ++ clip_marker else t.

Inductive Outcome (A : Type) : Type :=
| Returned (a : A)
| Threw (db : Db).   (* an exception left the block; [db] is the store then *)
Arguments Returned {A} a.
Arguments Threw {A} db.

Record LoopState : Type := mkLoopState {
  ls_db : Db;
  ls_recentHashes : gset jsstring;
  ls_stored : Z;
  ls_uuids : nat       (* calls to [randomUUID] so far *)
}.

(** What the hook passes to the logger. *)
Inductive LogLine : Type :=
| WarnMissingMessages
| InfoAutoCaptured (stored : Z)
| InfoAutoExtracted (factsExtracted : Z)
| ErrorAgentEndFailed
| WarnAutoRecallFailed
| WarnHybridDegraded
| InfoInjecting (n : Z).

Record AgentEndEvent : Type := mkAgentEndEvent {
  ev_success : bool;
  ev_messages : option (list Message);   (* [None]: not an array *)
  ev_sessionKey : option jsstring;
  ev_channel : option jsstring
}.

(** ** Tool parameters, results and hook events *)

Record GcParams : Type := mkGcParams {
  gc_dryRun : option bool;
  gc_retentionDays : option Z;
  gc_protectTags : option (list jsstring);
  gc_limit : option Z
}.

Record Deleted : Type := mkDeleted { deletedItems : Z; deletedEmbeddings : Z }.

Inductive GcResult : Type :=
| GcSkipped
| GcDryRun (cutoff : Z) (candidates : Z) (sample : list Item)
| GcLive (cutoff : Z) (deleted : Deleted).

(** Which statements of a run fail in the store. *)
Record Faults : Type := mkFaults {
  fault_delete_embeddings : bool;
  fault_delete_items : bool;
  fault_vacuum : bool
}.

(** A search result as the recall assembler reads it.  [hit_created_at]
    is [None] when [item.created_at] is falsy, and otherwise what
    [Number] makes of it. *)
Record Hit : Type := mkHit {
  hit_text : option jsstring;
  hit_tags : option jsstring;
  hit_source : option jsstring;
  hit_created_at : option JsNumber
}.

(** The time value of [new Date(n)]: none (an invalid date) for NaN, an
    infinity or a value beyond 8.64e15 ms either way; a fraction is cut
    off towards zero. *)
Definition time_value (n : JsNumber) : option Z :=
  match n with
  | Finite q =>
      if bool_decide (Qc_of_Z (-8640000000000000) ≤ q)%Qc
         && bool_decide (q ≤ Qc_of_Z 8640000000000000)%Qc
      then Some (if bool_decide (0 ≤ q)%Qc then Qfloor q else Qceiling q)
      else None
  | _ => None
  end.

Record FilterOpts : Type := mkFilterOpts {
  fo_entity_id : option jsstring;
  fo_process_id : option jsstring;
  fo_session_id : option jsstring
}.

(** How the probe [fetch] of the embeddings endpoint ends. *)
Inductive Probe : Type :=
| ProbeResponse (ok : bool)   (* a response arrived; [ok] is [res.ok] *)
| ProbeTimeout                (* the abort signal fired *)
| ProbeNetworkError.          (* [fetch] rejected *)

Definition probe_failed (p : Probe) : bool :=
  match p with
  | ProbeResponse ok => negb ok
  | ProbeTimeout | ProbeNetworkError => true
  end.

Inductive RecallResult : Type :=
| LexicalResults (hits : list Hit)
| HybridResults (hits : list Hit).

Definition result_hits (r : RecallResult) : list Hit :=
  match r with LexicalResults h | HybridResults h => h end.

Record ShortTerm : Type := mkShortTerm {
  st_count : Z;
  st_chars : Z;
  st_lines : list jsstring
}.

Record StartEvent : Type := mkStartEvent {
  se_prompt : option jsstring;
  se_sessionKey : option jsstring
}.

(** ** Stand-ins for the library and store operations

    The hooks are parametric in the digest, the Unicode tables and the
    store's own operations.  The examples run them with the simple
    stand-ins below; the theorems hold for every choice. *)

Module Sample.

Definition ascii_lower (c : N) : N :=
  if ((65 <=? c) && (c <=? 90))%N then (c + 32)%N else c.

Definition ascii_alnum (c : N) : bool :=
  ((48 <=? c) && (c <=? 57) || (65 <=? c) && (c <=? 90)
   || (97 <=? c) && (c <=? 122))%N.

(** A stand-in for the digest with its shape, 40 hexadecimal digits:
    the low bytes of the first 20 code units, padded with zeros. *)
Definition hex_digit (n : N) : N := if (n <? 10)%N then (48 + n)%N else (87 + n)%N.
Definition hex_byte (c : N) : jsstring :=
  [hex_digit ((c / 16) mod 16)%N; hex_digit (c mod 16)%N].
Definition textHash (s : jsstring) : jsstring :=
  take 40 (concat (map hex_byte s) ++ replicate 40 48%N).
Definition toLowerCase (s : jsstring) : jsstring := map ascii_lower s.
Definition hasLetterOrNumber (s : jsstring) : bool := existsb ascii_alnum s.
Definition fold_case (c : N) : N := ascii_lower c.
Definition randomUUID (n : nat) : jsstring := lit "id-" ++ [N.of_nat n].

(** The [h] entry alone, in JSON syntax. *)
Definition stringify (m : Meta) : jsstring :=
  [123; 34; 104; 34; 58; 34]%N ++ m_h m ++ [34; 125]%N.

Definition accepts_all (db : Db) (it : NewItem) : bool := true.

(** A store whose insert fails for one particular text. *)
Definition rejects (bad : jsstring) (db : Db) (it : NewItem) : bool :=
  negb (bool_decide (n_text it = bad)).

Definition extractFactsSimple (t : jsstring) : list Fact := [].
Definition acceptsFact (db : Db) (f : Fact) : bool := true.

(** Two confident facts per text, and a store that refuses the first. *)
Definition fact_one : Fact := mkFact (lit "user") (lit "prefers") (lit "dark mode") true.
Definition fact_two : Fact := mkFact (lit "user") (lit "lives in") (lit "UTC+1") true.
Definition two_facts (t : jsstring) : list Fact := [fact_one; fact_two].
Definition rejectsFact (bad : Fact) (db : Db) (f : Fact) : bool :=
  negb (bool_decide (f_object f = f_object bad)).

Definition searchItems (db : Db) (query : jsstring) (k : Z) : list Hit * jsstring :=
  ([], query).
Definition hybridSearch (db : Db) (q : jsstring) (k c : Z) : option (list Hit) :=
  Some [].
Definition hybridSearchFiltered (db : Db) (q : jsstring) (k c : Z)
    (f : FilterOpts) : option (list Hit) := Some [].
Definition isoDate (t : Z) : jsstring := lit "1970-01-01".

(** Fifteen rows of one session, each of 120 letters. *)
Definition fifteen_rows : list Item :=
  replicate 15
    (mkItem (lit "id-r") (Some (replicate 120 97%N)) (Some (lit "user")) None
       86400000000 (Some (lit "session-1"))).

(** A search that finds the coffee text, and one whose hit carries a
    [created_at] beyond the range of [Date]. *)
Definition coffee_hit : Hit :=
  mkHit (Some (lit "I like coffee in the morning")) (Some (lit "user")) None
    (Some (number_of_Z 86400000000)).
Definition bad_date_hit : Hit :=
  mkHit (Some (lit "I like coffee in the morning")) (Some (lit "user")) None
    (Some (number_of_Z 9000000000000000)).
Definition searchItems_found (db : Db) (query : jsstring) (k : Z)
    : list Hit * jsstring := ([coffee_hit], query).
Definition searchItems_bad_date (db : Db) (query : jsstring) (k : Z)
    : list Hit * jsstring := ([bad_date_hit], query).

Definition empty_db : Db := mkDb [] [] [].

(** A turn of three messages; the store of [rejects] refuses the second. *)
Definition first_text : jsstring := lit "I prefer dark mode in the editor".
Definition second_text : jsstring := lit "Please remember my timezone is UTC+1".
Definition third_text : jsstring := lit "Noted, I will keep that in mind for later".

Definition three_messages : AgentEndEvent :=
  mkAgentEndEvent true
    (Some [Msg (Some user) (ContentString first_text);
           Msg (Some user) (ContentString second_text);
           Msg (Some assistant) (ContentString third_text)])
    (Some (lit "session-1")) None.

(** The same text three times, up to case and spacing. *)
Definition coffee_turn : AgentEndEvent :=
  mkAgentEndEvent true
    (Some [Msg (Some user) (ContentString (lit "I like coffee in the morning"));
           Msg (Some assistant) (ContentString (lit "I like   COFFEE in the morning"));
           Msg (Some user) (ContentString (lit "I like coffee in the morning"))])
    (Some (lit "session-1")) None.

(** One message with two text blocks. *)
Definition two_blocks : AgentEndEvent :=
  mkAgentEndEvent true
    (Some [Msg (Some user)
             (ContentArray [TextBlock first_text; OtherBlock; TextBlock second_text])])
    None None.

(** One message of 201 code units. *)
Definition long_text : jsstring := replicate 201 97%N.

Definition long_message : AgentEndEvent :=
  mkAgentEndEvent true (Some [Msg (Some user) (ContentString long_text)]) None None.

Definition no_dedupe : PluginConfig :=
  mkPluginConfig None lexical None None None None None (Some 0) None None None.

Definition max_chars_200 : PluginConfig :=
  mkPluginConfig None lexical None None None None (Some 200) None None None None.

Definition hybrid_config : PluginConfig :=
  mkPluginConfig None hybrid None None None None None None None None None.

(** A store that already holds the coffee text, stored one minute ago. *)
Definition minute : Z := 60000.
Definition day : Z := 86400000.
Definition today : Z := 1000 * day.

Definition coffee_row : Item :=
  mkItem (lit "id-c") (Some (lit "I like coffee in the morning"))
    (Some (lit "user"))
    (Some (stringify (mkMeta user None None (today - minute)
                        (textHash (lit "i like coffee in the morning")))))
    (today - minute) (Some (lit "session-1")).

Definition coffee_db : Db := mkDb [coffee_row] [] [].

(** The retention scenario: two rows of 40 days, one tagged personal. *)
Definition item_A : Item :=
  mkItem (lit "A") (Some (lit "my address")) (Some (lit "personal")) None
    (today - 40 * day) None.
Definition item_B : Item :=
  mkItem (lit "B") (Some (lit "meeting notes")) (Some (lit "work")) None
    (today - 40 * day) None.
Definition item_C : Item :=
  mkItem (lit "C") (Some (lit "untagged note")) None None
    (today - 39 * day) None.

Definition retention_db : Db :=
  mkDb [item_A; item_B; item_C]
    [mkEmbedding (lit "A") (lit "bge-m3"); mkEmbedding (lit "B") (lit "bge-m3");
     mkEmbedding (lit "C") (lit "bge-m3")] [].

Definition gc_live_30 : GcParams := mkGcParams (Some false) (Some 30) None None.
Definition gc_dry_limit_1 : GcParams := mkGcParams None (Some 30) None (Some 1).
Definition no_faults : Faults := mkFaults false false false.

(** A prompt of two characters in a session that has history. *)
Definition short_prompt : StartEvent :=
  mkStartEvent (Some (lit "hi")) (Some (lit "session-1")).

(** What the host sends back after the short-term block alone was
    injected: the block, a blank line, the prompt. *)
Definition injected_short_term : jsstring :=
  short_term_memory_open ++ nl
  ++ lit "Recent messages (same session):" ++ nl
  ++ lit "[role: user] I like coffee in the morning" ++ nl
  ++ short_term_memory_close ++ nl ++ nl ++ lit "what do I like?".

End Sample.

(** Closed decidable goals on concrete data. *)
Ltac by_decide := apply (bool_decide_unpack _); vm_compute; exact I.

Section Plugin.

(** Library and store operations the plugin calls. *)
Variable textHash : jsstring → jsstring.        (* SHA-1, hexadecimal *)
Variable toLowerCase : jsstring → jsstring.
Variable hasLetterOrNumber : jsstring → bool.   (* [/[\p{L}\p{N}]/u.test] *)
Variable fold_case : N → N.                     (* case folding of flags [iu] *)
Variable randomUUID : nat → jsstring.           (* the n-th identifier drawn *)
Variable stringify : Meta → jsstring.           (* the store's serializer of [meta] *)
Variable accepts : Db → NewItem → bool.         (* the store takes this insert *)
Variable extractFactsSimple : jsstring → list Fact.
Variable acceptsFact : Db → Fact → bool.

Definition normalizeForDedupe (t : jsstring) : jsstring :=
  toLowerCase (trim (collapse_ws (strip_relevant t))).

(** [p] occurs in [s]. *)
Definition contains (p s : jsstring) : Prop := ∃ pre post, s = pre ++ p ++ post.

Definition all_ws (s : jsstring) : Prop := Forall (λ c, is_ws c = true) s.

Definition is_ack (t : jsstring) : bool :=
  bool_decide (map fold_case t ∈ map (map fold_case) ack_tokens).

Definition shouldSkipCapture (t0 : jsstring) (minChars : Z) : bool :=
  let t := trim t0 in
  if bool_decide (t = []) then true
  else if (0 <? minChars) && (len t <? minChars) then true
  else if negb (hasLetterOrNumber t) then true
  else if is_ack t then true
  else false.

(** Modelled from the spec: the store's insert operation lives in the
    external core.  It appends a row whose [created_at] the store
    assigns, or fails with a store error and leaves the table as it was. *)
Definition stored_row (now : Z) (it : NewItem) : Item :=
  {| id := n_id it;
     item_text := Some (n_text it);
     tags := Some (n_tags it);
     meta := Some (stringify (n_meta it));
     created_at := now;
     session_id := n_session_id it |}.

Definition addItem (now : Z) (db : Db) (it : NewItem) : option Db :=
  if accepts db it
  then Some (mkDb (items db ++ [stored_row now it]) (embeddings db) (facts db))
  else None.

(** Modelled from the spec: the store's fact insert, of the external
    core; it fails on a duplicate or any other constraint. *)
Definition insertFact (db : Db) (f : Fact) : option Db :=
  if acceptsFact db f
  then Some (mkDb (items db) (embeddings db) (facts db ++ [f]))
  else None.

(** The item the loop builds for a candidate. *)
Definition capture_item (cfg : Cfg) (ev : AgentEndEvent) (now : Z)
    (uuid : nat) (c : Capture) : NewItem :=
  let h := textHash (normalizeForDedupe (text c)) in
  {| n_id := randomUUID uuid;
     n_text := clip (captureMaxChars cfg) (text c);
     n_tags := role_tag (role c);
     n_meta := mkMeta (role c) (ev_sessionKey ev) (ev_channel ev) now h;
     n_entity_id := match role c with user => lit "user" | assistant => lit "agent" end;
     n_process_id := lit "akasha";
     n_session_id := ev_sessionKey ev |}.

(** The body of the capture loop for [cleaned[i]]. *)
Definition capture_step (cfg : Cfg) (ev : AgentEndEvent) (now : Z)
    (st : LoopState) (c : Capture) : Outcome LoopState :=
  if shouldSkipCapture (text c) (captureMinChars cfg) then Returned st
  else
    let h := textHash (normalizeForDedupe (text c)) in
    if (0 <? captureDedupeWindowMs cfg) && bool_decide (h ∈ ls_recentHashes st)
    then Returned st
    else
      let recent' := {[ h ]} ∪ ls_recentHashes st in
      match addItem now (ls_db st) (capture_item cfg ev now (ls_uuids st) c) with
      | Some db' =>
          Returned (mkLoopState db' recent' (ls_stored st + 1) (S (ls_uuids st)))
      | None => Threw (ls_db st)
      end.

Fixpoint capture_loop (cfg : Cfg) (ev : AgentEndEvent) (now : Z)
    (cs : list Capture) (st : LoopState) : Outcome LoopState :=
  match cs with
  | [] => Returned st
  | c :: rest =>
      match capture_step cfg ev now st c with
      | Returned st' => capture_loop cfg ev now rest st'
      | Threw db => Threw db
      end
  end.

(** The candidates the loops visit: indices below
    [Math.min(maxPerTurn, cleaned.length)]. *)
Definition visited (cfg : Cfg) (cleaned : list Capture) : list Capture :=
  take (Z.to_nat (Z.min (captureMaxPerTurn cfg) (Z.of_nat (length cleaned)))) cleaned.


(** Phase 2 of the hook: each fact insert sits in its own [try]/[catch]. *)
Definition fact_step (st : Db * Z) (f : Fact) : Db * Z :=
  if negb (f_confident f) then st
  else match insertFact (fst st) f with
       | Some db' => (db', snd st + 1)
       | None => st
       end.

Definition facts_loop (cs : list Capture) (st : Db * Z) : Db * Z :=
  foldl (λ st c, foldl fact_step st (extractFactsSimple (text c))) st cs.

(** The [agent_end] hook: the store afterwards and the lines logged. *)
Definition agent_end (pc : PluginConfig) (ev : AgentEndEvent) (now : Z)
    (uuid0 : nat) (db : Db) : Db * list LogLine :=
  if negb (ev_success ev) then (db, [])
  else
    match ev_messages ev with
    | None => (db, [WarnMissingMessages])
    | Some [] => (db, [])
    | Some msgs =>
        let cfg := getCfg pc in
        let cleaned := sanitizeCaptures (extract_captures msgs) in
        match cleaned with
        | [] => (db, [])
        | _ =>
            let cutoff := now - captureDedupeWindowMs cfg in
            let recent := recent_rows db cutoff (captureDedupeMaxCheck cfg) in
            let st0 := mkLoopState db (recent_hashes recent) 0 uuid0 in
            match capture_loop cfg ev now (visited cfg cleaned) st0 with
            | Threw db' => (db', [ErrorAgentEndFailed])
            | Returned st =>
                let captured :=
                  if 0 <? ls_stored st then [InfoAutoCaptured (ls_stored st)]
                  else [] in
                let '(db2, n) := facts_loop (visited cfg cleaned) (ls_db st, 0) in
                (db2, captured ++ (if 0 <? n then [InfoAutoExtracted n] else []))
            end
        end
    end.

(** ** Retention: [memory_gc] *)

(** The [WHERE] clause of the candidate query. *)
Definition gc_where (cutoff : Z) (protectedTags : list jsstring) (r : Item) : bool :=
  (created_at r <? cutoff)
  && match protectedTags with
     | [] => true
     | _ => match tags r with
            | None => true
            | Some t => bool_decide (t ∉ protectedTags)
            end
     end.

Definition gc_rows (db : Db) (cutoff : Z) (protectedTags : list jsstring)
    (lim : Z) : list Item :=
  limit lim (order_by_created_at_asc (filter (gc_where cutoff protectedTags) (items db))).

(** The function handed to [db.transaction]. *)
Definition gc_delete (faults : Faults) (ids : list jsstring) (db : Db)
    : option (Db * Deleted) :=
  match ids with
  | [] => Some (db, mkDeleted 0 0)
  | _ =>
      if fault_delete_embeddings faults then None
      else
        let kept_emb := filter (λ e, item_id e ∉ ids) (embeddings db) in
        let db1 := mkDb (items db) kept_emb (facts db) in
        if fault_delete_items faults then None
        else
          let kept_items := filter (λ r, id r ∉ ids) (items db1) in
          Some (mkDb kept_items kept_emb (facts db1),
                mkDeleted
                  (Z.of_nat (length (items db1)) - Z.of_nat (length kept_items))
                  (Z.of_nat (length (embeddings db)) - Z.of_nat (length kept_emb)))
  end.

(** [db.transaction(fn)()]: commit when [fn] returns, roll back to the
    state at [BEGIN] and rethrow when it throws. *)
Definition transaction {A} (fn : Db → option (Db * A)) (db : Db) : Outcome (Db * A) :=
  match fn db with
  | Some r => Returned r
  | None => Threw db
  end.

(** [try { db.exec("VACUUM") } catch {}]: the rows are as before. *)
Definition vacuum (faults : Faults) (db : Db) : option Db :=
  if fault_vacuum faults then None else Some db.

Definition try_vacuum (faults : Faults) (db : Db) : Db :=
  default db (vacuum faults db).

(** [retentionDays ?? cfg.retentionDays] *)
Definition gc_days (cfg : Cfg) (params : GcParams) : option Z :=
  match gc_retentionDays params with
  | Some d => Some d
  | None => retentionDays cfg
  end.

Definition gc_protectedTags (cfg : Cfg) (params : GcParams) : list jsstring :=
  default (retentionProtectedTags cfg) (gc_protectTags params).

Definition gc_cutoff (now days : Z) : Z := now - days * 24 * 60 * 60 * 1000.

Definition gc_lim (params : GcParams) : Z :=
  clamp 1 5000 (default 1000 (gc_limit params)).

(** The tool's [execute]: the store afterwards and the result, [None]
    when the call throws. *)
Definition memory_gc (pc : PluginConfig) (params : GcParams) (now : Z)
    (faults : Faults) (db : Db) : Db * option GcResult :=
  let cfg := getCfg pc in
  match gc_days cfg params with
  | None => (db, Some GcSkipped)
  | Some days =>
      let protectedTags := gc_protectedTags cfg params in
      let cutoff := gc_cutoff now days in
      let lim := gc_lim params in
      let rows := gc_rows db cutoff protectedTags lim in
      let ids := map id rows in
      if negb (bool_decide (gc_dryRun params = Some false)) then
        (db, Some (GcDryRun cutoff (Z.of_nat (length ids)) (take 20 rows)))
      else
        match transaction (gc_delete faults ids) db with
        | Threw db' => (db', None)
        | Returned (db', res) => (try_vacuum faults db', Some (GcLive cutoff res))
        end
  end.

(** Eligibility as the retention policy words it: older than the
    horizon, and the tag is not one of the protected tags. *)
Definition protected_tag (protectedTags : list jsstring) (r : Item) : Prop :=
  ∃ t, tags r = Some t ∧ t ∈ protectedTags.

Definition gc_eligible (cutoff : Z) (protectedTags : list jsstring) (r : Item) : Prop :=
  created_at r < cutoff ∧ ¬ protected_tag protectedTags r.

(** ** Recall: the hybrid degradation guard *)

Variable searchItems : Db → jsstring → Z → list Hit * jsstring.
Variable hybridSearch : Db → jsstring → Z → Z → option (list Hit).
Variable hybridSearchFiltered :
  Db → jsstring → Z → Z → FilterOpts → option (list Hit).

Definition intervalMs : Z := 1000 * 60 * 60.

(** [maybeLogHybridDegraded]: the new [lastHybridDegradedLogTs] and
    what is logged. *)
Definition maybeLogHybridDegraded (now last : Z) : Z * list LogLine :=
  if now - last <? intervalMs then (last, [])
  else (now, [WarnHybridDegraded]).

Definition truthy (s : option jsstring) : bool :=
  match s with
  | Some (_ :: _) => true
  | _ => false
  end.

Definition has_filter (f : option FilterOpts) : option FilterOpts :=
  match f with
  | Some fo =>
      if truthy (fo_entity_id fo) || truthy (fo_process_id fo)
         || truthy (fo_session_id fo)
      then Some fo else None
  | None => None
  end.

(** [recall]: the result ([None] when a search throws), the new
    [lastHybridDegradedLogTs] and what is logged.  [now] is the clock
    reading inside [maybeLogHybridDegraded]. *)
Definition recall (pc : PluginConfig) (db : Db) (query : jsstring)
    (lim : option Z) (flt : option FilterOpts) (probe : Probe)
    (now last : Z) : option RecallResult * Z * list LogLine :=
  let cfg := getCfg pc in
  let k := clamp 1 20 (default (topK cfg) lim) in
  match mode cfg with
  | hybrid =>
      if probe_failed probe then
        let '(last', logged) := maybeLogHybridDegraded now last in
        (Some (LexicalResults (fst (searchItems db query k))), last', logged)
      else
        let escapedQuery := snd (searchItems db query 1) in
        match has_filter flt with
        | Some fo =>
            (HybridResults <$>
               hybridSearchFiltered db escapedQuery k (candidates cfg) fo,
             last, [])
        | None =>
            (HybridResults <$> hybridSearch db escapedQuery k (candidates cfg),
             last, [])
        end
  | lexical => (Some (LexicalResults (fst (searchItems db query k))), last, [])
  end.

(** A run of recall calls against one process-wide
    [lastHybridDegradedLogTs]: each call comes with its probe outcome
    and clock reading; the result is every line logged, with the clock
    reading of the call that logged it. *)
Fixpoint recall_calls (pc : PluginConfig) (db : Db) (query : jsstring)
    (calls : list (Probe * Z)) (last : Z) : list (Z * LogLine) :=
  match calls with
  | [] => []
  | (probe, now) :: rest =>
      let '(_, last', logged) := recall pc db query None None probe now last in
      map (λ l, (now, l)) logged ++ recall_calls pc db query rest last'
  end.

(** ** Recall assembler: [before_agent_start] *)

Definition maxMsgs : Z := 15.
Definition maxChars : Z := 2000.

(** The session's own rows: newest first, at most 50. *)
Definition session_rows (db : Db) (sessionId : jsstring) : list Item :=
  limit 50
    (order_by_created_at_desc
       (filter (λ r, session_id r = Some sessionId
                     ∧ (tags r = Some (lit "user") ∨ tags r = Some (lit "assistant")))
          (items db))).

(** The text of a row as a line shows it. *)
Definition row_text (r : Item) : jsstring :=
  trim (collapse_ws (default [] (item_text r))).

Definition row_line (r : Item) : jsstring :=
  let rl := if bool_decide (tags r = Some (lit "assistant"))
            then lit "assistant" else lit "user" in
  lit "[role: " ++ rl ++ lit "] " ++ clip 300 (row_text r).

(** The accumulation loop over [rows.reverse()]. *)
Fixpoint short_term_loop (rows : list Item) (st : ShortTerm) : ShortTerm :=
  match rows with
  | [] => st
  | r :: rest =>
      if (maxMsgs <=? st_count st) || (maxChars <=? st_chars st) then st
      else if bool_decide (row_text r = []) then short_term_loop rest st
      else
        let line := row_line r in
        if maxChars <? st_chars st + len line then st
        else short_term_loop rest
               (mkShortTerm (st_count st + 1) (st_chars st + len line)
                  (st_lines st ++ [line]))
  end.

Definition short_term_lines (rows : list Item) : list jsstring :=
  st_lines (short_term_loop (reverse rows) (mkShortTerm 0 0 [])).

Definition short_term_block (lines : list jsstring) : jsstring :=
  match lines with
  | [] => []
  | _ =>
      short_term_memory_open ++ nl
      ++ lit "Recent messages (same session):" ++ nl
      ++ join nl lines
      ++ nl ++ short_term_memory_close
  end.

Variable isoDate : Z → jsstring.   (* [new Date(t).toISOString().slice(0, 10)] *)

Definition nonempty (s : jsstring) : bool :=
  match s with [] => false | _ => true end.

(** [item.created_at ? new Date(Number(item.created_at)).toISOString().slice(0, 10) : ""];
    [None]: [toISOString] throws a RangeError, the date being invalid. *)
Definition hit_date (h : Hit) : option jsstring :=
  match hit_created_at h with
  | Some n => isoDate <$> time_value n
  | None => Some []
  end.

(** The line of a hit.  Where [hit_date] throws the hook never gets to
    use the line: see [recall_throws]. *)
Definition hit_line (h : Hit) : jsstring :=
  let snippet := clip 200 (trim (collapse_ws (default [] (hit_text h)))) in
  let tag := trim (default [] (hit_tags h)) in
  let source := trim (default [] (hit_source h)) in
  let date := default [] (hit_date h) in
  let bits :=
    join (lit " ")
      (List.filter nonempty
         [ (if nonempty tag then lit "tag:" ++ tag else []);
           (if nonempty source then lit "src:" ++ source else []);
           (if nonempty date then lit "date:" ++ date else []) ]) in
  if nonempty bits
  then lit "- " ++ snippet ++ lit " (" ++ bits ++ lit ")"
  else lit "- " ++ snippet.

Definition recall_block (hits : list Hit) : jsstring :=
  match hits with
  | [] => []
  | _ =>
      relevant_memories_open ++ nl
      ++ lit "The following memories may be relevant to this conversation:" ++ nl
      ++ join nl (map hit_line (take 3 hits)) ++ nl
      ++ relevant_memories_close
  end.

(** The date conversion throws inside [results.slice(0, 3).map(...)]. *)
Definition recall_throws (hits : list Hit) : bool :=
  existsb (λ h, bool_decide (hit_date h = None)) (take 3 hits).

(** The [before_agent_start] hook: the [prependContext] it returns
    ([None] when it returns nothing), the new
    [lastHybridDegradedLogTs] and what is logged. *)
Definition before_agent_start (pc : PluginConfig) (ev : StartEvent) (db : Db)
    (probe : Probe) (now last : Z) : option jsstring * Z * list LogLine :=
  let prompt := trim (default [] (se_prompt ev)) in
  if len prompt <? 5 then (None, last, [])
  else
    let shortTermBlock :=
      match se_sessionKey ev with
      | Some (c :: sid) => short_term_block (short_term_lines (session_rows db (c :: sid)))
      | _ => []
      end in
    match recall pc db prompt (Some 3) None probe now last with
    | (None, last', logged) => (None, last', logged ++ [WarnAutoRecallFailed])
    | (Some res, last', logged) =>
        let results := result_hits res in
        if recall_throws results
        then (None, last', logged ++ [WarnAutoRecallFailed])
        else
          let recallBlock := recall_block results in
          let logged' :=
            match results with
            | [] => logged
            | _ => logged ++ [InfoInjecting (Z.min 3 (Z.of_nat (length results)))]
            end in
          if negb (nonempty shortTermBlock) && negb (nonempty recallBlock)
          then (None, last', logged')
          else (Some (join (nl ++ nl)
                        (List.filter nonempty [shortTermBlock; recallBlock])),
                last', logged')
    end.

(** ** Notions the properties are stated with *)

Definition sum_len (lines : list jsstring) : Z :=
  foldr (λ l acc, len l + acc) 0 lines.

(** The lines the rows render to, oldest first, rows without text left out. *)
Definition rendered (rows : list Item) : list jsstring :=
  map row_line (filter (λ r, row_text r ≠ []) rows).

(** Each reading is at least one interval after the one before it,
    starting from [last]. *)
Fixpoint spaced (last : Z) (ts : list Z) : Prop :=
  match ts with
  | [] => True
  | t :: rest => intervalMs ≤ t - last ∧ spaced t rest
  end.

(** The store an outcome leaves. *)
Definition outcome_db (o : Outcome LoopState) : Db :=
  match o with
  | Returned st => ls_db st
  | Threw db => db
  end.

Definition item_hash (it : NewItem) : jsstring := m_h (n_meta it).

(** The digest the loop computes for a candidate. *)
Definition capture_hash (c : Capture) : jsstring :=
  textHash (normalizeForDedupe (text c)).

(** The extracted pairs of an event. *)
Definition event_captures (ev : AgentEndEvent) : list Capture :=
  match ev_messages ev with
  | Some msgs => extract_captures msgs
  | None => []
  end.

(** The hashes the dedupe query finds in the store. *)
Definition dedupe_window (cfg : Cfg) (now : Z) (db : Db) : gset jsstring :=
  recent_hashes
    (recent_rows db (now - captureDedupeWindowMs cfg) (captureDedupeMaxCheck cfg)).

(** What a stored item shows of its candidate: tag, text and hash. *)
Definition item_view (it : NewItem) : jsstring * jsstring * jsstring :=
  (n_tags it, n_text it, item_hash it).

Definition capture_view (cfg : Cfg) (c : Capture) : jsstring * jsstring * jsstring :=
  (role_tag (role c), clip (captureMaxChars cfg) (text c), capture_hash c).

(** The candidates the noise heuristic lets through. *)
Definition non_noise (cfg : Cfg) (cs : list Capture) : list Capture :=
  filter (λ c, shouldSkipCapture (text c) (captureMinChars cfg) = false) cs.

(** A text that does not begin with white space. *)
Definition no_lead (s : jsstring) : Prop :=
  match s with
  | [] => True
  | c :: _ => is_ws c = false
  end.

(** A text as [trim] leaves it: no white space at either end. *)
Definition trimmed (s : jsstring) : Prop := no_lead s ∧ no_lead (reverse s).

(** A digit of a lower-case hexadecimal digest. *)
Definition is_lower_hex (c : N) : bool :=
  ((48 <=? c) && (c <=? 57) || (97 <=? c) && (c <=? 102))%N.

(** The shape of a stored content hash: 40 lower-case hexadecimal digits. *)
Definition is_digest (h : jsstring) : Prop :=
  length h = 40%nat ∧ Forall (λ c, is_lower_hex c = true) h.

(** The hash the window loop takes from a row, if any. *)
Definition row_hash (r : Item) : option jsstring :=
  match meta r with
  | Some m => if bool_decide (m = []) then None else map lower_hex <$> match_h m
  | None => None
  end.

(** The rows a dedupe query with this cutoff ranges over, before [LIMIT]. *)
Definition rows_since (cutoff : Z) (db : Db) : list Item :=
  filter (λ r, cutoff <=? created_at r) (items db).

(** White space, if any, is the plain space. *)
Definition ws_is_space (c : N) : bool := negb (is_ws c) || (c =? 32)%N.

(** The short-term block the hook assembles for an event. *)
Definition session_block (ev : StartEvent) (db : Db) : jsstring :=
  match se_sessionKey ev with
  | Some (c :: sid) => short_term_block (short_term_lines (session_rows db (c :: sid)))
  | _ => []
  end.

(** The rows the session query ranges over, before [ORDER BY] and [LIMIT]. *)
Definition session_items (db : Db) (sessionId : jsstring) : list Item :=
  filter (λ r, session_id r = Some sessionId
               ∧ (tags r = Some (lit "user") ∨ tags r = Some (lit "assistant")))
    (items db).

(** ** Tool [memory_forget] *)

Record ForgetParams : Type := mkForgetParams {
  fg_memoryId : option jsstring;
  fg_query : option jsstring
}.

Inductive ForgetResult : Type :=
| ForgetNeedsInput                          (* [ok: false], "Provide memoryId or query" *)
| ForgetNoMatches                           (* [ok: true, deleted: 0] *)
| ForgetDeleted (deleted : Z) (id : jsstring).

(** [results[0]?.item?.id ?? null], on the result shape of the store. *)
Variable first_item_id : RecallResult → option jsstring.

(** [DELETE FROM items WHERE id = ?] and its [changes]. *)
Definition delete_item (deleteId : jsstring) (db : Db) : Db * Z :=
  let kept := filter (λ r, id r ≠ deleteId) (items db) in
  (mkDb kept (embeddings db) (facts db),
   Z.of_nat (length (items db)) - Z.of_nat (length kept)).

(** The tool's [execute]: the store afterwards, the result ([None] when
    the search throws), the new [lastHybridDegradedLogTs] and what is
    logged. *)
Definition memory_forget (pc : PluginConfig) (params : ForgetParams) (db : Db)
    (probe : Probe) (now last : Z)
    : Db * option ForgetResult * Z * list LogLine :=
  let id := fg_memoryId params in
  let query := fg_query params in
  if negb (truthy id) && negb (truthy query)
  then (db, Some ForgetNeedsInput, last, [])
  else if negb (truthy id) && truthy query then
    match recall pc db (default [] query) (Some 5) None probe now last with
    | (None, last', logged) => (db, None, last', logged)
    | (Some res, last', logged) =>
        let deleteId := first_item_id res in
        if negb (truthy deleteId) then (db, Some ForgetNoMatches, last', logged)
        else
          let '(db', deleted) := delete_item (default [] deleteId) db in
          (db', Some (ForgetDeleted deleted (default [] deleteId)), last', logged)
    end
  else
    let '(db', deleted) := delete_item (default [] id) db in
    (db', Some (ForgetDeleted deleted (default [] id)), last, []).

(** ** Tool [memory_recall] *)

Record RecallParams : Type := mkRecallParams {
  rp_query : jsstring;
  rp_limit : option Z;
  rp_entityId : option jsstring;
  rp_processId : option jsstring;
  rp_sessionId : option jsstring
}.

(** [(entityId || processId || sessionId) ? { ... } : undefined] *)
Definition tool_filter (p : RecallParams) : option FilterOpts :=
  if truthy (rp_entityId p) || truthy (rp_processId p) || truthy (rp_sessionId p)
  then Some (mkFilterOpts (rp_entityId p) (rp_processId p) (rp_sessionId p))
  else None.

(** One line of the preview, [i] below 5: the number [i + 1], a dot, a
    space and the first 160 code units of the text. *)
Definition preview_line (i : nat) (h : Hit) : jsstring :=
  [N.of_nat (49 + i)] ++ lit ". " ++ slice0 160 (default [] (hit_text h)).

Definition preview (hits : list Hit) : jsstring :=
  join nl (imap preview_line (take 5 hits)).

Inductive RecallContent : Type :=
| FoundMemories (n : Z) (preview : jsstring)   (* "Found n memories:" and the preview *)
| NoRelevantMemories.                          (* "No relevant memories found." *)

Record RecallDetails : Type := mkRecallDetails {
  rd_query : jsstring;
  rd_items : list Hit;
  rd_filter : option FilterOpts
}.

Definition recall_content (hits : list Hit) : RecallContent :=
  match hits with
  | [] => NoRelevantMemories
  | _ => FoundMemories (Z.of_nat (length hits)) (preview hits)
  end.

(** The tool's [execute]: content and details ([None] when the search
    throws), the new [lastHybridDegradedLogTs] and what is logged. *)
Definition memory_recall (pc : PluginConfig) (db : Db) (p : RecallParams)
    (probe : Probe) (now last : Z)
    : option (RecallContent * RecallDetails) * Z * list LogLine :=
  let flt := tool_filter p in
  match recall pc db (rp_query p) (rp_limit p) flt probe now last with
  | (None, last', logged) => (None, last', logged)
  | (Some res, last', logged) =>
      let hits := result_hits res in
      (Some (recall_content hits, mkRecallDetails (rp_query p) hits flt),
       last', logged)
  end.

(** The sanitizer in the words of the specification: the messages whose
    text is not empty or white space only and bears neither marker of
    injected context, in their order. *)
Definition bears_marker (t : jsstring) : bool :=
  includes relevant_memories_open t || includes short_term_memory_open t.

Definition spec_sanitize (captures : list Capture) : list Capture :=
  filter (λ c, negb (forallb is_ws (text c)) && negb (bears_marker (text c)))
    captures.

(** ** The capture loop for any configured number

    [captureMaxPerTurn] only enters [Math.min(maxPerTurn, cleaned.length)]
    and the test [i < ...] of the two loops, both exact on doubles. *)

(** The candidates [cleaned[i]] the loop visits from index [i] on, [rest]
    being the candidates from there: it goes on while [i < bound]. *)
Fixpoint visit_from (bound : JsNumber) (i : Z) (rest : list Capture)
    : list Capture :=
  match rest with
  | [] => []
  | c :: rest' =>
      if number_lt (number_of_Z i) bound
      then c :: visit_from bound (i + 1) rest'
      else []
  end.

Definition visited_number (maxPerTurn : JsNumber) (cleaned : list Capture)
    : list Capture :=
  visit_from (Math_min maxPerTurn (number_of_Z (Z.of_nat (length cleaned))))
    0 cleaned.

(** The [agent_end] hook for a host whose [captureMaxPerTurn] is any
    number ([None]: not configured), the other settings being those of
    [pc]. *)
Definition agent_end_number (configured : option JsNumber) (pc : PluginConfig)
    (ev : AgentEndEvent) (now : Z) (uuid0 : nat) (db : Db)
    : Db * list LogLine :=
  if negb (ev_success ev) then (db, [])
  else
    match ev_messages ev with
    | None => (db, [WarnMissingMessages])
    | Some [] => (db, [])
    | Some msgs =>
        let cfg := getCfg pc in
        let maxPerTurn :=
          clamp_number 1 50 (default (number_of_Z 20) configured) in
        let cleaned := sanitizeCaptures (extract_captures msgs) in
        match cleaned with
        | [] => (db, [])
        | _ =>
            let cutoff := now - captureDedupeWindowMs cfg in
            let recent := recent_rows db cutoff (captureDedupeMaxCheck cfg) in
            let st0 := mkLoopState db (recent_hashes recent) 0 uuid0 in
            match capture_loop cfg ev now (visited_number maxPerTurn cleaned) st0 with
            | Threw db' => (db', [ErrorAgentEndFailed])
            | Returned st =>
                let captured :=
                  if 0 <? ls_stored st then [InfoAutoCaptured (ls_stored st)]
                  else [] in
                let '(db2, n) :=
                  facts_loop (visited_number maxPerTurn cleaned) (ls_db st, 0) in
                (db2, captured ++ (if 0 <? n then [InfoAutoExtracted n] else []))
            end
        end
    end.

(** The number of candidates a budget lets the loops visit, at most:
    the least integer that is not below it. *)
Definition budget_ceiling (maxPerTurn : JsNumber) : Z :=
  match maxPerTurn with
  | Finite q => Qceiling q
  | _ => 0
  end.

(** * Properties *)

(** ** Strings *)

Lemma startsWith_spec (p s : jsstring) :
  startsWith p s = true ↔ ∃ post, s = p ++ post.
Proof.
  revert s. induction p as [|a p IH]; intros s; simpl.
  - split; [intros _; by exists s | done].
  - destruct s as [|b s].
    + split; [done | intros [post H]; discriminate].
    + rewrite andb_true_iff, N.eqb_eq, IH. split.
      * intros [-> [post ->]]. by exists post.
      * intros [post H]. injection H as -> ->. split; [done | by exists post].
Qed.

Lemma includes_spec (p s : jsstring) :
  includes p s = true ↔ contains p s.
Proof.
  unfold contains. induction s as [|b s IH].
  - simpl. rewrite orb_false_r, startsWith_spec. split.
    + intros [post H]. exists [], post. done.
    + intros (pre & post & H). symmetry in H.
      apply app_eq_nil in H as [-> H]. apply app_eq_nil in H as [-> ->].
      by exists [].
  - cbn [includes]. rewrite orb_true_iff, startsWith_spec, IH. split.
    + intros [[post H] | (pre & post & H)].
      * exists [], post. done.
      * exists (b :: pre), post. by rewrite H.
    + intros (pre & post & H). destruct pre as [|c pre].
      * left. by exists post.
      * right. injection H as -> H. by exists pre, post.
Qed.

Lemma trimStart_split (s : jsstring) :
  ∃ pre, s = pre ++ trimStart s ∧ all_ws pre.
Proof.
  induction s as [|c s (pre & H & Hws)]; simpl.
  - exists []. split; [done | constructor].
  - destruct (is_ws c) eqn:Hc.
    + exists (c :: pre). split; [by rewrite H at 1 | by constructor].
    + exists []. split; [done | constructor].
Qed.

Lemma trimStart_all_ws (s : jsstring) : trimStart s = [] ↔ all_ws s.
Proof.
  split.
  - intros H. destruct (trimStart_split s) as (pre & Hs & Hws).
    rewrite H, app_nil_r in Hs. by subst.
  - induction 1 as [|c s Hc _ IH]; simpl; [done | by rewrite Hc].
Qed.

Lemma trim_all_ws (s : jsstring) : trim s = [] ↔ all_ws s.
Proof.
  unfold trim, trimEnd. split.
  - intros H. apply (f_equal reverse) in H. rewrite reverse_involutive in H.
    simpl in H. change (reverse []) with (@nil N) in H.
    apply trimStart_all_ws in H. unfold all_ws in H.
    rewrite Forall_reverse in H.
    destruct (trimStart_split s) as (pre & Hs & Hws). rewrite Hs.
    by apply Forall_app.
  - intros H. apply trimStart_all_ws in H. by rewrite H.
Qed.

Lemma len_nonneg (s : jsstring) : 0 ≤ len s.
Proof. unfold len. lia. Qed.

Lemma len_app (s t : jsstring) : len (s ++ t) = len s + len t.
Proof. unfold len. rewrite length_app. lia. Qed.

Lemma len_pos_iff (s : jsstring) : (0 <? len s) = true ↔ s ≠ [].
Proof.
  unfold len. rewrite Z.ltb_lt. destruct s; simpl; split; try done; lia.
Qed.

(** The clipped text: as it was when within the cap, otherwise the cap
    plus the three code units of [clip_marker]. *)
Lemma clip_length (n : Z) (t : jsstring) :
  0 ≤ n →
  len (clip n t) = if n <? len t then n + 3 else len t.
Proof.
  intros Hn. unfold clip. destruct (n <? len t) eqn:E; [|done].
  apply Z.ltb_lt in E. rewrite len_app. unfold slice0, len in *.
  rewrite length_take. simpl. lia.
Qed.

(** ** Sanitizer *)

Lemma sanitizeCaptures_elem_of (captures : list Capture) (c : Capture) :
  c ∈ sanitizeCaptures captures ↔
  c ∈ map trim_capture captures ∧ text c ≠ []
  ∧ ¬ contains relevant_memories_open (text c).
Proof.
  unfold sanitizeCaptures. rewrite !list_elem_of_filter.
  rewrite <- includes_spec.
  destruct (includes relevant_memories_open (text c)); simpl.
  - rewrite <- len_pos_iff. intuition congruence.
  - rewrite <- len_pos_iff. destruct (0 <? len (text c)); simpl; intuition congruence.
Qed.

(** ** Short-term block *)

Lemma sum_len_app (l1 l2 : list jsstring) :
  sum_len (l1 ++ l2) = sum_len l1 + sum_len l2.
Proof. induction l1 as [|x l1 IH]; simpl; [done | rewrite IH; lia]. Qed.

(** The loop keeps [count] and [chars] in step with [lines], stays within
    both caps, and appends whole lines of the rows in their order. *)
Lemma short_term_loop_inv (rows : list Item) (st : ShortTerm) :
  st_count st = Z.of_nat (length (st_lines st)) →
  st_chars st = sum_len (st_lines st) →
  st_count st ≤ maxMsgs → st_chars st ≤ maxChars →
  let st' := short_term_loop rows st in
  st_count st' = Z.of_nat (length (st_lines st'))
  ∧ st_chars st' = sum_len (st_lines st')
  ∧ st_count st' ≤ maxMsgs ∧ st_chars st' ≤ maxChars
  ∧ ∃ added rest,
      st_lines st' = st_lines st ++ added
      ∧ rendered rows = added ++ rest
      ∧ match rest with
        | [] => True
        | next :: _ =>
            st_count st' = maxMsgs ∨ st_chars st' = maxChars
            ∨ maxChars < st_chars st' + len next
        end.
Proof.
  revert st. induction rows as [|r rows IH]; intros st Hc Hs Hm Hx; simpl.
  - repeat split; try done. exists [], []. by rewrite app_nil_r.
  - destruct ((maxMsgs <=? st_count st) || (maxChars <=? st_chars st)) eqn:Ecap.
    + repeat split; try done. exists [], (rendered (r :: rows)).
      rewrite app_nil_r. repeat split; try done.
      destruct (rendered (r :: rows)); [done|].
      apply orb_true_iff in Ecap as [E|E]; apply Z.leb_le in E; lia.
    + apply orb_false_iff in Ecap as [E1 E2].
      apply Z.leb_gt in E1, E2.
      unfold rendered. rewrite filter_cons.
      case_bool_decide as Etxt.
      * destruct (decide (row_text r ≠ [])) as [Hne|_]; [done|].
        by apply IH.
      * destruct (decide (row_text r ≠ [])) as [_|Hne]; [|done].
        destruct (maxChars <? st_chars st + len (row_line r)) eqn:Eover.
        -- apply Z.ltb_lt in Eover. repeat split; try done.
           exists [], (row_line r :: rendered rows). rewrite app_nil_r.
           repeat split; try done. by right; right.
        -- apply Z.ltb_ge in Eover.
           destruct (IH (mkShortTerm (st_count st + 1)
                           (st_chars st + len (row_line r))
                           (st_lines st ++ [row_line r])))
             as (H1 & H2 & H3 & H4 & added & rest & Hl & Hr & Hstop); simpl.
           ++ rewrite length_app. simpl. lia.
           ++ rewrite sum_len_app. simpl. lia.
           ++ lia.
           ++ lia.
           ++ repeat split; try done.
              exists (row_line r :: added), rest. repeat split; try done.
              ** simpl in Hl. rewrite Hl. by rewrite <- app_assoc.
              ** simpl. by rewrite <- Hr.
Qed.

(** ** Hybrid degradation guard *)

Lemma spaced_after (last : Z) (ts : list Z) (t : Z) :
  spaced last ts → t ∈ ts → intervalMs ≤ t - last.
Proof.
  revert last. induction ts as [|t0 ts IH]; intros last Hsp Hin.
  - by apply elem_of_nil in Hin.
  - destruct Hsp as [H0 Hsp]. apply elem_of_cons in Hin as [->|Hin]; [done|].
    specialize (IH _ Hsp Hin). unfold intervalMs in *. lia.
Qed.

Lemma spaced_pairwise (last : Z) (ts : list Z) (i j : nat) (ti tj : Z) :
  spaced last ts → (i < j)%nat → ts !! i = Some ti → ts !! j = Some tj →
  intervalMs ≤ tj - ti.
Proof.
  revert last i j. induction ts as [|t0 ts IH]; intros last i j Hsp Hij Hi Hj.
  - done.
  - destruct Hsp as [H0 Hsp]. destruct j as [|j]; [lia|]. simpl in Hj.
    destruct i as [|i]; simpl in Hi.
    + injection Hi as ->. apply (spaced_after _ ts); [done|].
      by eapply list_elem_of_lookup_2.
    + apply (IH t0 i j); [done | lia | done | done].
Qed.

Lemma recall_logged (pc : PluginConfig) (db : Db) (query : jsstring)
    (lim : option Z) (flt : option FilterOpts) (probe : Probe) (now last : Z) :
  let '(_, last', logged) := recall pc db query lim flt probe now last in
  (logged = [] ∧ last' = last)
  ∨ (logged = [WarnHybridDegraded] ∧ last' = now ∧ intervalMs ≤ now - last).
Proof.
  unfold recall. destruct (mode (getCfg pc)); [by left|].
  destruct (probe_failed probe).
  - unfold maybeLogHybridDegraded.
    destruct (now - last <? intervalMs) eqn:E.
    + by left.
    + right. apply Z.ltb_ge in E. done.
  - destruct (has_filter flt); by left.
Qed.

Lemma recall_calls_spaced (pc : PluginConfig) (db : Db) (query : jsstring)
    (calls : list (Probe * Z)) (last : Z) :
  spaced last (map fst (recall_calls pc db query calls last))
  ∧ Forall (λ e, snd e = WarnHybridDegraded) (recall_calls pc db query calls last).
Proof.
  revert last. induction calls as [|[probe now] calls IH]; intros last; simpl.
  - split; [done | constructor].
  - pose proof (recall_logged pc db query None None probe now last) as H.
    destruct (recall pc db query None None probe now last) as [[r last'] logged].
    destruct H as [[-> ->] | (-> & -> & Hgap)]; simpl.
    + apply IH.
    + destruct (IH now) as [Hsp Hall]. split; [done | by constructor].
Qed.


(** ** Queries: [ORDER BY] and [LIMIT] *)

Lemma insert_sorted_perm {A} (before : A → A → bool) (x : A) (l : list A) :
  insert_sorted before x l ≡ₚ x :: l.
Proof.
  induction l as [|y l IH]; simpl; [done|].
  destruct (before x y); [done|]. rewrite IH. apply Permutation_swap.
Qed.

Lemma sort_by_perm {A} (before : A → A → bool) (l : list A) :
  sort_by before l ≡ₚ l.
Proof.
  induction l as [|x l IH]; simpl; [done|].
  rewrite insert_sorted_perm. by rewrite IH.
Qed.

Lemma elem_of_sort_by {A} (before : A → A → bool) (l : list A) (x : A) :
  x ∈ sort_by before l ↔ x ∈ l.
Proof. by rewrite sort_by_perm. Qed.

Lemma elem_of_limit {A} (n : Z) (l : list A) (x : A) :
  x ∈ limit n l → x ∈ l.
Proof.
  unfold limit. intros H. apply elem_of_take in H as (i & Hi & _).
  by eapply list_elem_of_lookup_2.
Qed.

Section Sorted.
Context {A : Type} (key : A → Z).

Let asc (x y : A) : bool := key x <=? key y.
Let R (x y : A) : Prop := key x ≤ key y.

Lemma insert_sorted_sorted (x : A) (l : list A) :
  StronglySorted R l → StronglySorted R (insert_sorted asc x l).
Proof.
  induction 1 as [|y l Hs IH Hy]; simpl.
  - repeat constructor.
  - unfold asc at 1. destruct (key x <=? key y) eqn:E.
    + apply Z.leb_le in E. constructor; [by constructor|].
      constructor; [done|]. eapply Forall_impl; [exact Hy|].
      intros z Hz. unfold R in *. lia.
    + apply Z.leb_gt in E. constructor; [done|].
      rewrite insert_sorted_perm. constructor; [|done]. unfold R. lia.
Qed.

Lemma sort_by_sorted (l : list A) : StronglySorted R (sort_by asc l).
Proof.
  induction l as [|x l IH]; simpl; [constructor|].
  by apply insert_sorted_sorted.
Qed.

(** A row the limit cut off is not older than any row it kept, and the
    limit is exhausted. *)
Lemma limit_sort_cut (n : Z) (l : list A) (x : A) :
  0 ≤ n → x ∈ l → x ∉ limit n (sort_by asc l) →
  Z.of_nat (length (limit n (sort_by asc l))) = n
  ∧ ∀ y, y ∈ limit n (sort_by asc l) → key y ≤ key x.
Proof.
  intros Hn Hin Hcut. unfold limit in *.
  pose proof (sort_by_sorted l) as Hs.
  rewrite <- (take_drop (Z.to_nat n) (sort_by asc l)) in Hs.
  assert (x ∈ drop (Z.to_nat n) (sort_by asc l)) as Hd.
  { apply (elem_of_sort_by asc) in Hin.
    rewrite <- (take_drop (Z.to_nat n) (sort_by asc l)) in Hin.
    apply elem_of_app in Hin as [?|?]; done. }
  split.
  - rewrite length_take.
    assert (Z.to_nat n < length (sort_by asc l))%nat; [|lia].
    destruct (decide (Z.to_nat n < length (sort_by asc l))%nat); [done|].
    rewrite drop_ge in Hd by lia. by apply elem_of_nil in Hd.
  - intros y Hy. by eapply (StronglySorted_app_1_elem_of R).
Qed.

End Sorted.

(** ** Retention *)

Lemma gc_where_spec (cutoff : Z) (protectedTags : list jsstring) (r : Item) :
  gc_where cutoff protectedTags r = true ↔ gc_eligible cutoff protectedTags r.
Proof.
  unfold gc_where, gc_eligible, protected_tag.
  rewrite andb_true_iff, Z.ltb_lt.
  destruct protectedTags as [|p ps].
  - split; [|by intros [? _]]. intros [H _]. split; [done|].
    intros (t & _ & Ht). by apply elem_of_nil in Ht.
  - destruct (tags r) as [t|].
    + rewrite bool_decide_eq_true. split.
      * intros [H Hn]. split; [done|]. intros (t' & [= <-] & Ht). done.
      * intros [H Hn]. split; [done|]. intros Ht. apply Hn. by exists t.
    + split; [|by intros [? _]]. intros [H _]. split; [done|].
      intros (t & Ht & _). discriminate.
Qed.

Lemma elem_of_gc_rows (db : Db) (cutoff : Z) (protectedTags : list jsstring)
    (lim : Z) (r : Item) :
  r ∈ gc_rows db cutoff protectedTags lim →
  r ∈ items db ∧ gc_eligible cutoff protectedTags r.
Proof.
  unfold gc_rows, order_by_created_at_asc. intros H.
  apply elem_of_limit, elem_of_sort_by, list_elem_of_filter in H as [Hw Hin].
  split; [done|]. apply gc_where_spec. by destruct (gc_where _ _ r).
Qed.

Lemma gc_rows_cut (db : Db) (cutoff : Z) (protectedTags : list jsstring)
    (lim : Z) (r : Item) :
  0 ≤ lim → r ∈ items db → gc_eligible cutoff protectedTags r →
  r ∉ gc_rows db cutoff protectedTags lim →
  Z.of_nat (length (gc_rows db cutoff protectedTags lim)) = lim
  ∧ ∀ r', r' ∈ gc_rows db cutoff protectedTags lim → created_at r' ≤ created_at r.
Proof.
  intros Hl Hin He Hcut. unfold gc_rows, order_by_created_at_asc in *.
  apply (limit_sort_cut created_at); [done | | done].
  apply list_elem_of_filter. split; [|done].
  apply gc_where_spec in He. by rewrite He.
Qed.

Lemma gc_lim_range (params : GcParams) : 1 ≤ gc_lim params ≤ 5000.
Proof. unfold gc_lim, clamp. lia. Qed.

Lemma NoDup_fmap_elem_inj {A B} (f : A → B) (l : list A) (x y : A) :
  NoDup (map f l) → x ∈ l → y ∈ l → f x = f y → x = y.
Proof.
  induction l as [|z l IH]; simpl; intros Hnd Hx Hy Hf.
  - by apply elem_of_nil in Hx.
  - apply NoDup_cons in Hnd as [Hz Hnd].
    apply elem_of_cons in Hx as [->|Hx]; apply elem_of_cons in Hy as [->|Hy].
    + done.
    + exfalso. apply Hz. rewrite Hf. by apply (list_elem_of_fmap_2 f).
    + exfalso. apply Hz. rewrite <- Hf. by apply (list_elem_of_fmap_2 f).
    + by apply IH.
Qed.

Lemma try_vacuum_id (faults : Faults) (db : Db) : try_vacuum faults db = db.
Proof. unfold try_vacuum, vacuum. by destruct (fault_vacuum faults). Qed.

Lemma filter_not_in_nil {A B} `{EqDecision B} (f : A → B) (l : list A) :
  filter (λ x, f x ∉ []) l = l.
Proof.
  induction l as [|x l IH]; [done|].
  rewrite filter_cons_True; [by rewrite IH|]. apply not_elem_of_nil.
Qed.

(** What the transaction body leaves when it returns. *)
Lemma gc_delete_returns (faults : Faults) (ids : list jsstring) (db db' : Db)
    (d : Deleted) :
  gc_delete faults ids db = Some (db', d) →
  items db' = filter (λ r, id r ∉ ids) (items db)
  ∧ embeddings db' = filter (λ e, item_id e ∉ ids) (embeddings db)
  ∧ facts db' = facts db.
Proof.
  unfold gc_delete. destruct ids as [|i ids].
  - intros [= <- <-]. by rewrite !filter_not_in_nil.
  - destruct (fault_delete_embeddings faults); [done|].
    destruct (fault_delete_items faults); [done|].
    by intros [= <- <-].
Qed.

(** The store after a live run is the store before it, or the store with
    every selected item and every embedding of a selected item gone. *)
Lemma memory_gc_live_post (pc : PluginConfig) (params : GcParams) (now : Z)
    (faults : Faults) (db : Db) (days : Z) :
  gc_dryRun params = Some false →
  gc_days (getCfg pc) params = Some days →
  let ids := map id (gc_rows db (gc_cutoff now days)
                       (gc_protectedTags (getCfg pc) params) (gc_lim params)) in
  let out := memory_gc pc params now faults db in
  (out = (db, None))
  ∨ (∃ d, out.2 = Some (GcLive (gc_cutoff now days) d)
          ∧ items out.1 = filter (λ r, id r ∉ ids) (items db)
          ∧ embeddings out.1 = filter (λ e, item_id e ∉ ids) (embeddings db)
          ∧ facts out.1 = facts db).
Proof.
  intros Hlive Hdays. unfold memory_gc. rewrite Hdays, Hlive. simpl.
  unfold transaction.
  destruct (gc_delete faults _ db) as [[db' d]|] eqn:E; [|by left].
  right. exists d. rewrite try_vacuum_id. simpl.
  apply gc_delete_returns in E. done.
Qed.

(** C2 (as amended): for every run of [memory_gc] with a retention
    horizon, every deletion candidate is a row created before
    [now - retentionDays * 86400000] whose tag is not one of the protected
    tags; the comparison of tags is exact and a row without tag is never
    protected.  An eligible row is left out only by the scan limit: then
    the limit is exhausted by rows that are not newer.  In live mode,
    with identifiers unique in the table, no row with a protected tag is
    deleted, whatever the retention horizon. *)
Theorem gc_candidates_protected (pc : PluginConfig) (params : GcParams)
    (now : Z) (faults : Faults) (db : Db) (days : Z) :
  gc_days (getCfg pc) params = Some days →
  let protectedTags := gc_protectedTags (getCfg pc) params in
  let rows := gc_rows db (gc_cutoff now days) protectedTags (gc_lim params) in
  (∀ r, r ∈ rows →
        r ∈ items db ∧ created_at r < now - days * 86400000
        ∧ ¬ protected_tag protectedTags r)
  ∧ (∀ r, r ∈ items db → created_at r < now - days * 86400000 →
          ¬ protected_tag protectedTags r → r ∉ rows →
          Z.of_nat (length rows) = gc_lim params
          ∧ ∀ r', r' ∈ rows → created_at r' ≤ created_at r)
  ∧ (∀ r, tags r = None → ¬ protected_tag protectedTags r)
  ∧ (∀ r t, tags r = Some t → (protected_tag protectedTags r ↔ t ∈ protectedTags))
  ∧ (gc_dryRun params = Some false → NoDup (map id (items db)) →
     ∀ r, r ∈ items db → protected_tag protectedTags r →
          r ∈ items (memory_gc pc params now faults db).1).
Proof.
  intros Hdays protectedTags rows.
  assert (gc_cutoff now days = now - days * 86400000) as Hcut
    by (unfold gc_cutoff; lia).
  split; [|split; [|split; [|split]]].
  - intros r Hr. apply elem_of_gc_rows in Hr as [Hin [Hold Hp]].
    rewrite Hcut in Hold. done.
  - intros r Hin Hold Hp Hout. apply gc_rows_cut; try done.
    + pose proof (gc_lim_range params). lia.
    + split; [by rewrite Hcut | done].
  - intros r Hnone (t & Ht & _). congruence.
  - intros r t Ht. unfold protected_tag. split.
    + intros (t' & Ht' & Hin). congruence.
    + intros Hin. by exists t.
  - intros Hlive Hnd r Hin Hp.
    destruct (memory_gc_live_post pc params now faults db days Hlive Hdays)
      as [-> | (d & _ & Hitems & _)]; [done|].
    rewrite Hitems. apply list_elem_of_filter. split; [|done].
    intros Hid. apply list_elem_of_fmap in Hid as (r' & Heq & Hr').
    apply elem_of_gc_rows in Hr' as [Hin' [_ Hnp]].
    assert (r = r') as <- by (by apply (NoDup_fmap_elem_inj id (items db))).
    done.
Qed.

(** C4: a live [memory_gc] run deletes the selected items and their
    embeddings in one transaction.  Whichever statement fails, the store
    afterwards never lacks an item whose embeddings remain, nor lacks an
    embedding whose item remains; when the run throws, the store is as it
    was.  A failing [VACUUM] changes neither the store nor the result. *)
Theorem gc_live_atomic (pc : PluginConfig) (days : option Z)
    (protectTags : option (list jsstring)) (lim : option Z) (now : Z)
    (faults : Faults) (db : Db) :
  let params := mkGcParams (Some false) days protectTags lim in
  let out := memory_gc pc params now faults db in
  (∀ r e, r ∈ items db → r ∉ items out.1 → e ∈ embeddings out.1 →
          item_id e ≠ id r)
  ∧ (∀ e r, e ∈ embeddings db → e ∉ embeddings out.1 → r ∈ items out.1 →
            id r ≠ item_id e)
  ∧ (out.2 = None → out.1 = db)
  ∧ (out.1 = db
     ∨ ∃ ids : list jsstring, items out.1 = filter (λ r, id r ∉ ids) (items db)
              ∧ embeddings out.1 = filter (λ e, item_id e ∉ ids) (embeddings db))
  ∧ memory_gc pc params now
      (mkFaults (fault_delete_embeddings faults) (fault_delete_items faults) true) db
    = memory_gc pc params now
        (mkFaults (fault_delete_embeddings faults) (fault_delete_items faults) false) db.
Proof.
  intros params out.
  destruct (gc_days (getCfg pc) params) as [d|] eqn:Hdays.
  - destruct (memory_gc_live_post pc params now faults db d eq_refl Hdays)
      as [Hout | (del & Hres & Hitems & Hemb & _)]; fold out in Hout || idtac.
    + rewrite Hout. simpl. split_and!; try done. by left.
    + fold out in Hres, Hitems, Hemb. split_and!.
      * intros r e Hr Hgone He Heq. rewrite Hemb in He. rewrite Hitems in Hgone.
        apply list_elem_of_filter in He as [He _]. apply Hgone.
        apply list_elem_of_filter. split; [|done]. by rewrite <- Heq.
      * intros e r He Hgone Hr Heq. rewrite Hitems in Hr. rewrite Hemb in Hgone.
        apply list_elem_of_filter in Hr as [Hr _]. apply Hgone.
        apply list_elem_of_filter. split; [|done]. by rewrite <- Heq.
      * intros Hnone. rewrite Hres in Hnone. discriminate.
      * right. eexists. by split.
      * done.
  - unfold out, memory_gc. rewrite Hdays. simpl. split_and!; try done. by left.
Qed.

(** ** Capture loop *)

Lemma addItem_items (now : Z) (db db' : Db) (it : NewItem) :
  addItem now db it = Some db' →
  items db' = items db ++ [stored_row now it].
Proof. unfold addItem. destruct (accepts db it); [|done]. by intros [= <-]. Qed.

(** The three ways one iteration ends. *)
Lemma capture_step_cases (cfg : Cfg) (ev : AgentEndEvent) (now : Z)
    (st : LoopState) (c : Capture) :
  capture_step cfg ev now st c = Returned st
  ∨ (∃ db',
       capture_step cfg ev now st c
       = Returned (mkLoopState db' ({[ capture_hash c ]} ∪ ls_recentHashes st)
                     (ls_stored st + 1) (S (ls_uuids st)))
       ∧ items db' = items (ls_db st)
                     ++ [stored_row now (capture_item cfg ev now (ls_uuids st) c)]
       ∧ shouldSkipCapture (text c) (captureMinChars cfg) = false
       ∧ (0 < captureDedupeWindowMs cfg → capture_hash c ∉ ls_recentHashes st))
  ∨ (capture_step cfg ev now st c = Threw (ls_db st)
     ∧ accepts (ls_db st) (capture_item cfg ev now (ls_uuids st) c) = false).
Proof.
  unfold capture_step, capture_hash.
  destruct (shouldSkipCapture _ _) eqn:Eskip; [by left|].
  destruct (0 <? captureDedupeWindowMs cfg) eqn:Ew; simpl.
  - case_bool_decide as Ein; [by left|].
    destruct (addItem _ _ _) as [db'|] eqn:Eadd.
    + right; left. exists db'. repeat split; try done.
      by apply addItem_items.
    + right; right. split; [done|]. unfold addItem in Eadd.
      by destruct (accepts _ _).
  - destruct (addItem _ _ _) as [db'|] eqn:Eadd.
    + right; left. exists db'. repeat split; try done.
      * by apply addItem_items.
      * apply Z.ltb_ge in Ew. lia.
    + right; right. split; [done|]. unfold addItem in Eadd.
      by destruct (accepts _ _).
Qed.

(** What a run of the loop inserts: one row per stored candidate, never
    more rows than candidates, none with a hash of the window and no two
    with the same hash when the window is on; the counter counts them. *)
Lemma capture_loop_inserts (cfg : Cfg) (ev : AgentEndEvent) (now : Z)
    (cs : list Capture) (st : LoopState) :
  ∃ ins : list NewItem,
    items (outcome_db (capture_loop cfg ev now cs st))
    = items (ls_db st) ++ map (stored_row now) ins
    ∧ (length ins ≤ length cs)%nat
    ∧ Forall (λ it, ∃ c u, c ∈ cs ∧ it = capture_item cfg ev now u c
                           ∧ shouldSkipCapture (text c) (captureMinChars cfg) = false) ins
    ∧ (0 < captureDedupeWindowMs cfg →
       Forall (λ it, item_hash it ∉ ls_recentHashes st) ins
       ∧ NoDup (map item_hash ins))
    ∧ (∀ st', capture_loop cfg ev now cs st = Returned st' →
              ls_stored st' = ls_stored st + Z.of_nat (length ins)).
Proof.
  revert st. induction cs as [|c cs IH]; intros st.
  - exists []. simpl. rewrite app_nil_r. split_and!; try done.
    + intros _. split; constructor.
    + intros st' [= <-]. lia.
  - simpl.
    destruct (capture_step_cases cfg ev now st c)
      as [-> | [(db' & -> & Hitems & Hskip & Hfresh) | [-> _]]].
    + destruct (IH st) as (ins & H1 & H2 & H3 & H4 & H5).
      exists ins. split_and!; try done.
      * lia.
      * eapply Forall_impl; [exact H3|]. intros it (c' & u & Hc' & Hit).
        exists c', u. split; [by right | done].
    + destruct (IH (mkLoopState db' ({[capture_hash c]} ∪ ls_recentHashes st)
                      (ls_stored st + 1) (S (ls_uuids st))))
        as (ins & H1 & H2 & H3 & H4 & H5). simpl in *.
      exists (capture_item cfg ev now (ls_uuids st) c :: ins).
      split_and!.
      * rewrite H1, Hitems. simpl. by rewrite <- app_assoc.
      * simpl. lia.
      * constructor.
        -- exists c, (ls_uuids st). split; [by left | done].
        -- eapply Forall_impl; [exact H3|]. intros it (c' & u & Hc' & Hit).
           exists c', u. split; [by right | done].
      * intros Hw. destruct (H4 Hw) as [Hall Hnd]. split.
        -- constructor; [by apply Hfresh|].
           eapply Forall_impl; [exact Hall|]. intros it Hit Hin.
           apply Hit, elem_of_union. by right.
        -- simpl. constructor; [|done].
           intros Hin. apply list_elem_of_fmap in Hin as (it & Heq & Hit).
           apply (proj1 (Forall_forall _ _) Hall) in Hit.
           apply Hit. rewrite <- Heq. unfold item_hash. simpl.
           apply elem_of_union. left. by apply elem_of_singleton.
      * intros st' Hst'. rewrite (H5 st' Hst'). simpl. lia.
    + exists []. simpl. rewrite app_nil_r. split_and!; try done.
      * lia.
      * intros _. split; constructor.
Qed.

(** With the window at zero and a store that takes every insert, the
    loop stores every candidate the noise heuristic lets through. *)
Lemma capture_loop_no_dedupe (cfg : Cfg) (ev : AgentEndEvent) (now : Z)
    (cs : list Capture) (st : LoopState) :
  captureDedupeWindowMs cfg = 0 →
  (∀ d it, accepts d it = true) →
  ∃ st' ins,
    capture_loop cfg ev now cs st = Returned st'
    ∧ items (ls_db st') = items (ls_db st) ++ map (stored_row now) ins
    ∧ map item_view ins = map (capture_view cfg) (non_noise cfg cs)
    ∧ ls_stored st' = ls_stored st + Z.of_nat (length (non_noise cfg cs)).
Proof.
  intros Hw Hacc. revert st. induction cs as [|c cs IH]; intros st.
  - exists st, []. simpl. rewrite app_nil_r. split_and!; try done. lia.
  - simpl. unfold non_noise. rewrite filter_cons. fold (non_noise cfg cs).
    destruct (capture_step_cases cfg ev now st c)
      as [Hstep | [(db' & Hstep & Hitems & Hskip & _) | [_ Hrej]]].
    + (* skipped: only the noise heuristic can skip *)
      assert (shouldSkipCapture (text c) (captureMinChars cfg) = true) as Hskip.
      { unfold capture_step in Hstep. rewrite Hw in Hstep. simpl in Hstep.
        destruct (shouldSkipCapture _ _); [done|].
        unfold addItem in Hstep. rewrite Hacc in Hstep.
        injection Hstep as Hst. apply (f_equal ls_stored) in Hst.
        simpl in Hst. lia. }
      rewrite Hstep. destruct (decide _) as [E|_]; [congruence|]. apply IH.
    + rewrite Hstep. destruct (decide _) as [_|E]; [|done].
      destruct (IH (mkLoopState db' ({[capture_hash c]} ∪ ls_recentHashes st)
                      (ls_stored st + 1) (S (ls_uuids st))))
        as (st' & ins & H1 & H2 & H3 & H4). simpl in *.
      exists st', (capture_item cfg ev now (ls_uuids st) c :: ins).
      split_and!.
      * done.
      * rewrite H2, Hitems. by rewrite <- app_assoc.
      * simpl. by rewrite H3.
      * rewrite H4. simpl. lia.
    + by rewrite Hacc in Hrej.
Qed.

Lemma facts_loop_items (cs : list Capture) (st : Db * Z) :
  items (facts_loop cs st).1 = items st.1.
Proof.
  unfold facts_loop. revert st. induction cs as [|c cs IH]; intros st; [done|].
  simpl. rewrite IH. generalize (extractFactsSimple (text c)). intros fs.
  revert st. induction fs as [|f fs IHf]; intros st; [done|].
  simpl. rewrite IHf. unfold fact_step, insertFact.
  destruct (f_confident f); simpl; [|done].
  by destruct (acceptsFact st.1 f).
Qed.

Lemma length_sanitizeCaptures (captures : list Capture) :
  (length (sanitizeCaptures captures) ≤ length captures)%nat.
Proof.
  unfold sanitizeCaptures.
  etrans; [apply length_filter|]. etrans; [apply length_filter|].
  by rewrite length_map.
Qed.

Lemma visited_take (cfg : Cfg) (cleaned : list Capture) :
  0 ≤ captureMaxPerTurn cfg →
  visited cfg cleaned = take (Z.to_nat (captureMaxPerTurn cfg)) cleaned.
Proof.
  intros Hm. unfold visited.
  destruct (Z.le_gt_cases (captureMaxPerTurn cfg) (Z.of_nat (length cleaned))).
  - by rewrite Z.min_l.
  - rewrite Z.min_r by lia. rewrite Nat2Z.id, firstn_all.
    by rewrite take_ge by lia.
Qed.

Lemma captureMaxPerTurn_range (pc : PluginConfig) :
  1 ≤ captureMaxPerTurn (getCfg pc) ≤ 50.
Proof. simpl. unfold clamp. lia. Qed.

(** The store the hook leaves holds the rows the capture loop leaves;
    nothing is captured from a turn that did not succeed. *)
Lemma agent_end_items (pc : PluginConfig) (ev : AgentEndEvent) (now : Z)
    (uuid0 : nat) (db : Db) :
  let cfg := getCfg pc in
  let cleaned := sanitizeCaptures (event_captures ev) in
  let st0 := mkLoopState db (dedupe_window cfg now db) 0 uuid0 in
  items (agent_end pc ev now uuid0 db).1
  = if ev_success ev
    then items (outcome_db (capture_loop cfg ev now (visited cfg cleaned) st0))
    else items db.
Proof.
  intros cfg cleaned st0. subst cfg cleaned st0.
  unfold agent_end, event_captures, dedupe_window.
  destruct (ev_success ev); cbn [negb]; [|done].
  assert (visited (getCfg pc) [] = []) as Hnil
    by (unfold visited; by rewrite take_nil).
  destruct (ev_messages ev) as [[|m msgs]|].
  - change (sanitizeCaptures (extract_captures [])) with (@nil Capture).
    by rewrite Hnil.
  - destruct (sanitizeCaptures (extract_captures (m :: msgs))) as [|c cl] eqn:Ecl;
      [by rewrite Hnil|].
    destruct (capture_loop _ _ _ _ _) as [st|db']; [|done].
    cbn [outcome_db].
    pose proof (facts_loop_items (visited (getCfg pc) (c :: cl)) (ls_db st, 0)) as Hf.
    by destruct (facts_loop _ _) as [db2 n].
  - change (sanitizeCaptures []) with (@nil Capture). by rewrite Hnil.
Qed.

Lemma capture_item_view (cfg : Cfg) (ev : AgentEndEvent) (now : Z) (u : nat)
    (c : Capture) :
  item_view (capture_item cfg ev now u c) = capture_view cfg c.
Proof. done. Qed.

(** The rows one run of the hook adds to the [items] table. *)
Lemma agent_end_inserts (pc : PluginConfig) (ev : AgentEndEvent) (now : Z)
    (uuid0 : nat) (db : Db) :
  let cfg := getCfg pc in
  let cands := visited cfg (sanitizeCaptures (event_captures ev)) in
  let out := agent_end pc ev now uuid0 db in
  ∃ ins : list NewItem,
    items out.1 = items db ++ map (stored_row now) ins
    ∧ (length ins ≤ length cands)%nat
    ∧ (∀ it, it ∈ ins → ∃ c, c ∈ cands ∧ item_view it = capture_view cfg c
                             ∧ shouldSkipCapture (text c) (captureMinChars cfg) = false)
    ∧ (0 < captureDedupeWindowMs cfg →
       (∀ it, it ∈ ins → item_hash it ∉ dedupe_window cfg now db)
       ∧ NoDup (map item_hash ins))
    ∧ (∀ n, InfoAutoCaptured n ∈ out.2 → n = Z.of_nat (length ins)).
Proof.
  intros cfg cands out.
  pose proof (agent_end_items pc ev now uuid0 db) as Hitems. cbv zeta in Hitems.
  fold cfg cands out in Hitems.
  destruct (ev_success ev) eqn:Hok.
  - destruct (capture_loop_inserts cfg ev now cands
                (mkLoopState db (dedupe_window cfg now db) 0 uuid0))
      as (ins & H1 & H2 & H3 & H4 & H5). simpl in H1, H4.
    exists ins. split_and!.
    + by rewrite Hitems, H1.
    + done.
    + intros it Hit. apply (proj1 (Forall_forall _ _) H3) in Hit
        as (c & u & Hc & -> & Hskip).
      exists c. by rewrite capture_item_view.
    + intros Hw. destruct (H4 Hw) as [Hall Hnd]. split; [|done].
      intros it Hit. by apply (proj1 (Forall_forall _ _) Hall).
    + intros n Hn. subst out. unfold agent_end in Hn. rewrite Hok in Hn.
      cbn [negb] in Hn. unfold event_captures in cands.
      destruct (ev_messages ev) as [[|m msgs]|].
      * by apply elem_of_nil in Hn.
      * fold cfg in Hn. subst cands.
        destruct (sanitizeCaptures (extract_captures (m :: msgs))) as [|c cl];
          [by apply elem_of_nil in Hn|].
        fold (dedupe_window cfg now db) in Hn.
        destruct (capture_loop cfg ev now _ _) as [st|db'] eqn:Eloop.
        -- specialize (H5 st eq_refl). simpl in H5.
           destruct (facts_loop _ _) as [db2 k]. simpl in Hn.
           apply elem_of_app in Hn as [Hn|Hn].
           ++ destruct (0 <? ls_stored st); [|by apply elem_of_nil in Hn].
              apply list_elem_of_singleton in Hn. injection Hn as ->. lia.
           ++ destruct (0 <? k); [|by apply elem_of_nil in Hn].
              by apply list_elem_of_singleton in Hn.
        -- simpl in Hn. by apply list_elem_of_singleton in Hn.
      * simpl in Hn. by apply list_elem_of_singleton in Hn.
  - exists []. simpl. rewrite app_nil_r. split_and!.
    + done.
    + lia.
    + intros it Hit. by apply elem_of_nil in Hit.
    + intros _. split; [|constructor]. intros it Hit. by apply elem_of_nil in Hit.
    + intros n Hn. subst out. unfold agent_end in Hn. rewrite Hok in Hn.
      by apply elem_of_nil in Hn.
Qed.

(** C1: with a positive dedupe window, no item the hook stores has a
    hash that the window held at the start of the turn (the hashes the
    store query found), and no two items stored in the turn have the same
    hash, whatever the order of the candidates: a candidate whose hash is
    already in the window is never stored.  With the window at zero and a
    store that takes every insert, every candidate the noise heuristic
    lets through is stored, repeated hashes included. *)
Theorem capture_dedupe (pc : PluginConfig) (ev : AgentEndEvent) (now : Z)
    (uuid0 : nat) (db : Db) :
  let cfg := getCfg pc in
  let cands := visited cfg (sanitizeCaptures (event_captures ev)) in
  let db' := (agent_end pc ev now uuid0 db).1 in
  (0 < captureDedupeWindowMs cfg →
   ∃ ins : list NewItem,
     items db' = items db ++ map (stored_row now) ins
     ∧ (∀ it, it ∈ ins → ∃ c, c ∈ cands ∧ item_view it = capture_view cfg c)
     ∧ (∀ it, it ∈ ins → item_hash it ∉ dedupe_window cfg now db)
     ∧ NoDup (map item_hash ins))
  ∧ (captureDedupeWindowMs cfg = 0 → (∀ d it, accepts d it = true) →
     ev_success ev = true →
     ∃ ins : list NewItem,
       items db' = items db ++ map (stored_row now) ins
       ∧ map item_view ins = map (capture_view cfg) (non_noise cfg cands)).
Proof.
  intros cfg cands db'. split.
  - intros Hw.
    destruct (agent_end_inserts pc ev now uuid0 db)
      as (ins & H1 & _ & H3 & H4 & _).
    destruct (H4 Hw) as [Hfresh Hnd].
    exists ins. split_and!; try done.
    intros it Hit. destruct (H3 it Hit) as (c & Hc & Hv & _). by exists c.
  - intros Hw Hacc Hok.
    destruct (capture_loop_no_dedupe cfg ev now cands
                (mkLoopState db (dedupe_window cfg now db) 0 uuid0) Hw Hacc)
      as (st' & ins & Hloop & Hitems & Hview & _).
    exists ins. split; [|done].
    pose proof (agent_end_items pc ev now uuid0 db) as Hdb. cbv zeta in Hdb.
    rewrite Hok in Hdb. fold cfg cands in Hdb. rewrite Hloop in Hdb.
    subst db'. by rewrite Hdb.
Qed.

(** The text of every item the hook stores is the candidate's text when
    that is within [captureMaxChars], and otherwise its first
    [captureMaxChars] code units followed by the three of [clip_marker]. *)
Lemma stored_text_length (pc : PluginConfig) (ev : AgentEndEvent) (now : Z)
    (uuid0 : nat) (db : Db) :
  let cfg := getCfg pc in
  ∃ ins : list NewItem,
    items (agent_end pc ev now uuid0 db).1
    = items db ++ map (stored_row now) ins
    ∧ ∀ it, it ∈ ins →
        ∃ c, c ∈ sanitizeCaptures (event_captures ev)
             ∧ n_text it = clip (captureMaxChars cfg) (text c)
             ∧ len (n_text it)
               = if captureMaxChars cfg <? len (text c)
                 then captureMaxChars cfg + 3 else len (text c).
Proof.
  intros cfg.
  destruct (agent_end_inserts pc ev now uuid0 db) as (ins & H1 & _ & H3 & _).
  exists ins. split; [done|]. intros it Hit.
  destruct (H3 it Hit) as (c & Hc & Hv & _). exists c.
  assert (n_text it = clip (captureMaxChars cfg) (text c)) as Htxt.
  { unfold item_view, capture_view in Hv. fold cfg in Hv. congruence. }
  split_and!.
  - unfold visited in Hc. apply elem_of_take in Hc as (i & Hi & _).
    by eapply list_elem_of_lookup_2.
  - done.
  - rewrite Htxt. apply clip_length. subst cfg. simpl. unfold clamp. lia.
Qed.

(** An insert that fails ends the loop: the candidates after it are not
    visited and the counter is lost with the loop state. *)
Lemma capture_loop_failed_insert (cfg : Cfg) (ev : AgentEndEvent) (now : Z)
    (c : Capture) (rest : list Capture) (st : LoopState) :
  shouldSkipCapture (text c) (captureMinChars cfg) = false →
  capture_hash c ∉ ls_recentHashes st →
  accepts (ls_db st) (capture_item cfg ev now (ls_uuids st) c) = false →
  capture_loop cfg ev now (c :: rest) st = Threw (ls_db st).
Proof.
  intros Hskip Hfresh Hrej. simpl. unfold capture_step, addItem.
  rewrite Hskip. fold (capture_hash c).
  rewrite bool_decide_eq_false_2 by done. rewrite andb_false_r.
  by rewrite Hrej.
Qed.

(** The budget meters the lines only: the markers, the heading and the
    line feeds of the block come on top of it. *)
Lemma len_join_nl (lines : list jsstring) :
  len (join nl lines) = sum_len lines + Z.max 0 (Z.of_nat (length lines) - 1).
Proof.
  induction lines as [|x [|y lines] IH]; [done | |].
  - simpl. unfold len. simpl. lia.
  - change (join nl (x :: y :: lines)) with (x ++ nl ++ join nl (y :: lines)).
    rewrite !len_app, IH. simpl. unfold len at 2. simpl. lia.
Qed.

Lemma short_term_block_len (lines : list jsstring) :
  lines ≠ [] →
  len (short_term_block lines)
  = 73 + sum_len lines + (Z.of_nat (length lines) - 1).
Proof.
  intros Hne. destruct lines as [|x lines]; [done|].
  unfold short_term_block. rewrite !len_app, len_join_nl.
  change (len short_term_memory_open) with 19.
  change (len short_term_memory_close) with 20.
  change (len nl) with 1.
  change (len (lit "Recent messages (same session):")) with 31.
  simpl length. lia.
Qed.

(** C7 (as amended): for every list of fetched rows (newest first, as
    the session query returns them) the short-term block carries at most
    15 message lines and the characters of these lines, the quantity the
    budget meters, never exceed 2000.  The lines are whole rendered lines
    of the rows taken oldest first, in order and without gaps; the block
    stops at a line boundary, and when it stops before the rows end, the
    message cap or the budget is reached or the next line would overflow
    the budget.  The markers, the heading and the line feeds are added
    outside the budget: a block that is not empty has 73 code units more
    than its lines, and one more for every line after the first, at most
    2087 in all. *)
Theorem short_term_block_bounded (rows : list Item) :
  let lines := short_term_lines rows in
  let block := short_term_block lines in
  Z.of_nat (length lines) ≤ 15
  ∧ sum_len lines ≤ 2000
  ∧ (∃ rest,
       rendered (reverse rows) = lines ++ rest
       ∧ match rest with
         | [] => True
         | next :: _ =>
             Z.of_nat (length lines) = 15 ∨ sum_len lines = 2000
             ∨ 2000 < sum_len lines + len next
         end)
  ∧ (lines = [] → block = [])
  ∧ (lines ≠ [] →
     block = short_term_memory_open ++ nl
             ++ lit "Recent messages (same session):" ++ nl
             ++ join nl lines ++ nl ++ short_term_memory_close
     ∧ len block = 73 + sum_len lines + (Z.of_nat (length lines) - 1))
  ∧ len block ≤ 2087.
Proof.
  intros lines block.
  assert (Z.of_nat (length lines) ≤ 15 ∧ sum_len lines ≤ 2000
          ∧ ∃ rest,
              rendered (reverse rows) = lines ++ rest
              ∧ match rest with
                | [] => True
                | next :: _ =>
                    Z.of_nat (length lines) = 15 ∨ sum_len lines = 2000
                    ∨ 2000 < sum_len lines + len next
                end) as (Hn & Hs & Hrest).
  { subst lines. unfold short_term_lines.
    destruct (short_term_loop_inv (reverse rows) (mkShortTerm 0 0 []))
      as (H1 & H2 & H3 & H4 & added & rest & Hl & Hr & Hstop);
      try done.
    simpl in Hl. unfold maxMsgs, maxChars in *.
    rewrite H1 in H3, Hstop. rewrite H2 in H4, Hstop.
    split_and!; [done|done|].
    exists rest. rewrite Hl in Hstop |- *. by split. }
  split_and!; [done|done|done| | |].
  - subst block. by intros ->.
  - intros Hne. split; [subst block; by destruct lines|].
    by apply short_term_block_len.
  - destruct (decide (lines = [])) as [E|Hne].
    + subst block. rewrite E. done.
    + subst block. rewrite short_term_block_len by done. lia.
Qed.

(** ** Recall assembler *)

(** C6 (as amended): when the trimmed prompt is shorter than 5
    characters the hook returns nothing at all: the guard comes before
    both blocks, so neither the short-term block nor the long-term block
    is assembled, whatever the session identifier and the stored rows;
    no search is run, the timestamp of the degradation guard is
    untouched and nothing is logged. *)
Theorem short_prompt_returns_nothing (pc : PluginConfig) (ev : StartEvent)
    (db : Db) (probe : Probe) (now last : Z) :
  len (trim (default [] (se_prompt ev))) < 5 →
  before_agent_start pc ev db probe now last = (None, last, []).
Proof.
  intros Hshort. unfold before_agent_start.
  apply Z.ltb_lt in Hshort. by rewrite Hshort.
Qed.

(** ** Configuration bounds *)

Lemma clamp_range (lo hi x : Z) : lo ≤ hi → lo ≤ clamp lo hi x ≤ hi.
Proof. unfold clamp. lia. Qed.

Lemma clamp_in_range (lo hi x : Z) : lo ≤ x ≤ hi → clamp lo hi x = x.
Proof. unfold clamp. lia. Qed.

(** For a host that configures integers every numeric setting [getCfg]
    returns lies within its bounds; a retention horizon is present
    exactly when one is configured; and a configured capture setting that
    is within its bounds is used as it is. *)
Lemma getCfg_ranges (pc : PluginConfig) :
  let cfg := getCfg pc in
  (1 ≤ topK cfg ≤ 20 ∧ 10 ≤ candidates cfg ≤ 500
   ∧ 250 ≤ ollamaTimeoutMs cfg ≤ 60000
   ∧ 1 ≤ captureMaxPerTurn cfg ≤ 50 ∧ 0 ≤ captureMinChars cfg ≤ 500
   ∧ 200 ≤ captureMaxChars cfg ≤ 20000
   ∧ 0 ≤ captureDedupeWindowMs cfg ≤ 2592000000
   ∧ 10 ≤ captureDedupeMaxCheck cfg ≤ 2000)
  ∧ (∀ d, retentionDays cfg = Some d → 1 ≤ d ≤ 3650)
  ∧ (retentionDays cfg = None ↔ pc_retentionDays pc = None)
  ∧ (∀ v, pc_captureMaxPerTurn pc = Some v → 1 ≤ v ≤ 50 →
          captureMaxPerTurn cfg = v)
  ∧ (∀ v, pc_captureMaxChars pc = Some v → 200 ≤ v ≤ 20000 →
          captureMaxChars cfg = v)
  ∧ (∀ v, pc_captureDedupeWindowMs pc = Some v → 0 ≤ v ≤ 2592000000 →
          captureDedupeWindowMs cfg = v).
Proof.
  simpl. split_and!; try (apply clamp_range; lia).
  - intros d Hd. destruct (pc_retentionDays pc) as [x|]; [|done].
    injection Hd as <-. apply clamp_range. lia.
  - by destruct (pc_retentionDays pc).
  - intros v -> Hv. by apply clamp_in_range.
  - intros v -> Hv. by apply clamp_in_range.
  - intros v -> Hv. by apply clamp_in_range.
Qed.

(** ** Trimming *)

Lemma trimStart_no_lead (s : jsstring) : no_lead (trimStart s).
Proof.
  induction s as [|c s IH]; simpl; [done|].
  destruct (is_ws c) eqn:E; [done | by simpl].
Qed.

Lemma trimStart_fixed (s : jsstring) : no_lead s → trimStart s = s.
Proof. destruct s as [|c s]; simpl; [done|]. by intros ->. Qed.

(** [trimEnd] cuts a run of white space off the end. *)
Lemma trimEnd_split (s : jsstring) :
  ∃ suf, s = trimEnd s ++ suf ∧ all_ws suf.
Proof.
  unfold trimEnd. destruct (trimStart_split (reverse s)) as (pre & Hs & Hws).
  exists (reverse pre). split.
  - apply (f_equal reverse) in Hs. rewrite reverse_involutive in Hs.
    by rewrite reverse_app in Hs.
  - unfold all_ws. by rewrite Forall_reverse.
Qed.

Lemma trimEnd_no_lead (s : jsstring) : no_lead s → no_lead (trimEnd s).
Proof.
  intros Hs. destruct (trimEnd_split s) as (suf & Heq & _).
  destruct (trimEnd s) as [|c t]; [done|].
  rewrite Heq in Hs. by simpl in *.
Qed.

Lemma trim_trimmed (s : jsstring) : trimmed (trim s).
Proof.
  unfold trimmed, trim. split.
  - apply trimEnd_no_lead, trimStart_no_lead.
  - unfold trimEnd. rewrite reverse_involutive. apply trimStart_no_lead.
Qed.

Lemma trim_fixed (s : jsstring) : trimmed s → trim s = s.
Proof.
  intros [H1 H2]. unfold trim, trimEnd.
  rewrite (trimStart_fixed s H1), (trimStart_fixed _ H2).
  apply reverse_involutive.
Qed.

Lemma trim_idemp (s : jsstring) : trim (trim s) = trim s.
Proof. apply trim_fixed, trim_trimmed. Qed.

Lemma filter_all {A} (P : A → Prop) `{∀ x, Decision (P x)} (l : list A) :
  Forall P l → filter P l = l.
Proof.
  induction 1 as [|x l Hx _ IH]; [done|].
  by rewrite filter_cons_True, IH.
Qed.

(** X2: the sanitizer is idempotent, and every text it returns is
    non-empty and free of white space at both ends. *)
Theorem sanitizeCaptures_idempotent (captures : list Capture) :
  sanitizeCaptures (sanitizeCaptures captures) = sanitizeCaptures captures
  ∧ ∀ c, c ∈ sanitizeCaptures captures → text c ≠ [] ∧ trimmed (text c).
Proof.
  assert (∀ c, c ∈ sanitizeCaptures captures →
               text c ≠ [] ∧ trimmed (text c)
               ∧ includes relevant_memories_open (text c) = false) as Hout.
  { intros c Hc. apply sanitizeCaptures_elem_of in Hc as (Hin & Hne & Hno).
    apply list_elem_of_fmap in Hin as (c0 & -> & _).
    split_and!; [done | apply trim_trimmed |].
    destruct (includes _ _) eqn:E; [|done]. by apply includes_spec in E. }
  split; [|intros c Hc; destruct (Hout c Hc) as (? & ? & _); done].
  set (out := sanitizeCaptures captures) in *.
  unfold sanitizeCaptures at 1.
  assert (map trim_capture out = out) as ->.
  { rewrite <- (map_id out) at 2. apply map_ext_in. intros c Hc.
    apply list_elem_of_In in Hc. destruct (Hout c Hc) as (_ & Ht & _).
    destruct c as [r t]. unfold trim_capture. simpl in *.
    by rewrite trim_fixed. }
  rewrite (filter_all (λ c, 0 <? len (text c))).
  - apply filter_all. apply Forall_forall. intros c Hc.
    destruct (Hout c Hc) as (_ & _ & ->). done.
  - apply Forall_forall. intros c Hc. destruct (Hout c Hc) as (Hne & _).
    apply len_pos_iff in Hne. by rewrite Hne.
Qed.

(** ** Normalizer *)

Lemma contains_cons (p s : jsstring) (c : N) : contains p s → contains p (c :: s).
Proof. intros (pre & post & ->). by exists (c :: pre), post. Qed.

(** Without an opening marker nothing is stripped. *)
Lemma strip_relevant_no_marker (s : jsstring) :
  ¬ contains relevant_memories_open s → strip_relevant s = s.
Proof.
  unfold strip_relevant. induction s as [|c s IH]; intros Hno; [done|].
  cbn [strip_relevant_from].
  destruct (startsWith relevant_memories_open (c :: s)) eqn:E.
  - exfalso. apply Hno. apply startsWith_spec in E as [post E].
    exists [], post. by rewrite E.
  - f_equal. apply IH. intros H. by apply Hno, contains_cons.
Qed.

(** X3: for every candidate the sanitizer lets through, the
    marker-stripping step of the normalizer changes nothing: the dedupe
    key is the lower-cased, trimmed, white-space-collapsed text itself. *)
Theorem normalize_after_sanitize (captures : list Capture) (c : Capture) :
  c ∈ sanitizeCaptures captures →
  strip_relevant (text c) = text c
  ∧ normalizeForDedupe (text c) = toLowerCase (trim (collapse_ws (text c))).
Proof.
  intros Hc. apply sanitizeCaptures_elem_of in Hc as (_ & _ & Hno).
  unfold normalizeForDedupe. by rewrite strip_relevant_no_marker.
Qed.

(** A run of white space collapses to one space, or to nothing when a
    run is already open. *)
Lemma collapse_ws_run (f : bool) (w b : jsstring) :
  all_ws w → w ≠ [] →
  collapse_ws_from f (w ++ b)
  = (if f then [] else [32%N]) ++ collapse_ws_from true b.
Proof.
  intros Hw. revert f. induction Hw as [|c w Hc Hw IH]; intros f Hne; [done|].
  simpl. rewrite Hc. destruct w as [|c' w].
  - by destruct f.
  - rewrite (IH true) by done. by destruct f.
Qed.

Lemma collapse_ws_same_run (f : bool) (a w1 w2 b : jsstring) :
  all_ws w1 → w1 ≠ [] → all_ws w2 → w2 ≠ [] →
  collapse_ws_from f (a ++ w1 ++ b) = collapse_ws_from f (a ++ w2 ++ b).
Proof.
  intros H1 N1 H2 N2. revert f. induction a as [|c a IH]; intros f.
  - simpl. by rewrite !collapse_ws_run.
  - simpl. destruct (is_ws c); [destruct f|]; by rewrite IH.
Qed.

(** X4: two marker-free texts that differ only in the white space of one
    run (its length, or which white-space characters it is made of) have
    the same dedupe key, hence the same hash. *)
Theorem normalize_ignores_whitespace_run (a w1 w2 b : jsstring) :
  all_ws w1 → w1 ≠ [] → all_ws w2 → w2 ≠ [] →
  ¬ contains relevant_memories_open (a ++ w1 ++ b) →
  ¬ contains relevant_memories_open (a ++ w2 ++ b) →
  normalizeForDedupe (a ++ w1 ++ b) = normalizeForDedupe (a ++ w2 ++ b)
  ∧ textHash (normalizeForDedupe (a ++ w1 ++ b))
    = textHash (normalizeForDedupe (a ++ w2 ++ b)).
Proof.
  intros H1 N1 H2 N2 M1 M2.
  assert (normalizeForDedupe (a ++ w1 ++ b) = normalizeForDedupe (a ++ w2 ++ b))
    as Heq.
  { unfold normalizeForDedupe. rewrite !strip_relevant_no_marker by done.
    unfold collapse_ws. by rewrite (collapse_ws_same_run false a w1 w2 b). }
  split; [done | by rewrite Heq].
Qed.

(** A pattern cannot begin inside [x] and run over a following unit
    [c0] that it does not contain. *)
Lemma startsWith_before (c0 : N) (p x z : jsstring) :
  c0 ∉ p → startsWith p (x ++ c0 :: z) = true → startsWith p x = true.
Proof.
  revert x. induction p as [|d p IH]; intros x Hc H; [done|].
  destruct x as [|e x]; simpl in *.
  - apply andb_true_iff in H as [H _]. apply N.eqb_eq in H. subst d.
    exfalso. apply Hc. by left.
  - apply andb_true_iff in H as [-> H]. simpl. apply IH; [|done].
    intros Hin. apply Hc. by right.
Qed.

(** A tag whose first unit does not recur in it cannot begin inside [x]
    and run into a copy of its first unit. *)
Lemma startsWith_tag_before (c0 : N) (tl x z : jsstring) :
  c0 ∉ tl → x ≠ [] →
  startsWith (c0 :: tl) (x ++ c0 :: z) = true →
  startsWith (c0 :: tl) x = true.
Proof.
  intros Hc Hx H. destruct x as [|e x]; [done|]. simpl in *.
  apply andb_true_iff in H as [-> H]. simpl.
  by apply (startsWith_before c0 tl x z).
Qed.

Lemma relevant_memories_open_tag :
  ∃ tl, relevant_memories_open = (60%N :: tl) ∧ (60%N ∉ tl) ∧ (32%N ∉ 60%N :: tl).
Proof. eexists. split; [reflexivity|]. split; by_decide. Qed.

Lemma relevant_memories_close_tag :
  ∃ tl, relevant_memories_close = (60%N :: tl) ∧ (60%N ∉ tl).
Proof. eexists. split; [reflexivity|]. by_decide. Qed.

Lemma find_end_unfold (p s : jsstring) :
  find_end p s
  = if startsWith p s then Some (length p)
    else match s with
         | [] => None
         | _ :: s' => S <$> find_end p s'
         end.
Proof. by destruct s. Qed.

Lemma strip_relevant_unfold (c : N) (r : jsstring) :
  strip_relevant_from 0 (c :: r)
  = if startsWith relevant_memories_open (c :: r) then
      match find_end relevant_memories_close
              (drop (length relevant_memories_open) (c :: r)) with
      | Some n =>
          32%N :: strip_relevant_from (length relevant_memories_open + n - 1) r
      | None => c :: strip_relevant_from 0 r
      end
    else c :: strip_relevant_from 0 r.
Proof. done. Qed.

(** The scan passes over a marker-free stretch up to a unit [c0] with
    which no marker can be completed from inside the stretch. *)
Lemma strip_relevant_scan (a z : jsstring) (c0 : N) :
  ¬ contains relevant_memories_open a →
  (∀ x, x ≠ [] → startsWith relevant_memories_open (x ++ c0 :: z) = true →
        startsWith relevant_memories_open x = true) →
  strip_relevant_from 0 (a ++ c0 :: z) = a ++ strip_relevant_from 0 (c0 :: z).
Proof.
  intros Hno Hov. induction a as [|e a IH]; [done|].
  change ((e :: a) ++ c0 :: z) with (e :: (a ++ c0 :: z)).
  rewrite strip_relevant_unfold.
  destruct (startsWith relevant_memories_open (e :: a ++ c0 :: z)) eqn:E.
  - exfalso. apply Hno. apply (Hov (e :: a)) in E; [|done].
    apply startsWith_spec in E as [post E]. exists [], post. by rewrite E.
  - simpl. f_equal. apply IH. intros H. by apply Hno, contains_cons.
Qed.

Lemma strip_relevant_skip (x y : jsstring) :
  strip_relevant_from (length x) (x ++ y) = strip_relevant_from 0 y.
Proof. induction x as [|c x IH]; [done|]. simpl. by rewrite IH. Qed.

(** The first closing marker after a body that holds none. *)
Lemma find_end_after_body (body b : jsstring) :
  ¬ contains relevant_memories_close body →
  find_end relevant_memories_close (body ++ relevant_memories_close ++ b)
  = Some (length body + length relevant_memories_close)%nat.
Proof.
  destruct relevant_memories_close_tag as (tl & Htag & Hc).
  intros Hno. induction body as [|e body IH].
  - rewrite app_nil_l, find_end_unfold.
    assert (startsWith relevant_memories_close (relevant_memories_close ++ b) = true)
      as -> by (apply startsWith_spec; by exists b).
    done.
  - change ((e :: body) ++ relevant_memories_close ++ b)
      with (e :: (body ++ relevant_memories_close ++ b)).
    rewrite find_end_unfold.
    destruct (startsWith relevant_memories_close
                (e :: body ++ relevant_memories_close ++ b)) eqn:E.
    + exfalso. apply Hno. rewrite Htag in E.
      change (e :: body ++ (60%N :: tl) ++ b)
        with ((e :: body) ++ 60%N :: (tl ++ b)) in E.
      apply startsWith_tag_before in E; [|done|done].
      rewrite <- Htag in E. apply startsWith_spec in E as [post E].
      exists [], post. by rewrite E.
    + rewrite IH; [done|]. intros H. by apply Hno, contains_cons.
Qed.

(** X5: a complete injected block, from the opening marker to the first
    closing marker, is replaced by one space: a text that carries such a
    block after a marker-free stretch is stripped, and normalized, like
    the text with a single space in place of the block. *)
Theorem strip_relevant_block (a body b : jsstring) :
  ¬ contains relevant_memories_open a →
  ¬ contains relevant_memories_close body →
  strip_relevant (a ++ relevant_memories_open ++ body ++ relevant_memories_close ++ b)
  = a ++ [32%N] ++ strip_relevant b
  ∧ strip_relevant (a ++ [32%N] ++ b) = a ++ [32%N] ++ strip_relevant b
  ∧ normalizeForDedupe
      (a ++ relevant_memories_open ++ body ++ relevant_memories_close ++ b)
    = normalizeForDedupe (a ++ [32%N] ++ b).
Proof.
  intros Ha Hbody.
  destruct relevant_memories_open_tag as (tl & Htag & Hc & Hsp).
  assert (strip_relevant
            (a ++ relevant_memories_open ++ body ++ relevant_memories_close ++ b)
          = a ++ [32%N] ++ strip_relevant b) as H1.
  { unfold strip_relevant. rewrite Htag.
    change (a ++ (60%N :: tl) ++ body ++ relevant_memories_close ++ b)
      with (a ++ 60%N :: (tl ++ body ++ relevant_memories_close ++ b)).
    rewrite strip_relevant_scan; [|done|].
    - f_equal.
      change (60%N :: tl ++ body ++ relevant_memories_close ++ b)
        with ((60%N :: tl) ++ body ++ relevant_memories_close ++ b).
      rewrite <- Htag.
      assert (startsWith relevant_memories_open
                (relevant_memories_open ++ body ++ relevant_memories_close ++ b)
              = true) as Hst by (apply startsWith_spec; by eexists).
      assert (relevant_memories_open ++ body ++ relevant_memories_close ++ b
              = 60%N :: (tl ++ body ++ relevant_memories_close) ++ b) as Es
        by (by rewrite Htag, <- !app_assoc).
      rewrite Es in Hst |- *. rewrite strip_relevant_unfold, Hst. rewrite <- Es.
      rewrite drop_app_length, find_end_after_body by done.
      simpl app. f_equal.
      rewrite <- (strip_relevant_skip (tl ++ body ++ relevant_memories_close) b).
      f_equal. rewrite Htag, !length_app. simpl. lia.
    - intros x Hx E. rewrite Htag in E |- *.
      by apply (startsWith_tag_before 60%N tl x
                  (tl ++ body ++ relevant_memories_close ++ b)). }
  assert (strip_relevant (a ++ [32%N] ++ b) = a ++ [32%N] ++ strip_relevant b) as H2.
  { unfold strip_relevant. simpl app. rewrite strip_relevant_scan; [|done|].
    - by f_equal.
    - intros x _ E. apply (startsWith_before 32%N _ x b); [|done].
      by rewrite Htag. }
  split; [done|]. split; [done|].
  unfold normalizeForDedupe. by rewrite H1, H2.
Qed.

(** ** Dedupe window *)

Lemma add_recent_hash_row_hash (acc : gset jsstring) (r : Item) :
  add_recent_hash acc r
  = match row_hash r with
    | Some h => {[ h ]} ∪ acc
    | None => acc
    end.
Proof.
  unfold add_recent_hash, row_hash. destruct (meta r) as [m|]; [|done].
  case_bool_decide; [done|]. by destruct (match_h m).
Qed.

Lemma elem_of_recent_fold (rows : list Item) (acc : gset jsstring) (h : jsstring) :
  h ∈ foldl add_recent_hash acc rows
  ↔ h ∈ acc ∨ ∃ r, r ∈ rows ∧ row_hash r = Some h.
Proof.
  revert acc. induction rows as [|r rows IH]; intros acc; simpl.
  - split; [by left|]. intros [?|(r & Hr & _)]; [done|]. by apply elem_of_nil in Hr.
  - rewrite IH, add_recent_hash_row_hash. split.
    + intros [Hacc | (r' & Hr' & Hh)].
      * destruct (row_hash r) as [h'|] eqn:E; [|by left].
        apply elem_of_union in Hacc as [Hs|?]; [|by left].
        apply elem_of_singleton in Hs as ->. right. exists r. split; [by left|done].
      * right. exists r'. split; [by right|done].
    + intros [Hacc | (r' & Hr' & Hh)].
      * left. destruct (row_hash r); [|done]. apply elem_of_union. by right.
      * apply elem_of_cons in Hr' as [->|Hr'].
        -- left. rewrite Hh. apply elem_of_union. left. by apply elem_of_singleton.
        -- right. by exists r'.
Qed.

Lemma size_recent_fold (rows : list Item) (acc : gset jsstring) :
  (size (foldl add_recent_hash acc rows) ≤ size acc + length rows)%nat.
Proof.
  revert acc. induction rows as [|r rows IH]; intros acc; simpl; [lia|].
  etrans; [apply IH|]. rewrite add_recent_hash_row_hash.
  destruct (row_hash r) as [h|]; [|lia].
  rewrite size_union_alt, size_singleton.
  assert (size (acc ∖ {[h]}) ≤ size acc)%nat; [|lia].
  apply subseteq_size. apply subseteq_difference_l. done.
Qed.

Lemma match_h_here_sound (s g : jsstring) :
  match_h_here s = Some g → length g = 40%nat ∧ forallb is_hex g = true.
Proof.
  unfold match_h_here. intros H.
  repeat match type of H with
         | match ?x with _ => _ end = _ => destruct x eqn:?; try discriminate
         | (if ?x then _ else _) = _ => destruct x eqn:?; try discriminate
         end.
  injection H as <-.
  match goal with
  | E : _ && _ && _ = true |- _ =>
      apply andb_true_iff in E as [E _]; apply andb_true_iff in E as [E1 E2]
  end.
  split; [by apply Nat.eqb_eq | done].
Qed.

Lemma match_h_sound (s g : jsstring) :
  match_h s = Some g → length g = 40%nat ∧ forallb is_hex g = true.
Proof.
  induction s as [|c s IH]; [done|]. cbn [match_h].
  destruct (match_h_here (c :: s)) eqn:E; [|done]. intros [= <-].
  by apply (match_h_here_sound (c :: s)).
Qed.

Lemma lower_hex_digit (c : N) : is_hex c = true → is_lower_hex (lower_hex c) = true.
Proof.
  unfold is_hex, lower_hex, is_lower_hex. intros H.
  destruct ((65 <=? c) && (c <=? 70))%N eqn:E.
  - apply andb_true_iff in E as [E1 E2]. apply N.leb_le in E1, E2.
    apply orb_true_iff. right. apply andb_true_iff. split; apply N.leb_le; lia.
  - by rewrite orb_false_r in H.
Qed.

Lemma lower_hex_fixed (h : jsstring) :
  Forall (λ c, is_lower_hex c = true) h → map lower_hex h = h.
Proof.
  induction 1 as [|c h Hc _ IH]; [done|]. simpl. rewrite IH. f_equal.
  unfold lower_hex, is_lower_hex in *.
  destruct ((65 <=? c) && (c <=? 70))%N eqn:E; [|done].
  apply andb_true_iff in E as [E1 E2]. apply N.leb_le in E1, E2.
  apply orb_true_iff in Hc as [Hc|Hc]; apply andb_true_iff in Hc as [H1 H2];
    apply N.leb_le in H1, H2; lia.
Qed.

Lemma row_hash_digest (r : Item) (h : jsstring) :
  row_hash r = Some h → is_digest h.
Proof.
  unfold row_hash. destruct (meta r) as [m|]; [|done].
  case_bool_decide; [done|]. destruct (match_h m) as [g|] eqn:E; [|done].
  intros [= <-]. apply match_h_sound in E as [Hlen Hhex]. split.
  - by rewrite length_map.
  - apply Forall_fmap, Forall_forall. intros c Hc. simpl.
    apply lower_hex_digit. rewrite forallb_forall in Hhex.
    by apply Hhex, list_elem_of_In.
Qed.

Lemma elem_of_recent_rows (db : Db) (cutoff maxCheck : Z) (r : Item) :
  r ∈ recent_rows db cutoff maxCheck → r ∈ items db ∧ cutoff ≤ created_at r.
Proof.
  unfold recent_rows, order_by_created_at_desc. intros H.
  apply elem_of_limit, elem_of_sort_by, list_elem_of_filter in H as [Hc Hin].
  split; [done|]. apply Z.leb_le. by destruct (cutoff <=? created_at r).
Qed.

Lemma recent_rows_all (db : Db) (cutoff maxCheck : Z) (r : Item) :
  Z.of_nat (length (rows_since cutoff db)) ≤ maxCheck →
  r ∈ items db → cutoff ≤ created_at r →
  r ∈ recent_rows db cutoff maxCheck.
Proof.
  intros Hlen Hin Hc. unfold recent_rows, limit, order_by_created_at_desc.
  fold (rows_since cutoff db).
  rewrite take_ge.
  - apply elem_of_sort_by. unfold rows_since. apply list_elem_of_filter.
    split; [|done]. apply Z.leb_le in Hc. by rewrite Hc.
  - rewrite (Permutation_length (sort_by_perm _ _)). lia.
Qed.

Lemma dedupe_window_from_rows (cfg : Cfg) (now : Z) (db : Db) (h : jsstring) :
  h ∈ dedupe_window cfg now db →
  is_digest h
  ∧ ∃ r, r ∈ items db ∧ now - captureDedupeWindowMs cfg ≤ created_at r
         ∧ row_hash r = Some h.
Proof.
  unfold dedupe_window, recent_hashes. intros Hh.
  apply elem_of_recent_fold in Hh as [Hh|(r & Hr & Hrh)];
    [by apply elem_of_empty in Hh|].
  split; [by eapply row_hash_digest|].
  apply elem_of_recent_rows in Hr as [Hin Hc]. by exists r.
Qed.

Lemma dedupe_window_complete (cfg : Cfg) (now : Z) (db : Db) (r : Item)
    (h : jsstring) :
  Z.of_nat (length (rows_since (now - captureDedupeWindowMs cfg) db))
  ≤ captureDedupeMaxCheck cfg →
  r ∈ items db → now - captureDedupeWindowMs cfg ≤ created_at r →
  row_hash r = Some h →
  h ∈ dedupe_window cfg now db.
Proof.
  intros Hlen Hin Hc Hrh. unfold dedupe_window, recent_hashes.
  apply elem_of_recent_fold. right. exists r. split; [|done].
  by apply recent_rows_all.
Qed.

(** X6: the dedupe window of a turn holds only well-formed digests (40
    lower-case hexadecimal digits), each taken from the [meta] of a
    stored row created at or after [now - captureDedupeWindowMs]; it has
    at most [captureDedupeMaxCheck] elements; and when no more rows than
    that fall in the time range, the hash of every such row is in it. *)
Theorem dedupe_window_sound (pc : PluginConfig) (now : Z) (db : Db) :
  let cfg := getCfg pc in
  let cutoff := now - captureDedupeWindowMs cfg in
  (∀ h, h ∈ dedupe_window cfg now db →
        is_digest h
        ∧ ∃ r, r ∈ items db ∧ cutoff ≤ created_at r ∧ row_hash r = Some h)
  ∧ Z.of_nat (size (dedupe_window cfg now db)) ≤ captureDedupeMaxCheck cfg
  ∧ (Z.of_nat (length (rows_since cutoff db)) ≤ captureDedupeMaxCheck cfg →
     ∀ r h, r ∈ items db → cutoff ≤ created_at r → row_hash r = Some h →
            h ∈ dedupe_window cfg now db).
Proof.
  intros cfg cutoff. split_and!.
  - apply dedupe_window_from_rows.
  - unfold dedupe_window, recent_hashes. fold cutoff.
    pose proof (size_recent_fold
                  (recent_rows db cutoff (captureDedupeMaxCheck cfg)) ∅) as Hs.
    rewrite size_empty in Hs.
    assert (length (recent_rows db cutoff (captureDedupeMaxCheck cfg))
            ≤ Z.to_nat (captureDedupeMaxCheck cfg))%nat as Hl.
    { unfold recent_rows, limit. rewrite length_take. lia. }
    assert (10 ≤ captureDedupeMaxCheck cfg)
      by (subst cfg; simpl; unfold clamp; lia).
    lia.
  - intros Hlen r h. by apply dedupe_window_complete.
Qed.

(** ** Replaying a turn *)

Lemma capture_loop_returns (cfg : Cfg) (ev : AgentEndEvent) (now : Z)
    (cs : list Capture) (st : LoopState) :
  (∀ d it, accepts d it = true) →
  ∃ st', capture_loop cfg ev now cs st = Returned st'.
Proof.
  intros Hacc. revert st. induction cs as [|c cs IH]; intros st; simpl.
  - by exists st.
  - destruct (capture_step_cases cfg ev now st c)
      as [-> | [(db' & -> & _) | [_ Hrej]]]; [apply IH | apply IH |].
    by rewrite Hacc in Hrej.
Qed.

(** After a run that returned, every candidate the noise heuristic lets
    through has its hash in the window the run started with or on a row
    the run stored. *)
Lemma capture_loop_covers (cfg : Cfg) (ev : AgentEndEvent) (now : Z)
    (cs : list Capture) (st st' : LoopState) :
  0 < captureDedupeWindowMs cfg →
  capture_loop cfg ev now cs st = Returned st' →
  ∃ ins : list NewItem,
    items (ls_db st') = items (ls_db st) ++ map (stored_row now) ins
    ∧ (∀ it, it ∈ ins → ∃ c, c ∈ cs ∧ item_hash it = capture_hash c)
    ∧ ∀ c, c ∈ cs → shouldSkipCapture (text c) (captureMinChars cfg) = false →
           capture_hash c ∈ ls_recentHashes st
           ∨ ∃ it, it ∈ ins ∧ item_hash it = capture_hash c.
Proof.
  intros Hw. revert st. induction cs as [|c cs IH]; intros st Hloop.
  - injection Hloop as <-. exists []. simpl. rewrite app_nil_r.
    split_and!; [done | |]; intros x Hx; by apply elem_of_nil in Hx.
  - simpl in Hloop. unfold capture_step in Hloop. fold (capture_hash c) in Hloop.
    apply Z.ltb_lt in Hw as Hwb. rewrite Hwb in Hloop. simpl in Hloop.
    destruct (shouldSkipCapture (text c) (captureMinChars cfg)) eqn:Eskip.
    + destruct (IH st Hloop) as (ins & H1 & H2 & H3). exists ins. split_and!.
      * done.
      * intros it Hit. destruct (H2 it Hit) as (c' & Hc' & Hh).
        exists c'. split; [by right | done].
      * intros c' Hc' Hn. apply elem_of_cons in Hc' as [->|Hc'];
          [congruence | by apply H3].
    + case_bool_decide as Ein.
      * destruct (IH st Hloop) as (ins & H1 & H2 & H3). exists ins. split_and!.
        -- done.
        -- intros it Hit. destruct (H2 it Hit) as (c' & Hc' & Hh).
           exists c'. split; [by right | done].
        -- intros c' Hc' Hn. apply elem_of_cons in Hc' as [->|Hc'];
             [by left | by apply H3].
      * destruct (addItem now (ls_db st) _) as [db'|] eqn:Eadd; [|done].
        apply addItem_items in Eadd.
        destruct (IH _ Hloop) as (ins & H1 & H2 & H3). simpl in H1, H3.
        exists (capture_item cfg ev now (ls_uuids st) c :: ins). split_and!.
        -- rewrite H1, Eadd. simpl. by rewrite <- app_assoc.
        -- intros it Hit. apply elem_of_cons in Hit as [->|Hit].
           ++ exists c. split; [by left | done].
           ++ destruct (H2 it Hit) as (c' & Hc' & Hh).
              exists c'. split; [by right | done].
        -- intros c' Hc' Hn. apply elem_of_cons in Hc' as [->|Hc'].
           ++ right. eexists. split; [by left | done].
           ++ destruct (H3 c' Hc' Hn) as [Hin | (it & Hit & Hh)].
              ** apply elem_of_union in Hin as [Hs | Hin]; [|by left].
                 apply elem_of_singleton in Hs. right.
                 eexists. split; [by left|]. by rewrite Hs.
              ** right. exists it. split; [by right | done].
Qed.

(** A run whose candidates are all noise or already in the window
    changes nothing. *)
Lemma capture_loop_all_skipped (cfg : Cfg) (ev : AgentEndEvent) (now : Z)
    (cs : list Capture) (st : LoopState) :
  0 < captureDedupeWindowMs cfg →
  (∀ c, c ∈ cs → shouldSkipCapture (text c) (captureMinChars cfg) = true
                 ∨ capture_hash c ∈ ls_recentHashes st) →
  capture_loop cfg ev now cs st = Returned st.
Proof.
  intros Hw. induction cs as [|c cs IH]; intros Hall; [done|]. simpl.
  assert (capture_step cfg ev now st c = Returned st) as ->.
  { unfold capture_step. fold (capture_hash c).
    destruct (shouldSkipCapture _ _) eqn:Eskip; [done|].
    destruct (Hall c) as [?|Hin]; [by left | congruence |].
    apply Z.ltb_lt in Hw. rewrite Hw. by rewrite bool_decide_eq_true_2. }
  apply IH. intros c' Hc'. apply Hall. by right.
Qed.

Lemma stored_row_hash (now : Z) (it : NewItem) :
  (∀ m, is_digest (m_h m) → match_h (stringify m) = Some (m_h m)) →
  is_digest (item_hash it) →
  row_hash (stored_row now it) = Some (item_hash it).
Proof.
  intros Hser Hd. unfold row_hash, stored_row. simpl.
  pose proof (Hser (n_meta it) Hd) as Hm.
  case_bool_decide as E; [by rewrite E in Hm|].
  rewrite Hm. simpl. f_equal. apply lower_hex_fixed. apply Hd.
Qed.

(** X7: replaying a turn stores nothing.  Let the digest be a digest in
    shape, the store's serializer write the hash so that the hash
    pattern finds it, and the store take every insert.  After a turn was
    captured at [now1], the same event delivered again at [now2] adds no
    item, provided the dedupe window is on, the first turn is still
    within it, no row the first turn deduplicated against has left it,
    and the rows in range do not exceed [captureDedupeMaxCheck]. *)
Theorem capture_replay_stores_nothing (pc : PluginConfig) (ev : AgentEndEvent)
    (now1 now2 : Z) (uuid1 uuid2 : nat) (db0 : Db) :
  let cfg := getCfg pc in
  let window := captureDedupeWindowMs cfg in
  let db1 := (agent_end pc ev now1 uuid1 db0).1 in
  (∀ s, is_digest (textHash s)) →
  (∀ m, is_digest (m_h m) → match_h (stringify m) = Some (m_h m)) →
  (∀ d it, accepts d it = true) →
  0 < window →
  now2 - window ≤ now1 →
  (∀ r, r ∈ items db0 → now1 - window ≤ created_at r →
        now2 - window ≤ created_at r) →
  Z.of_nat (length (rows_since (now2 - window) db1)) ≤ captureDedupeMaxCheck cfg →
  items (agent_end pc ev now2 uuid2 db1).1 = items db1.
Proof.
  intros cfg window db1 Hdig Hser Hacc Hw Hnow Hexp Hlen.
  pose proof (agent_end_items pc ev now1 uuid1 db0) as H1.
  pose proof (agent_end_items pc ev now2 uuid2 db1) as H2.
  cbv zeta in H1, H2. fold cfg db1 in H1, H2.
  destruct (ev_success ev); [|done].
  set (cands := visited cfg (sanitizeCaptures (event_captures ev))) in *.
  destruct (capture_loop_returns cfg ev now1 cands
              (mkLoopState db0 (dedupe_window cfg now1 db0) 0 uuid1) Hacc)
    as [st1 Hloop1].
  rewrite Hloop1 in H1. simpl in H1.
  destruct (capture_loop_covers cfg ev now1 cands _ st1 Hw Hloop1)
    as (ins & Hitems & Hfrom & Hcov). simpl in Hitems, Hcov.
  rewrite <- H1 in Hitems.
  rewrite (capture_loop_all_skipped cfg ev now2 cands) in H2; [done | done |].
  intros c Hc. simpl.
  destruct (shouldSkipCapture (text c) (captureMinChars cfg)) eqn:Eskip;
    [by left | right].
  destruct (Hcov c Hc Eskip) as [Hin | (it & Hit & Hh)].
  - destruct (dedupe_window_from_rows cfg now1 db0 _ Hin)
      as (_ & r & Hr & Hc1 & Hrh).
    apply (dedupe_window_complete cfg now2 db1 r); [done| |by apply Hexp|done].
    rewrite Hitems. apply elem_of_app. by left.
  - apply (dedupe_window_complete cfg now2 db1 (stored_row now1 it)).
    + done.
    + rewrite Hitems. apply elem_of_app. right.
      by apply (list_elem_of_fmap_2 (stored_row now1)).
    + done.
    + rewrite <- Hh. apply stored_row_hash; [done|].
      destruct (Hfrom it Hit) as (c' & _ & ->). apply Hdig.
Qed.

(** ** Injected context and the sanitizer *)

Lemma contains_trimStart (p s : jsstring) :
  p ≠ [] → no_lead p → contains p s → contains p (trimStart s).
Proof.
  intros Hne Hp (pre & post & ->). induction pre as [|e pre IH].
  - simpl. rewrite trimStart_fixed; [by exists [], post|].
    destruct p; [done | by simpl in *].
  - simpl. destruct (is_ws e); [done|]. by exists (e :: pre), post.
Qed.

Lemma contains_reverse (p s : jsstring) :
  contains p s → contains (reverse p) (reverse s).
Proof.
  intros (pre & post & ->). exists (reverse post), (reverse pre).
  by rewrite !reverse_app, <- app_assoc.
Qed.

Lemma contains_trim (p s : jsstring) :
  p ≠ [] → trimmed p → contains p s → contains p (trim s).
Proof.
  intros Hne [H1 H2] Hc. unfold trim, trimEnd.
  rewrite <- (reverse_involutive p). apply contains_reverse.
  apply contains_trimStart; [|done|].
  - intros E. apply Hne. apply (f_equal reverse) in E.
    by rewrite reverse_involutive in E.
  - apply contains_reverse. by apply contains_trimStart.
Qed.

Lemma contains_app_l (p q s : jsstring) : contains (p ++ q) s → contains p s.
Proof.
  intros (pre & post & ->). exists pre, (q ++ post). by rewrite <- !app_assoc.
Qed.

Lemma relevant_memories_open_trimmed :
  relevant_memories_open ≠ [] ∧ trimmed relevant_memories_open.
Proof. split; [done|]. split; reflexivity. Qed.

(** X8: the long-term block the recall assembler injects is never
    captured back.  For every non-empty list of hits, a message whose
    text carries [recall_block hits] anywhere is dropped by the
    sanitizer, and no message the sanitizer returns carries it. *)
Theorem injected_recall_not_recaptured (hits : list Hit) (captures : list Capture) :
  hits ≠ [] →
  (∀ c0, c0 ∈ captures → contains (recall_block hits) (text c0) →
         trim_capture c0 ∉ sanitizeCaptures captures)
  ∧ (∀ c, c ∈ sanitizeCaptures captures →
          ¬ contains (recall_block hits) (text c)).
Proof.
  intros Hne.
  assert (∀ t, contains (recall_block hits) t → contains relevant_memories_open t)
    as Hopen.
  { intros t. destruct hits as [|h hits]; [done|].
    unfold recall_block. apply contains_app_l. }
  destruct relevant_memories_open_trimmed as [Hn Ht].
  split.
  - intros c0 _ Hc Hin. apply sanitizeCaptures_elem_of in Hin as (_ & _ & Hno).
    apply Hno. simpl. apply contains_trim; [done | done |]. by apply Hopen.
  - intros c Hin Hc. apply sanitizeCaptures_elem_of in Hin as (_ & _ & Hno).
    by apply Hno, Hopen.
Qed.

(** ** Composition of the injected context *)

Lemma join_blocks (st rb : jsstring) :
  join (nl ++ nl) (List.filter nonempty [st; rb])
  = match st, rb with
    | [], _ => rb
    | _, [] => st
    | _, _ => st ++ nl ++ nl ++ rb
    end.
Proof. by destruct st, rb. Qed.

(** The date conversion of the long-term block throws exactly when one
    of the first three hits has a truthy [created_at] that is not a
    valid time: not a number, an infinity, or beyond 8.64e15 ms. *)
Lemma recall_throws_spec (hits : list Hit) :
  recall_throws hits = true ↔
  ∃ h n, h ∈ take 3 hits ∧ hit_created_at h = Some n ∧ time_value n = None.
Proof.
  unfold recall_throws. rewrite existsb_exists. split.
  - intros (h & Hin & Hd). apply list_elem_of_In in Hin.
    apply bool_decide_eq_true in Hd. unfold hit_date in Hd.
    destruct (hit_created_at h) as [n|] eqn:En; [|done].
    exists h, n. split_and!; [done|done|]. by destruct (time_value n).
  - intros (h & n & Hin & En & Ht). exists h. split; [by apply list_elem_of_In|].
    apply bool_decide_eq_true. unfold hit_date. by rewrite En, Ht.
Qed.

(** X9: for a prompt of at least 5 characters (trimmed) the hook's
    answer is composed as follows.  When the search throws, or when the
    date of one of the first three hits cannot be converted
    ([toISOString] throws), the hook returns nothing, the short-term
    block included, and logs the recall failure after what the search
    logged.  Otherwise it returns nothing exactly when both blocks are
    empty; the short-term block alone, the long-term block alone, or the
    short-term block, a blank line and the long-term block, in this
    order. *)
Theorem before_agent_start_composition (pc : PluginConfig) (ev : StartEvent)
    (db : Db) (probe : Probe) (now last : Z) :
  let prompt := trim (default [] (se_prompt ev)) in
  let st := session_block ev db in
  5 ≤ len prompt →
  match recall pc db prompt (Some 3) None probe now last with
  | (None, last', logged) =>
      before_agent_start pc ev db probe now last
      = (None, last', logged ++ [WarnAutoRecallFailed])
  | (Some res, last', logged) =>
      let rb := recall_block (result_hits res) in
      ((∃ h n, h ∈ take 3 (result_hits res) ∧ hit_created_at h = Some n
               ∧ time_value n = None) →
       before_agent_start pc ev db probe now last
       = (None, last', logged ++ [WarnAutoRecallFailed]))
      ∧ ((∀ h n, h ∈ take 3 (result_hits res) → hit_created_at h = Some n →
                 is_Some (time_value n)) →
         (before_agent_start pc ev db probe now last).1.1
         = match st, rb with
           | [], [] => None
           | [], _ => Some rb
           | _, [] => Some st
           | _, _ => Some (st ++ nl ++ nl ++ rb)
           end
         ∧ (before_agent_start pc ev db probe now last).1.2 = last')
  end.
Proof.
  intros prompt st Hlen. unfold before_agent_start. fold prompt.
  apply Z.ltb_ge in Hlen. rewrite Hlen.
  change (match se_sessionKey ev with
          | Some (c :: sid) =>
              short_term_block (short_term_lines (session_rows db (c :: sid)))
          | _ => []
          end) with st.
  destruct (recall pc db prompt (Some 3) None probe now last)
    as [[[res|] last'] logged]; [|done].
  cbv zeta. split.
  - intros Hthrow. apply recall_throws_spec in Hthrow. by rewrite Hthrow.
  - intros Hok.
    destruct (recall_throws (result_hits res)) eqn:Et.
    + apply recall_throws_spec in Et as (h & n & Hin & En & Ht).
      destruct (Hok h n Hin En) as [t Hsome]. congruence.
    + rewrite join_blocks.
      by destruct st, (recall_block (result_hits res)).
Qed.

(** ** Which rows the short-term block shows *)

Lemma sum_len_nonneg (lines : list jsstring) : 0 ≤ sum_len lines.
Proof.
  induction lines as [|x l IH]; simpl; [done|].
  pose proof (len_nonneg x). lia.
Qed.

Lemma row_line_len (r : Item) : 13 ≤ len (row_line r) ≤ 321.
Proof.
  unfold row_line. rewrite !len_app.
  pose proof (clip_length 300 (row_text r)) as Hc.
  pose proof (len_nonneg (row_text r)) as Hn.
  assert (0 ≤ len (clip 300 (row_text r)) ≤ 303) as Hclip.
  { rewrite Hc by lia. destruct (300 <? len (row_text r)) eqn:E; [lia|].
    apply Z.ltb_ge in E. lia. }
  change (len (lit "[role: ")) with 7. change (len (lit "] ")) with 2.
  case_bool_decide.
  - change (len (lit "assistant")) with 9. lia.
  - change (len (lit "user")) with 4. lia.
Qed.

Lemma rendered_len (rows : list Item) (line : jsstring) :
  line ∈ rendered rows → 13 ≤ len line ≤ 321.
Proof.
  unfold rendered. intros H. apply list_elem_of_fmap in H as (r & -> & _).
  apply row_line_len.
Qed.

(** X10: when the first 15 rendered lines, oldest first, fit the budget
    of 2000 characters, the block shows exactly these: of the rows
    fetched (the 50 newest of the session) it is the oldest 15 with text
    that appear, and the newer ones are left out. *)
Theorem short_term_shows_oldest (rows : list Item) :
  sum_len (take 15 (rendered (reverse rows))) ≤ 2000 →
  short_term_lines rows = take 15 (rendered (reverse rows)).
Proof.
  intros Hfit. unfold short_term_lines.
  destruct (short_term_loop_inv (reverse rows) (mkShortTerm 0 0 []))
    as (H1 & H2 & H3 & H4 & added & rest & Hl & Hr & Hstop); try done.
  simpl in Hl. rewrite Hl in *. unfold maxMsgs, maxChars in *.
  rewrite H1 in H3, Hstop. rewrite H2 in H4, Hstop. rewrite Hr in Hfit |- *.
  destruct rest as [|next rest].
  - rewrite app_nil_r. rewrite take_ge; [done | lia].
  - assert (next ∈ rendered (reverse rows)) as Hnext.
    { rewrite Hr. apply elem_of_app. right. by left. }
    apply rendered_len in Hnext.
    destruct (decide (length added = 15%nat)) as [E|E].
    + by rewrite take_app_length'.
    + exfalso. assert (length added < 15)%nat as Hlt by lia.
      rewrite take_app_ge in Hfit by lia.
      destruct (15 - length added)%nat as [|k] eqn:Ek; [lia|].
      simpl in Hfit. rewrite sum_len_app in Hfit. simpl in Hfit.
      pose proof (sum_len_nonneg (take k rest)).
      destruct Hstop as [?|[?|?]]; lia.
Qed.

(** ** The lines of the short-term block *)

Lemma collapse_ws_spaces (f : bool) (s : jsstring) :
  Forall (λ c, ws_is_space c = true) (collapse_ws_from f s).
Proof.
  revert f. induction s as [|c s IH]; intros f; simpl; [constructor|].
  destruct (is_ws c) eqn:E.
  - destruct f; [apply IH|]. constructor; [done | apply IH].
  - constructor; [|apply IH]. unfold ws_is_space. by rewrite E.
Qed.

Lemma trim_sublist (s : jsstring) : trim s `sublist_of` s.
Proof.
  unfold trim.
  destruct (trimStart_split s) as (pre & Hs & _).
  destruct (trimEnd_split (trimStart s)) as (suf & He & _).
  rewrite Hs at 2. rewrite He at 2.
  apply sublist_inserts_l, sublist_inserts_r. done.
Qed.

Lemma clip_spaces (n : Z) (t : jsstring) :
  Forall (λ c, ws_is_space c = true) t →
  Forall (λ c, ws_is_space c = true) (clip n t).
Proof.
  intros Ht. unfold clip. destruct (n <? len t); [|done].
  apply Forall_app. split; [by apply Forall_take|].
  repeat constructor.
Qed.

Lemma row_line_spaces (r : Item) :
  Forall (λ c, ws_is_space c = true) (row_line r).
Proof.
  unfold row_line. rewrite !Forall_app. split_and!.
  - repeat constructor.
  - case_bool_decide; repeat constructor.
  - repeat constructor.
  - apply clip_spaces. unfold row_text.
    apply Forall_forall. intros c Hc.
    pose proof (elem_of_sublist _ _ _ Hc (trim_sublist _)) as Hc'.
    pose proof (collapse_ws_spaces false (default [] (item_text r))) as Hall.
    by apply (proj1 (Forall_forall _ _) Hall).
Qed.

(** X11: every line of the short-term block is free of line breaks: its
    only white space is the plain space.  It begins with [[role: ] and
    has between 13 and 321 characters. *)
Theorem short_term_lines_single_line (rows : list Item) (line : jsstring) :
  line ∈ short_term_lines rows →
  (10%N ∉ line)
  ∧ Forall (λ c, is_ws c = true → c = 32%N) line
  ∧ startsWith (lit "[role: ") line = true
  ∧ 13 ≤ len line ≤ 321.
Proof.
  intros Hin. unfold short_term_lines in Hin.
  destruct (short_term_loop_inv (reverse rows) (mkShortTerm 0 0 []))
    as (_ & _ & _ & _ & added & rest & Hl & Hr & _); try done.
  simpl in Hl. rewrite Hl in Hin.
  assert (line ∈ rendered (reverse rows)) as Hren
    by (rewrite Hr; apply elem_of_app; by left).
  pose proof (rendered_len _ _ Hren) as Hlen.
  unfold rendered in Hren. apply list_elem_of_fmap in Hren as (r & -> & _).
  pose proof (row_line_spaces r) as Hsp.
  assert (Forall (λ c, is_ws c = true → c = 32%N) (row_line r)) as Hws.
  { eapply Forall_impl; [exact Hsp|]. intros c Hc Hw. unfold ws_is_space in Hc.
    rewrite Hw in Hc. simpl in Hc. by apply N.eqb_eq. }
  split; [|split; [done|split; [|done]]].
  - intros H10. pose proof (proj1 (Forall_forall _ _) Hws _ H10 eq_refl) as E.
    discriminate.
  - unfold row_line. apply startsWith_spec. by eexists.
Qed.

(** ** From capture to the session query *)

(** X12: what [agent_end] stores for a session is what the session query
    of the next [before_agent_start] reads: every row the hook adds under
    a session key is returned by [session_rows] for that key, as long as
    the session has at most 50 rows tagged user or assistant. *)
Theorem captured_rows_in_session (pc : PluginConfig) (ev : AgentEndEvent)
    (now : Z) (uuid0 : nat) (db : Db) (sid : jsstring) :
  let db' := (agent_end pc ev now uuid0 db).1 in
  ev_sessionKey ev = Some sid →
  (length (session_items db' sid) ≤ 50)%nat →
  ∃ ins : list NewItem,
    items db' = items db ++ map (stored_row now) ins
    ∧ ∀ it, it ∈ ins → stored_row now it ∈ session_rows db' sid.
Proof.
  intros db' Hsid Hlen.
  pose proof (agent_end_items pc ev now uuid0 db) as Hitems. cbv zeta in Hitems.
  fold db' in Hitems.
  destruct (ev_success ev).
  - destruct (capture_loop_inserts (getCfg pc) ev now
                (visited (getCfg pc) (sanitizeCaptures (event_captures ev)))
                (mkLoopState db (dedupe_window (getCfg pc) now db) 0 uuid0))
      as (ins & H1 & _ & H3 & _). simpl in H1. rewrite <- Hitems in H1.
    exists ins. split; [done|]. intros it Hit.
    unfold session_rows, limit, order_by_created_at_desc.
    fold (session_items db' sid).
    rewrite take_ge by (rewrite (Permutation_length (sort_by_perm _ _)); lia).
    apply elem_of_sort_by. unfold session_items. apply list_elem_of_filter.
    split.
    + apply (proj1 (Forall_forall _ _) H3) in Hit as (c & u & _ & -> & _).
      simpl. split; [done|]. destruct (role c); [by left | by right].
    + rewrite H1. apply elem_of_app. right.
      by apply (list_elem_of_fmap_2 (stored_row now)).
  - exists []. simpl. rewrite app_nil_r. split; [done|].
    intros it Hit. by apply elem_of_nil in Hit.
Qed.

(** ** Retention: dry run and live run *)

Lemma filter_ext_in {A} (P Q : A → Prop) `{∀ x, Decision (P x)}
    `{∀ x, Decision (Q x)} (l : list A) :
  (∀ x, x ∈ l → (P x ↔ Q x)) → filter P l = filter Q l.
Proof.
  induction l as [|x l IH]; intros Hext; [done|].
  rewrite !filter_cons. rewrite IH by (intros y Hy; apply Hext; by right).
  destruct (decide (P x)) as [Hp|Hp], (decide (Q x)) as [Hq|Hq]; try done.
  - exfalso. apply Hq, (Hext x); [by left | done].
  - exfalso. apply Hp, (Hext x); [by left | done].
Qed.

Lemma length_filter_split {A} (P : A → Prop) `{∀ x, Decision (P x)} (l : list A) :
  (length (filter P l) + length (filter (λ x, ¬ P x) l))%nat = length l.
Proof.
  rewrite <- length_app. apply Permutation_length, filter_app_complement.
Qed.

Lemma gc_rows_NoDup (db : Db) (cutoff : Z) (protectedTags : list jsstring)
    (lim : Z) :
  NoDup (items db) → NoDup (gc_rows db cutoff protectedTags lim).
Proof.
  intros Hnd. unfold gc_rows, limit, order_by_created_at_asc.
  eapply sublist_NoDup; [|apply sublist_take].
  rewrite sort_by_perm. by apply NoDup_filter.
Qed.

(** With unique identifiers, the rows a delete by identifier removes are
    the rows named. *)
Lemma delete_by_id_rows (l rows : list Item) :
  NoDup (map id l) → (∀ r, r ∈ rows → r ∈ l) →
  filter (λ r, id r ∉ map id rows) l = filter (λ r, r ∉ rows) l.
Proof.
  intros Hnd Hsub. apply filter_ext_in. intros r Hr. split.
  - intros Hid Hin. apply Hid. by apply (list_elem_of_fmap_2 id).
  - intros Hnin Hid. apply list_elem_of_fmap in Hid as (r' & Heq & Hr').
    apply Hnin. assert (r = r') as ->; [|done].
    apply (NoDup_fmap_elem_inj id l); auto.
Qed.

Lemma delete_by_id_count (l rows : list Item) :
  NoDup (map id l) → NoDup rows → (∀ r, r ∈ rows → r ∈ l) →
  (length (filter (λ r, id r ∉ map id rows) l) + length rows)%nat = length l.
Proof.
  intros Hnd Hrows Hsub. rewrite delete_by_id_rows by done.
  pose proof (length_filter_split (λ r, r ∈ rows) l) as Hsplit.
  assert (filter (λ r, r ∈ rows) l ≡ₚ rows) as Hperm.
  { apply NoDup_Permutation; [|done|].
    - apply NoDup_filter. by apply (NoDup_fmap_1 id).
    - intros r. rewrite list_elem_of_filter. split; [by intros [? _]|].
      intros Hr. split; [done | by apply Hsub]. }
  rewrite (Permutation_length Hperm) in Hsplit. lia.
Qed.


(** X14: with identifiers unique in the table and no failing statement,
    a live run removes exactly the candidate rows and exactly the
    embeddings attached to a candidate: every other item and embedding is
    still there afterwards, in particular every item created at or after
    the cutoff and every embedding of a surviving item. *)
Theorem gc_live_deletes_exactly (pc : PluginConfig) (params : GcParams)
    (now : Z) (faults : Faults) (db : Db) (days : Z) :
  gc_dryRun params = Some false →
  gc_days (getCfg pc) params = Some days →
  fault_delete_embeddings faults = false →
  fault_delete_items faults = false →
  NoDup (map id (items db)) →
  let rows := gc_rows db (gc_cutoff now days)
                (gc_protectedTags (getCfg pc) params) (gc_lim params) in
  let db' := (memory_gc pc params now faults db).1 in
  (∀ r, r ∈ items db' ↔ r ∈ items db ∧ r ∉ rows)
  ∧ (∀ e, e ∈ embeddings db' ↔
          e ∈ embeddings db ∧ ¬ ∃ r, r ∈ rows ∧ id r = item_id e)
  ∧ (∀ r, r ∈ items db → gc_cutoff now days ≤ created_at r → r ∈ items db').
Proof.
  intros Hlive Hdays Hfe Hfi Hnd rows db'.
  assert (∀ r, r ∈ rows → r ∈ items db) as Hsub
    by (intros r Hr; by apply elem_of_gc_rows in Hr as [? _]).
  destruct (memory_gc_live_post pc params now faults db days Hlive Hdays)
    as [Hthrow | (d & _ & Hitems & Hemb & _)].
  - exfalso. unfold memory_gc in Hthrow. rewrite Hdays, Hlive in Hthrow.
    simpl in Hthrow. unfold transaction, gc_delete in Hthrow.
    destruct (map id _) in Hthrow; [done|].
    rewrite Hfe, Hfi in Hthrow. rewrite try_vacuum_id in Hthrow. done.
  - fold rows in Hitems, Hemb. fold db' in Hitems, Hemb.
    rewrite delete_by_id_rows in Hitems by done.
    assert (∀ r, r ∈ items db' ↔ r ∈ items db ∧ r ∉ rows) as Hi.
    { intros r. rewrite Hitems, list_elem_of_filter.
      split; intros [? ?]; by split. }
    split_and!.
    + done.
    + intros e. rewrite Hemb, list_elem_of_filter. split.
      * intros [Hid He]. split; [done|]. intros (r & Hr & Heq).
        apply Hid. rewrite <- Heq. by apply (list_elem_of_fmap_2 id).
      * intros [He Hno]. split; [|done]. intros Hid.
        apply list_elem_of_fmap in Hid as (r & Heq & Hr). apply Hno. by exists r.
    + intros r Hr Hnew. apply Hi. split; [done|]. intros Hin.
      apply elem_of_gc_rows in Hin as [_ [Hold _]]. lia.
Qed.

(** ** Forgetting an item *)

Lemma delete_item_spec (i : jsstring) (db : Db) :
  let out := delete_item i db in
  embeddings out.1 = embeddings db ∧ facts out.1 = facts db
  ∧ (∀ r, r ∈ items out.1 ↔ r ∈ items db ∧ id r ≠ i)
  ∧ out.2 = Z.of_nat (length (items db)) - Z.of_nat (length (items out.1))
  ∧ 0 ≤ out.2
  ∧ (NoDup (map id (items db)) → out.2 ≤ 1).
Proof.
  unfold delete_item. simpl. split_and!; try done.
  - intros r. rewrite list_elem_of_filter. split; intros [? ?]; by split.
  - pose proof (length_filter (λ r, id r ≠ i) (items db)). lia.
  - intros Hnd.
    pose proof (length_filter_split (λ r, id r ≠ i) (items db)) as Hsplit.
    assert (length (filter (λ r, ¬ id r ≠ i) (items db)) ≤ 1)%nat; [|lia].
    clear Hsplit. induction (items db) as [|x l IH]; [simpl; lia|].
    simpl in Hnd. apply NoDup_cons in Hnd as [Hx Hnd].
    rewrite filter_cons. destruct (decide (¬ id x ≠ i)) as [Hxi|Hxi].
    + assert (filter (λ r, ¬ id r ≠ i) l = []) as ->; [|simpl; lia].
      destruct (filter (λ r, ¬ id r ≠ i) l) as [|r rs] eqn:Ef; [done|].
      exfalso. assert (r ∈ filter (λ r, ¬ id r ≠ i) l) as Hr
        by (rewrite Ef; apply list_elem_of_here).
      apply list_elem_of_filter in Hr as [Hri Hr]. apply Hx.
      destruct (decide (id x = i)) as [Exi|]; [|done].
      destruct (decide (id r = i)) as [Eri|]; [|done].
      rewrite Exi, <- Eri. by apply (list_elem_of_fmap_2 id).
    + by apply IH.
Qed.

(** X15: [memory_forget] deletes from the [items] table only: the
    embeddings (those of the forgotten item included) and the facts are
    as before, and no item is added.  The rows removed are exactly the
    rows with the chosen identifier, the count reported is their number,
    at most one when identifiers are unique.  With a non-empty
    [memoryId] no search is run, whatever the query; with neither a
    [memoryId] nor a query, or when the search finds no identifier, the
    store is untouched. *)
Theorem memory_forget_spec (pc : PluginConfig) (params : ForgetParams) (db : Db)
    (probe : Probe) (now last : Z) :
  let out := memory_forget pc params db probe now last in
  let db' := out.1.1.1 in
  embeddings db' = embeddings db ∧ facts db' = facts db
  ∧ match out.1.1.2 with
    | Some (ForgetDeleted n i) =>
        i ≠ []
        ∧ (∀ r, r ∈ items db' ↔ r ∈ items db ∧ id r ≠ i)
        ∧ n = Z.of_nat (length (items db)) - Z.of_nat (length (items db'))
        ∧ 0 ≤ n
        ∧ (NoDup (map id (items db)) → n ≤ 1)
    | _ => db' = db
    end
  ∧ (truthy (fg_memoryId params) = true →
     out.1.2 = last ∧ out.2 = []
     ∧ ∃ n, out.1.1.2 = Some (ForgetDeleted n (default [] (fg_memoryId params))))
  ∧ (truthy (fg_memoryId params) = false → truthy (fg_query params) = false →
     out = (db, Some ForgetNeedsInput, last, [])).
Proof.
  intros out db'. subst db' out. unfold memory_forget.
  assert (∀ o : option jsstring, truthy o = true → default [] o ≠ []) as Htr
    by (intros [[|??]|]; done).
  destruct (truthy (fg_memoryId params)) eqn:Eid; cbn [negb andb].
  - pose proof (delete_item_spec (default [] (fg_memoryId params)) db) as Hd.
    cbv zeta in Hd.
    destruct (delete_item (default [] (fg_memoryId params)) db) as [d n].
    cbn [fst snd] in *. destruct Hd as (? & ? & ? & ? & ? & ?).
    split_and!; try done; eauto.
  - destruct (truthy (fg_query params)) eqn:Eq; cbn [negb andb]; [|by split_and!].
    destruct (recall pc db _ (Some 5) None probe now last) as [[[res|] l'] lg];
      [|by split_and!].
    destruct (truthy (first_item_id res)) eqn:Ef; cbn [negb andb]; [|by split_and!].
    pose proof (delete_item_spec (default [] (first_item_id res)) db) as Hd.
    cbv zeta in Hd.
    destruct (delete_item (default [] (first_item_id res)) db) as [d n].
    cbn [fst snd] in *. destruct Hd as (? & ? & ? & ? & ? & ?).
    split_and!; try done; eauto.
Qed.

(** ** Noise heuristic *)

Lemma is_ack_short (t : jsstring) : is_ack t = true → len t ≤ 6.
Proof.
  unfold is_ack. rewrite bool_decide_eq_true. intros Hin.
  apply list_elem_of_fmap in Hin as (tok & Heq & Htok).
  apply (f_equal length) in Heq. rewrite !length_map in Heq.
  unfold len. rewrite Heq.
  assert (Forall (λ tok, (length tok ≤ 6)%nat) ack_tokens) as Hall
    by (repeat constructor).
  apply (proj1 (Forall_forall _ _) Hall) in Htok. lia.
Qed.

(** X16: with [captureMinChars] at 7 or more, the default 16 included,
    the acknowledgement list never decides: every text it matches has at
    most 6 characters and is skipped as too short, so a text is skipped
    exactly when, trimmed, it is empty, shorter than [minChars], or
    without letter or number. *)
Theorem ack_list_redundant (t : jsstring) (minChars : Z) :
  7 ≤ minChars →
  shouldSkipCapture t minChars
  = bool_decide (trim t = []) || (len (trim t) <? minChars)
    || negb (hasLetterOrNumber (trim t)).
Proof.
  intros Hmin. unfold shouldSkipCapture. cbv zeta.
  case_bool_decide; [done|]. simpl.
  assert ((0 <? minChars) = true) as -> by (apply Z.ltb_lt; lia). simpl.
  destruct (len (trim t) <? minChars) eqn:E; [done|]. simpl.
  destruct (hasLetterOrNumber (trim t)); [|done]. simpl.
  destruct (is_ack (trim t)) eqn:Ea; [|done].
  apply is_ack_short in Ea. apply Z.ltb_ge in E. lia.
Qed.

(** ** The hook only appends *)

Lemma capture_loop_tables (cfg : Cfg) (ev : AgentEndEvent) (now : Z)
    (cs : list Capture) (st : LoopState) :
  embeddings (outcome_db (capture_loop cfg ev now cs st)) = embeddings (ls_db st)
  ∧ facts (outcome_db (capture_loop cfg ev now cs st)) = facts (ls_db st).
Proof.
  revert st. induction cs as [|c cs IH]; intros st; [done|].
  cbn [capture_loop]. unfold capture_step.
  destruct (shouldSkipCapture _ _); [apply IH|].
  destruct (_ && _); [apply IH|].
  unfold addItem. destruct (accepts _ _); [|done].
  destruct (IH (mkLoopState
                  (mkDb (items (ls_db st)
                         ++ [stored_row now (capture_item cfg ev now (ls_uuids st) c)])
                     (embeddings (ls_db st)) (facts (ls_db st)))
                  ({[ textHash (normalizeForDedupe (text c)) ]} ∪ ls_recentHashes st)
                  (ls_stored st + 1) (S (ls_uuids st)))) as [IH1 IH2].
  by rewrite IH1, IH2.
Qed.

Lemma fact_fold_appends (fs0 : list Fact) (st : Db * Z) :
  ∃ fs : list Fact,
    facts (foldl fact_step st fs0).1 = facts st.1 ++ fs
    ∧ embeddings (foldl fact_step st fs0).1 = embeddings st.1
    ∧ (foldl fact_step st fs0).2 = st.2 + Z.of_nat (length fs)
    ∧ Forall (λ f, f_confident f = true ∧ f ∈ fs0) fs.
Proof.
  revert st. induction fs0 as [|f fs0 IH]; intros st.
  - exists []. simpl. rewrite app_nil_r. split_and!; [done|done|lia|constructor].
  - cbn [foldl]. destruct (IH (fact_step st f)) as (fs & H1 & H2 & H3 & H4).
    assert (Forall (λ g, f_confident g = true ∧ g ∈ f :: fs0) fs) as H4'.
    { eapply Forall_impl; [exact H4|]. intros g [? ?]. split; [done|].
      by apply list_elem_of_further. }
    unfold fact_step, insertFact in *.
    destruct (f_confident f) eqn:Ec; cbn [negb] in *; [|by exists fs].
    destruct (acceptsFact st.1 f); [|by exists fs].
    cbn [fst snd facts embeddings] in *. exists (f :: fs). split_and!.
    + by rewrite H1, <- app_assoc.
    + done.
    + rewrite H3. simpl length. lia.
    + constructor; [|done]. split; [done|]. apply list_elem_of_here.
Qed.

Lemma facts_loop_appends (cs : list Capture) (st : Db * Z) :
  ∃ fs : list Fact,
    facts (facts_loop cs st).1 = facts st.1 ++ fs
    ∧ embeddings (facts_loop cs st).1 = embeddings st.1
    ∧ (facts_loop cs st).2 = st.2 + Z.of_nat (length fs)
    ∧ Forall (λ f, f_confident f = true
                   ∧ ∃ c, c ∈ cs ∧ f ∈ extractFactsSimple (text c)) fs.
Proof.
  unfold facts_loop. revert st. induction cs as [|c cs IH]; intros st.
  - exists []. simpl. rewrite app_nil_r. split_and!; [done|done|lia|constructor].
  - cbn [foldl].
    destruct (fact_fold_appends (extractFactsSimple (text c)) st)
      as (fs1 & A1 & A2 & A3 & A4).
    destruct (IH (foldl fact_step st (extractFactsSimple (text c))))
      as (fs2 & B1 & B2 & B3 & B4).
    exists (fs1 ++ fs2). split_and!.
    + by rewrite B1, A1, <- app_assoc.
    + by rewrite B2.
    + rewrite B3, A3, length_app. lia.
    + apply Forall_app. split.
      * eapply Forall_impl; [exact A4|]. intros f [? ?]. split; [done|].
        exists c. split; [apply list_elem_of_here|done].
      * eapply Forall_impl; [exact B4|]. intros f [? (c' & ? & ?)].
        split; [done|]. exists c'. split; [by apply list_elem_of_further|done].
Qed.

(** X17: the [agent_end] hook only appends.  The rows and facts the
    store held are kept, in place and unchanged, and the hook itself
    writes no embedding (the inserts of the store, as modelled, each
    append to their own table).
    The facts added are facts of at least 0.6 confidence extracted from
    the visited candidates, whether or not the candidate itself was
    stored; their number is the one logged, and a line is logged as soon
    as there is one.  When the capture loop fails no fact is added, and a
    turn that did not succeed, or has no candidate left after cleaning,
    leaves the store as it was. *)
Theorem agent_end_only_appends (pc : PluginConfig) (ev : AgentEndEvent) (now : Z)
    (uuid0 : nat) (db : Db) :
  let cfg := getCfg pc in
  let cands := visited cfg (sanitizeCaptures (event_captures ev)) in
  let out := agent_end pc ev now uuid0 db in
  embeddings out.1 = embeddings db
  ∧ (∃ rows, items out.1 = items db ++ rows)
  ∧ (∃ fs : list Fact,
       facts out.1 = facts db ++ fs
       ∧ Forall (λ f, f_confident f = true
                      ∧ ∃ c, c ∈ cands ∧ f ∈ extractFactsSimple (text c)) fs
       ∧ (∀ n, InfoAutoExtracted n ∈ out.2 → n = Z.of_nat (length fs))
       ∧ (fs ≠ [] → InfoAutoExtracted (Z.of_nat (length fs)) ∈ out.2)
       ∧ (ErrorAgentEndFailed ∈ out.2 → fs = []))
  ∧ (ev_success ev = false ∨ sanitizeCaptures (event_captures ev) = [] →
     out.1 = db).
Proof.
  intros cfg cands out.
  destruct (agent_end_inserts pc ev now uuid0 db) as (ins & Hitems & _).
  fold out in Hitems.
  split_and!; [| by eexists | |].
  - subst out. clear Hitems. clear cands cfg. unfold agent_end.
    destruct (ev_success ev); cbn [negb]; [|done].
    destruct (ev_messages ev) as [[|m msgs]|]; try done.
    destruct (sanitizeCaptures (extract_captures (m :: msgs))) as [|c cl]; [done|].
    pose proof (capture_loop_tables (getCfg pc) ev now
                  (visited (getCfg pc) (c :: cl))
                  (mkLoopState db
                     (recent_hashes
                        (recent_rows db (now - captureDedupeWindowMs (getCfg pc))
                           (captureDedupeMaxCheck (getCfg pc)))) 0 uuid0))
      as [He _].
    destruct (capture_loop _ _ _ _ _) as [st|db']; [|done].
    cbn [outcome_db ls_db] in He.
    destruct (facts_loop_appends (visited (getCfg pc) (c :: cl)) (ls_db st, 0))
      as (fs & _ & Hfe & _).
    destruct (facts_loop _ _) as [db2 n]. cbn [fst] in *. by rewrite Hfe.
  - assert (∀ (cs : list Capture) (d : Db) (lg : list LogLine),
              (∀ n, InfoAutoExtracted n ∉ lg) →
              ∃ fs : list Fact,
                facts d = facts d ++ fs
                ∧ Forall (λ f, f_confident f = true
                               ∧ ∃ c, c ∈ cs ∧ f ∈ extractFactsSimple (text c)) fs
                ∧ (∀ n, InfoAutoExtracted n ∈ lg → n = Z.of_nat (length fs))
                ∧ (fs ≠ [] → InfoAutoExtracted (Z.of_nat (length fs)) ∈ lg)
                ∧ (ErrorAgentEndFailed ∈ lg → fs = [])) as Hnone.
    { intros cs d lg Hlg. exists []. rewrite app_nil_r.
      split_and!; [done|constructor| |done|done].
      intros n Hn. by apply Hlg in Hn. }
    subst out cands cfg. unfold agent_end, event_captures.
    destruct (ev_success ev); cbn [negb];
      [|apply (Hnone _ db []); intros n; apply not_elem_of_nil].
    destruct (ev_messages ev) as [[|m msgs]|].
    + apply (Hnone _ db []); intros n; apply not_elem_of_nil.
    + destruct (sanitizeCaptures (extract_captures (m :: msgs))) as [|c cl];
        [apply (Hnone _ db []); intros n; apply not_elem_of_nil|].
      pose proof (capture_loop_tables (getCfg pc) ev now
                    (visited (getCfg pc) (c :: cl))
                    (mkLoopState db
                       (recent_hashes
                          (recent_rows db (now - captureDedupeWindowMs (getCfg pc))
                             (captureDedupeMaxCheck (getCfg pc)))) 0 uuid0))
        as [_ Hf].
      destruct (capture_loop _ _ _ _ _) as [st|db'].
      * cbn [outcome_db ls_db] in Hf.
        destruct (facts_loop_appends (visited (getCfg pc) (c :: cl)) (ls_db st, 0))
          as (fs & Hfs & _ & Hn & Hall).
        destruct (facts_loop _ _) as [db2 n]. cbn [fst snd] in *.
        exists fs. rewrite Hfs, Hf. split_and!; [done|done| | |].
        -- intros k Hk. apply elem_of_app in Hk as [Hk|Hk].
           ++ destruct (0 <? ls_stored st); [|by apply elem_of_nil in Hk].
              by apply list_elem_of_singleton in Hk.
           ++ destruct (0 <? n); [|by apply elem_of_nil in Hk].
              apply list_elem_of_singleton in Hk. injection Hk as ->. lia.
        -- intros Hne. apply elem_of_app. right.
           assert (0 < n) as Hpos by (destruct fs; [done|simpl in Hn; lia]).
           apply Z.ltb_lt in Hpos. rewrite Hpos.
           apply list_elem_of_singleton. f_equal. lia.
        -- intros He. apply elem_of_app in He as [He|He].
           ++ destruct (0 <? ls_stored st); [|by apply elem_of_nil in He].
              by apply list_elem_of_singleton in He.
           ++ destruct (0 <? n); [|by apply elem_of_nil in He].
              by apply list_elem_of_singleton in He.
      * cbn [outcome_db] in Hf. cbn [fst snd].
        exists []. rewrite app_nil_r. split_and!; [done|constructor| |done|done].
        intros n Hn. by apply list_elem_of_singleton in Hn.
    + cbn [fst snd]. exists []. rewrite app_nil_r.
      split_and!; [done|constructor| |done|done].
      intros n Hn. by apply list_elem_of_singleton in Hn.
  - subst out. unfold agent_end, event_captures.
    intros [->|Hempty]; [done|].
    destruct (ev_success ev); cbn [negb]; [|done].
    destruct (ev_messages ev) as [[|m msgs]|]; try done.
    by rewrite Hempty.
Qed.

(** ** The recall tool *)

Lemma sum_len_imap_bound (f : nat → Hit → jsstring) (b : Z) (l : list Hit) :
  (∀ i h, len (f i h) ≤ b) →
  sum_len (imap f l) ≤ b * Z.of_nat (length l).
Proof.
  revert f. induction l as [|x l IH]; intros f Hf; [simpl; lia|].
  cbn [imap sum_len foldr]. fold (sum_len (imap (f ∘ S) l)).
  specialize (IH (f ∘ S) (λ i h, Hf (S i) h)). specialize (Hf 0%nat x).
  simpl length. lia.
Qed.

Lemma preview_len (hits : list Hit) : len (preview hits) ≤ 819.
Proof.
  unfold preview. rewrite len_join_nl, length_imap.
  pose proof (sum_len_imap_bound preview_line 163 (take 5 hits)) as Hsum.
  assert (length (take 5 hits) ≤ 5)%nat by (rewrite length_take; lia).
  assert (∀ i h, len (preview_line i h) ≤ 163) as Hline.
  { intros i h. unfold preview_line. rewrite !len_app. unfold slice0, len.
    rewrite length_take. change (length (lit ". ")) with 2%nat.
    cbn [length]. lia. }
  specialize (Hsum Hline). lia.
Qed.

(** X18: the filters of [memory_recall] need the hybrid path.  In
    lexical mode, the default, and in hybrid mode whenever the probe of
    the embeddings endpoint fails, the items returned are those of the
    plain lexical search for the query, with a count between 1 and 20:
    [entityId], [processId] and [sessionId] do not restrict them, though
    the filter is reported back in the details.  In every mode a result
    without items reads "No relevant memories found", and the preview of
    the others has at most 819 code units. *)
Theorem memory_recall_filters_need_hybrid (pc : PluginConfig) (db : Db)
    (p : RecallParams) (probe : Probe) (now last : Z) :
  let out := memory_recall pc db p probe now last in
  let k := clamp 1 20 (default (topK (getCfg pc)) (rp_limit p)) in
  (mode (getCfg pc) = lexical ∨ probe_failed probe = true →
   1 ≤ k ≤ 20
   ∧ out.1.1 = Some (recall_content (searchItems db (rp_query p) k).1,
                     mkRecallDetails (rp_query p) (searchItems db (rp_query p) k).1
                       (tool_filter p)))
  ∧ (∀ content details, out.1.1 = Some (content, details) →
     (content = NoRelevantMemories ↔ rd_items details = [])
     ∧ (∀ n pv, content = FoundMemories n pv →
          n = Z.of_nat (length (rd_items details)) ∧ len pv ≤ 819)).
Proof.
  intros out k. subst out. unfold memory_recall, recall. fold k. split.
  - intros Hmode. split; [apply clamp_range; lia|].
    destruct (mode (getCfg pc)) eqn:Em.
    + done.
    + destruct Hmode as [?|Hp]; [done|]. rewrite Hp.
      by destruct (maybeLogHybridDegraded now last).
  - intros content details Hout.
    assert (∃ hits, content = recall_content hits ∧ rd_items details = hits)
      as (hits & -> & Hd).
    { destruct (mode (getCfg pc)).
      - injection Hout as <- <-. by eexists.
      - destruct (probe_failed probe).
        + destruct (maybeLogHybridDegraded now last).
          injection Hout as <- <-. by eexists.
        + destruct (has_filter (tool_filter p)).
          * destruct (hybridSearchFiltered _ _ _ _ _); [|done].
            injection Hout as <- <-. by eexists.
          * destruct (hybridSearch _ _ _ _); [|done].
            injection Hout as <- <-. by eexists. }
    rewrite Hd. clear Hd Hout. destruct hits as [|h hs].
    + by split.
    + split; [by split|]. intros n pv [= <- <-]. split; [done|].
      apply preview_len.
Qed.

(** ** The sanitizer against its specification *)

Lemma trim_infix (s : jsstring) : ∃ pre suf, s = pre ++ trim s ++ suf.
Proof.
  unfold trim.
  destruct (trimStart_split s) as (pre & Hs & _).
  destruct (trimEnd_split (trimStart s)) as (suf & He & _).
  exists pre, suf. by rewrite <- He.
Qed.

(** A marker without white space at its ends is in a text exactly when
    it is in the trimmed text. *)
Lemma includes_trim (p s : jsstring) :
  p ≠ [] → trimmed p → includes p (trim s) = includes p s.
Proof.
  intros Hne Hp. apply eq_true_iff_eq. rewrite !includes_spec. split.
  - intros (pre & post & Ht). destruct (trim_infix s) as (a & b & Hs).
    exists (a ++ pre), (post ++ b). rewrite Hs at 1. rewrite Ht.
    by rewrite <- !app_assoc.
  - by apply contains_trim.
Qed.

Lemma trim_nonempty (s : jsstring) :
  (0 <? len (trim s)) = negb (forallb is_ws s).
Proof.
  apply eq_true_iff_eq. rewrite len_pos_iff, negb_true_iff.
  rewrite <- not_true_iff_false, forallb_forall, trim_all_ws.
  unfold all_ws. rewrite Forall_forall. split.
  - intros Hn Hall. apply Hn. intros c Hc. apply Hall. by apply list_elem_of_In.
  - intros Hn Hall. apply Hn. intros c Hc. apply Hall. by apply list_elem_of_In.
Qed.

Lemma sanitizeCaptures_cons (c : Capture) (cs : list Capture) :
  sanitizeCaptures (c :: cs)
  = if negb (forallb is_ws (text c))
       && negb (includes relevant_memories_open (text c))
    then trim_capture c :: sanitizeCaptures cs
    else sanitizeCaptures cs.
Proof.
  unfold sanitizeCaptures. rewrite fmap_cons.
  rewrite (filter_cons _ (trim_capture c)). cbn [trim_capture text].
  rewrite trim_nonempty.
  destruct (forallb is_ws (text c)); cbn [negb andb].
  - by rewrite decide_False by (intros []).
  - rewrite decide_True by exact I. rewrite filter_cons.
    change (text (trim_capture c)) with (trim (text c)).
    rewrite (includes_trim relevant_memories_open)
      by apply relevant_memories_open_trimmed.
    destruct (includes relevant_memories_open (text c)); cbn [negb].
    + by rewrite decide_False by (intros []).
    + by rewrite decide_True by exact I.
Qed.

(** C5 (as amended): [sanitizeCaptures] returns trimmed texts.  Apart
    from messages that bear the marker [<short-term-memory>], of which
    nothing is said here, its result is the messages the specification
    keeps (text not empty or white space only, neither marker in it),
    each with its text trimmed, in their order and as often as they
    occur.  Every message of the result is a message given, trimmed, in
    the order given; none has an empty text and none bears the marker
    [<relevant-memories>]. *)
Theorem sanitizeCaptures_spec (captures : list Capture) :
  filter (λ c, negb (includes short_term_memory_open (text c)))
    (sanitizeCaptures captures)
  = map trim_capture (spec_sanitize captures)
  ∧ sanitizeCaptures captures `sublist_of` map trim_capture captures
  ∧ (∀ c, c ∈ sanitizeCaptures captures →
          text c ≠ [] ∧ includes relevant_memories_open (text c) = false)
  ∧ (∀ c0, c0 ∈ captures → all_ws (text c0) →
           trim_capture c0 ∉ sanitizeCaptures captures).
Proof.
  split_and!.
  - induction captures as [|c cs IH]; [done|].
    rewrite sanitizeCaptures_cons. unfold spec_sanitize, bears_marker.
    rewrite (filter_cons _ c). fold (spec_sanitize cs).
    destruct (forallb is_ws (text c)); cbn [negb andb].
    { by rewrite decide_False by (intros []). }
    destruct (includes relevant_memories_open (text c)); cbn [negb orb].
    { by rewrite decide_False by (intros []). }
    rewrite filter_cons. change (text (trim_capture c)) with (trim (text c)).
    rewrite (includes_trim short_term_memory_open);
      [|done | split; reflexivity].
    destruct (includes short_term_memory_open (text c)); cbn [negb].
    + rewrite decide_False by (intros []). by rewrite decide_False by (intros []).
    + rewrite decide_True by exact I. rewrite decide_True by exact I.
      rewrite fmap_cons. by f_equal.
  - unfold sanitizeCaptures.
    etrans; [apply sublist_filter|]. apply sublist_filter.
  - intros c Hin. apply sanitizeCaptures_elem_of in Hin as (_ & Hne & Hno).
    split; [done|].
    destruct (includes relevant_memories_open (text c)) eqn:E; [|done].
    apply includes_spec in E. done.
  - intros c0 _ Hws Hin. apply sanitizeCaptures_elem_of in Hin as (_ & Hne & _).
    apply Hne. simpl. by apply trim_all_ws.
Qed.

(** ** Configured numbers *)

Lemma number_lt_of_Z (a b : Z) :
  number_lt (number_of_Z a) (number_of_Z b) = (a <? b).
Proof.
  unfold number_lt, number_of_Z. apply eq_true_iff_eq.
  rewrite bool_decide_eq_true, Z.ltb_lt. symmetry. apply Z2Qc_inj_lt.
Qed.

Lemma Math_min_of_Z (a b : Z) :
  Math_min (number_of_Z a) (number_of_Z b) = number_of_Z (Z.min a b).
Proof.
  unfold Math_min. change (number_of_Z a) with (Finite (Qc_of_Z a)) at 1.
  change (number_of_Z b) with (Finite (Qc_of_Z b)) at 1.
  cbv iota beta. rewrite number_lt_of_Z.
  destruct (b <? a) eqn:E; [apply Z.ltb_lt in E | apply Z.ltb_ge in E];
    f_equal; lia.
Qed.

Lemma Math_max_of_Z (a b : Z) :
  Math_max (number_of_Z a) (number_of_Z b) = number_of_Z (Z.max a b).
Proof.
  unfold Math_max. change (number_of_Z a) with (Finite (Qc_of_Z a)) at 1.
  change (number_of_Z b) with (Finite (Qc_of_Z b)) at 1.
  cbv iota beta. rewrite number_lt_of_Z.
  destruct (a <? b) eqn:E; [apply Z.ltb_lt in E | apply Z.ltb_ge in E];
    f_equal; lia.
Qed.

(** On an integer the clamp of numbers is the clamp of integers. *)
Lemma clamp_number_of_Z (lo hi x : Z) :
  clamp_number lo hi (number_of_Z x) = number_of_Z (clamp lo hi x).
Proof. unfold clamp_number, clamp. by rewrite Math_min_of_Z, Math_max_of_Z. Qed.

Lemma clamp_number_NaN (lo hi : Z) : clamp_number lo hi NaN = NaN.
Proof. done. Qed.

Lemma Math_min_finite (a b : Qc) :
  Math_min (Finite a) (Finite b) = Finite (if bool_decide (b < a)%Qc then b else a).
Proof. unfold Math_min, number_lt. by case_bool_decide. Qed.

Lemma Math_max_finite (a b : Qc) :
  Math_max (Finite a) (Finite b) = Finite (if bool_decide (a < b)%Qc then b else a).
Proof. unfold Math_max, number_lt. by case_bool_decide. Qed.

Lemma clamp_number_spec (lo hi : Z) (v : JsNumber) :
  lo ≤ hi → clamped lo hi v (clamp_number lo hi v).
Proof.
  intros Hle. apply Z2Qc_inj_le in Hle.
  assert (within lo hi (Finite (Qc_of_Z lo))) as Hlo
    by (split; [apply Qcle_refl | done]).
  assert (within lo hi (Finite (Qc_of_Z hi))) as Hhi
    by (split; [done | apply Qcle_refl]).
  unfold clamped, clamp_number, number_of_Z.
  destruct v as [q| | |].
  - rewrite Math_min_finite. case_bool_decide as H1.
    + rewrite Math_max_finite. case_bool_decide as H2.
      * split_and!; [done | | done].
        intros _. split; by apply Qclt_le_weak.
      * apply Qcnot_lt_le in H2. split_and!; [done | done |].
        intros [H3 _]. f_equal. by apply Qcle_antisym.
    + apply Qcnot_lt_le in H1. rewrite Math_max_finite.
      assert ((if bool_decide (Qc_of_Z lo < Qc_of_Z hi)%Qc
               then Qc_of_Z hi else Qc_of_Z lo) = Qc_of_Z hi) as ->.
      { case_bool_decide as H2; [done|]. apply Qcnot_lt_le in H2.
        by apply Qcle_antisym. }
      split_and!; [done | done |].
      intros [_ H3]. f_equal. by apply Qcle_antisym.
  - change (Math_min (Finite (Qc_of_Z hi)) PosInfinity) with (Finite (Qc_of_Z hi)).
    rewrite Math_max_finite.
    assert ((if bool_decide (Qc_of_Z lo < Qc_of_Z hi)%Qc
             then Qc_of_Z hi else Qc_of_Z lo) = Qc_of_Z hi) as ->.
    { case_bool_decide as H2; [done|]. apply Qcnot_lt_le in H2.
      by apply Qcle_antisym. }
    split_and!; [done | done | intros []].
  - change (Math_max (Finite (Qc_of_Z lo)) (Math_min (Finite (Qc_of_Z hi)) NegInfinity))
      with (Finite (Qc_of_Z lo)).
    split_and!; [done | done | intros []].
  - split_and!; [done | done | intros []].
Qed.

Lemma default_number_of_Z (d : Z) (o : option Z) :
  default (number_of_Z d) (number_of_Z <$> o) = number_of_Z (default d o).
Proof. by destruct o. Qed.

(** For a host that configures integers the numeric settings are those
    of [getCfg]. *)
Lemma getCfg_numbers_integers (pc : PluginConfig) :
  getCfg_numbers (host_of pc) = numbers_of (getCfg pc).
Proof.
  unfold getCfg_numbers, host_of, numbers_of, getCfg.
  cbn [hc_topK hc_candidates hc_semanticWeight hc_ollamaTimeoutMs
       hc_captureMaxPerTurn hc_captureMinChars hc_captureMaxChars
       hc_captureDedupeWindowMs hc_captureDedupeMaxCheck hc_retentionDays
       topK candidates ollamaTimeoutMs captureMaxPerTurn captureMinChars
       captureMaxChars captureDedupeWindowMs captureDedupeMaxCheck retentionDays].
  rewrite !default_number_of_Z, !clamp_number_of_Z.
  f_equal. destruct (pc_retentionDays pc) as [d|]; [|done].
  cbn [fmap option_fmap option_map]. by rewrite clamp_number_of_Z.
Qed.

(** X1: what [getCfg] guarantees of its numeric settings, whatever the
    host configures.  A configured value that is not a number comes out
    as NaN, outside every bound; every other value, an infinity
    included, comes out within the bounds of its setting; and a value
    within the bounds is used as it is, a fraction unrounded.  The
    retention horizon is absent exactly when none is configured.  For a
    host that configures integers the settings are those of the integer
    model. *)
Theorem getCfg_numbers_ranges (hc : HostConfig) :
  let cfg := getCfg_numbers hc in
  clamped 1 20 (default (number_of_Z 5) (hc_topK hc)) (js_topK cfg)
  ∧ clamped 10 500 (default (number_of_Z 50) (hc_candidates hc)) (js_candidates cfg)
  ∧ clamped 0 1 (default (Finite (Q2Qc (7 # 10))) (hc_semanticWeight hc))
      (js_semanticWeight cfg)
  ∧ clamped 250 60000 (default (number_of_Z 3000) (hc_ollamaTimeoutMs hc))
      (js_ollamaTimeoutMs cfg)
  ∧ clamped 1 50 (default (number_of_Z 20) (hc_captureMaxPerTurn hc))
      (js_captureMaxPerTurn cfg)
  ∧ clamped 0 500 (default (number_of_Z 16) (hc_captureMinChars hc))
      (js_captureMinChars cfg)
  ∧ clamped 200 20000 (default (number_of_Z 4000) (hc_captureMaxChars hc))
      (js_captureMaxChars cfg)
  ∧ clamped 0 2592000000 (default (number_of_Z 86400000) (hc_captureDedupeWindowMs hc))
      (js_captureDedupeWindowMs cfg)
  ∧ clamped 10 2000 (default (number_of_Z 300) (hc_captureDedupeMaxCheck hc))
      (js_captureDedupeMaxCheck cfg)
  ∧ (js_retentionDays cfg = None ↔ hc_retentionDays hc = None)
  ∧ (∀ v, hc_retentionDays hc = Some v →
          ∃ r, js_retentionDays cfg = Some r ∧ clamped 1 3650 v r)
  ∧ (∀ pc, hc = host_of pc → cfg = numbers_of (getCfg pc)).
Proof.
  intros cfg. subst cfg. unfold getCfg_numbers.
  cbn [js_topK js_candidates js_semanticWeight js_ollamaTimeoutMs
       js_captureMaxPerTurn js_captureMinChars js_captureMaxChars
       js_captureDedupeWindowMs js_captureDedupeMaxCheck js_retentionDays].
  split_and!; try (apply clamp_number_spec; lia).
  - by destruct (hc_retentionDays hc).
  - intros v ->. eexists. split; [done|]. apply clamp_number_spec. lia.
  - intros pc ->. apply getCfg_numbers_integers.
Qed.

(** ** The capture budget *)

Lemma visit_from_NaN (i : Z) (rest : list Capture) : visit_from NaN i rest = [].
Proof. destruct rest; [done|]. cbn [visit_from]. by destruct (number_of_Z i). Qed.

Lemma visit_from_prefix (bound : JsNumber) (i : Z) (rest : list Capture) :
  visit_from bound i rest = take (length (visit_from bound i rest)) rest.
Proof.
  revert i. induction rest as [|c rest IH]; intros i; [done|].
  cbn [visit_from]. destruct (number_lt (number_of_Z i) bound); [|done].
  cbn [length take]. by rewrite <- IH.
Qed.

(** The loop visits index [i] only when [i] is below the bound, so the
    number of candidates visited is at most the least integer that is
    not below the bound. *)
Lemma visit_from_ceiling (q : Qc) (i : Z) (rest : list Capture) :
  i + Z.of_nat (length (visit_from (Finite q) i rest)) ≤ Z.max i (Qceiling q).
Proof.
  revert i. induction rest as [|c rest IH]; intros i; [simpl; lia|].
  cbn [visit_from]. unfold number_lt, number_of_Z at 1.
  case_bool_decide as Hlt; [|simpl; lia].
  cbn [length]. specialize (IH (i + 1)).
  assert (i < Qceiling q); [|lia].
  rewrite Zlt_Qlt. eapply Qlt_le_trans; [exact Hlt|]. apply Qle_ceiling.
Qed.

Lemma visit_from_of_Z (b i : Z) (rest : list Capture) :
  visit_from (number_of_Z b) i rest = take (Z.to_nat (b - i)) rest.
Proof.
  revert i. induction rest as [|c rest IH]; intros i; [by rewrite take_nil|].
  cbn [visit_from]. rewrite number_lt_of_Z.
  destruct (i <? b) eqn:E; [apply Z.ltb_lt in E | apply Z.ltb_ge in E].
  - rewrite IH. replace (Z.to_nat (b - i)) with (S (Z.to_nat (b - (i + 1)))) by lia.
    done.
  - by replace (Z.to_nat (b - i)) with 0%nat by lia.
Qed.

(** With an integer budget the candidates visited are those of the
    integer model. *)
Lemma visited_number_of_Z (pc : PluginConfig) (cleaned : list Capture) :
  visited_number
    (clamp_number 1 50
       (default (number_of_Z 20) (number_of_Z <$> pc_captureMaxPerTurn pc)))
    cleaned
  = visited (getCfg pc) cleaned.
Proof.
  rewrite default_number_of_Z, clamp_number_of_Z.
  unfold visited_number, visited. rewrite Math_min_of_Z, visit_from_of_Z.
  by rewrite Z.sub_0_r.
Qed.

Lemma agent_end_number_integer (pc : PluginConfig) (ev : AgentEndEvent) (now : Z)
    (uuid0 : nat) (db : Db) :
  agent_end_number (number_of_Z <$> pc_captureMaxPerTurn pc) pc ev now uuid0 db
  = agent_end pc ev now uuid0 db.
Proof.
  unfold agent_end_number, agent_end.
  destruct (ev_success ev); cbn [negb]; [|done].
  destruct (ev_messages ev) as [[|m msgs]|]; try done.
  cbv zeta. by rewrite !visited_number_of_Z.
Qed.

(** The rows one run of the hook adds, for any configured budget. *)
Lemma agent_end_number_inserts (configured : option JsNumber) (pc : PluginConfig)
    (ev : AgentEndEvent) (now : Z) (uuid0 : nat) (db : Db) :
  let cfg := getCfg pc in
  let budget := clamp_number 1 50 (default (number_of_Z 20) configured) in
  let cands := visited_number budget (sanitizeCaptures (event_captures ev)) in
  let out := agent_end_number configured pc ev now uuid0 db in
  ∃ ins : list NewItem,
    items out.1 = items db ++ map (stored_row now) ins
    ∧ (length ins ≤ length cands)%nat
    ∧ (∀ it, it ∈ ins → ∃ c, c ∈ cands ∧ item_view it = capture_view cfg c)
    ∧ (∀ n, InfoAutoCaptured n ∈ out.2 → n = Z.of_nat (length ins)).
Proof.
  intros cfg budget cands out.
  assert (∀ (cs : list Capture) (d : Db) (lg : list LogLine),
            items d = items db → (∀ n, InfoAutoCaptured n ∉ lg) →
            ∃ ins : list NewItem,
              items (d, lg).1 = items db ++ map (stored_row now) ins
              ∧ (length ins ≤ length cs)%nat
              ∧ (∀ it, it ∈ ins →
                   ∃ c, c ∈ cs ∧ item_view it = capture_view cfg c)
              ∧ (∀ n, InfoAutoCaptured n ∈ (d, lg).2 → n = Z.of_nat (length ins)))
    as Hnone.
  { intros cs d lg Hd Hlg. exists []. cbn [fst snd map]. rewrite app_nil_r.
    split_and!; [done | simpl; lia | |].
    - intros it Hit. by apply elem_of_nil in Hit.
    - intros n Hn. by apply Hlg in Hn. }
  subst out cands. unfold agent_end_number, event_captures.
  destruct (ev_success ev); cbn [negb];
    [|apply (Hnone _ db []); [done | intros n; apply not_elem_of_nil]].
  destruct (ev_messages ev) as [[|m msgs]|].
  - apply (Hnone _ db []); [done | intros n; apply not_elem_of_nil].
  - fold cfg budget.
    destruct (sanitizeCaptures (extract_captures (m :: msgs))) as [|c cl] eqn:Ecl;
      [apply (Hnone _ db []); [done | intros n; apply not_elem_of_nil]|].
    set (st0 := mkLoopState db
                  (recent_hashes
                     (recent_rows db (now - captureDedupeWindowMs cfg)
                        (captureDedupeMaxCheck cfg))) 0 uuid0).
    destruct (capture_loop_inserts cfg ev now (visited_number budget (c :: cl)) st0)
      as (ins & H1 & H2 & H3 & _ & H5).
    exists ins.
    destruct (capture_loop cfg ev now (visited_number budget (c :: cl)) st0)
      as [st|db'] eqn:Eloop.
    + cbn [outcome_db] in H1.
      pose proof (facts_loop_items (visited_number budget (c :: cl)) (ls_db st, 0))
        as Hf.
      destruct (facts_loop _ _) as [db2 n]. cbn [fst snd] in *.
      split_and!.
      * by rewrite Hf.
      * done.
      * intros it Hit. apply (proj1 (Forall_forall _ _) H3) in Hit
          as (c' & u & Hc & -> & _).
        exists c'. by rewrite capture_item_view.
      * intros k Hk. specialize (H5 st eq_refl). cbn [ls_stored st0] in H5.
        apply elem_of_app in Hk as [Hk|Hk].
        -- destruct (0 <? ls_stored st); [|by apply elem_of_nil in Hk].
           apply list_elem_of_singleton in Hk. injection Hk as ->. lia.
        -- destruct (0 <? n); [|by apply elem_of_nil in Hk].
           by apply list_elem_of_singleton in Hk.
    + cbn [outcome_db] in H1. cbn [fst snd]. split_and!; [done | done | |].
      * intros it Hit. apply (proj1 (Forall_forall _ _) H3) in Hit
          as (c' & u & Hc & -> & _).
        exists c'. by rewrite capture_item_view.
      * intros k Hk. by apply list_elem_of_singleton in Hk.
  - apply (Hnone _ db [WarnMissingMessages]); [done|].
    intros n Hn. by apply list_elem_of_singleton in Hn.
Qed.

(** The budget [getCfg] hands to the loops is NaN or a number from 1 to
    50, and lets them visit at most [budget_ceiling] candidates. *)
Lemma budget_range (configured : option JsNumber) :
  let maxPerTurn := clamp_number 1 50 (default (number_of_Z 20) configured) in
  (maxPerTurn = NaN ∨ within 1 50 maxPerTurn)
  ∧ 0 ≤ budget_ceiling maxPerTurn ≤ 50.
Proof.
  intros maxPerTurn.
  destruct (clamp_number_spec 1 50 (default (number_of_Z 20) configured))
    as (Hnan & Hin & _); [lia|]. fold maxPerTurn in Hnan, Hin.
  destruct (decide (default (number_of_Z 20) configured = NaN)) as [E|E].
  - rewrite (Hnan E). split; [by left | done].
  - specialize (Hin E). split; [by right|].
    destruct maxPerTurn as [q| | |]; try done. destruct Hin as [H1 H50].
    cbn [budget_ceiling]. split.
    + assert (0 < Qceiling q); [|lia]. rewrite Zlt_Qlt.
      eapply Qlt_le_trans; [|apply Qle_ceiling].
      eapply Qlt_le_trans; [|exact H1]. done.
    + rewrite <- (Qceiling_Z 50). by apply Qceiling_resp_le.
Qed.

Lemma visit_from_length (bound : JsNumber) (i : Z) (rest : list Capture) :
  (length (visit_from bound i rest) ≤ length rest)%nat.
Proof. rewrite visit_from_prefix, length_take. lia. Qed.

Lemma visited_number_length (maxPerTurn : JsNumber) (cleaned : list Capture) :
  maxPerTurn ≠ PosInfinity → 0 ≤ budget_ceiling maxPerTurn →
  Z.of_nat (length (visited_number maxPerTurn cleaned))
  ≤ Z.min (Z.of_nat (length cleaned)) (budget_ceiling maxPerTurn).
Proof.
  intros Hfin Hc. unfold visited_number.
  apply Z.min_glb; [pose proof (visit_from_length
                                  (Math_min maxPerTurn
                                     (number_of_Z (Z.of_nat (length cleaned))))
                                  0 cleaned); lia|].
  destruct maxPerTurn as [q| | |]; cbn [budget_ceiling] in *.
  - unfold number_of_Z. rewrite Math_min_finite. case_bool_decide as Hlt.
    + pose proof (visit_from_length (Finite (Qc_of_Z (Z.of_nat (length cleaned))))
                    0 cleaned).
      assert (Z.of_nat (length cleaned) < Qceiling q); [|lia].
      rewrite Zlt_Qlt. eapply Qlt_le_trans; [exact Hlt|]. apply Qle_ceiling.
    + pose proof (visit_from_ceiling q 0 cleaned). lia.
  - done.
  - change (Math_min NegInfinity (number_of_Z (Z.of_nat (length cleaned))))
      with NegInfinity.
    destruct cleaned; [done|]. cbn [visit_from]. by destruct (number_of_Z 0).
  - change (Math_min NaN (number_of_Z (Z.of_nat (length cleaned)))) with NaN.
    by rewrite visit_from_NaN.
Qed.


End Plugin.

(** * The hooks on concrete turns *)

Abbreviation run_agent_end acc :=
  (agent_end Sample.textHash Sample.toLowerCase Sample.hasLetterOrNumber
     Sample.fold_case Sample.randomUUID Sample.stringify acc
     Sample.extractFactsSimple Sample.acceptsFact).

Abbreviation run_before_agent_start :=
  (before_agent_start Sample.searchItems Sample.hybridSearch
     Sample.hybridSearchFiltered Sample.isoDate).

Abbreviation run_recall :=
  (recall Sample.searchItems Sample.hybridSearch Sample.hybridSearchFiltered).

Abbreviation run_recall_calls :=
  (recall_calls Sample.searchItems Sample.hybridSearch Sample.hybridSearchFiltered).

(** The tests of [tests/sanitizeCaptures.test.js]. *)
Example sanitizeCaptures_test1 :
  sanitizeCaptures
    [mkCapture user (lit " hello ");
     mkCapture assistant (lit "<relevant-memories>ignore</relevant-memories>")]
  = [mkCapture user (lit "hello")].
Proof. vm_compute. reflexivity. Qed.

Example sanitizeCaptures_test2 :
  sanitizeCaptures [mkCapture user (lit "ok"); mkCapture assistant (lit "")]
  = [mkCapture user (lit "ok")].
Proof. vm_compute. reflexivity. Qed.

(** The normalizer drops an injected block, collapses white space, trims
    and lower-cases. *)
Example normalizeForDedupe_example :
  normalizeForDedupe Sample.toLowerCase
    (lit "  Hello   <relevant-memories>x y</relevant-memories> World ")
  = lit "hello world".
Proof. vm_compute. reflexivity. Qed.

(** An opening marker without its closing marker stays. *)
Example strip_relevant_unclosed :
  strip_relevant (lit "a <relevant-memories> b") = lit "a <relevant-memories> b".
Proof. vm_compute. reflexivity. Qed.

(** The noise heuristic on an acknowledgement and on a sentence. *)
Example shouldSkipCapture_examples :
  shouldSkipCapture Sample.hasLetterOrNumber Sample.fold_case (lit "ok") 16 = true
  ∧ shouldSkipCapture Sample.hasLetterOrNumber Sample.fold_case (lit " OK. ") 0 = true
  ∧ shouldSkipCapture Sample.hasLetterOrNumber Sample.fold_case (lit "?!...") 0 = true
  ∧ shouldSkipCapture Sample.hasLetterOrNumber Sample.fold_case (lit "okay then") 0 = false
  ∧ shouldSkipCapture Sample.hasLetterOrNumber Sample.fold_case
      (lit "I prefer dark mode in the editor") 16 = false.
Proof. vm_compute. repeat split; reflexivity. Qed.

(** The hash pattern on a serialized [meta]. *)
Example match_h_example :
  match_h (lit "{'role':'user'," ++ [34; 72; 34; 32; 58; 32; 34]%N
           ++ lit "0123456789ABCDEF0123456789abcdef01234567" ++ [34; 125]%N)
  = Some (lit "0123456789ABCDEF0123456789abcdef01234567").
Proof. vm_compute. reflexivity. Qed.

(** Within one turn the coffee text is stored once. *)
Example coffee_once_per_turn :
  map item_text
    (items (run_agent_end Sample.accepts_all default_config Sample.coffee_turn
              Sample.today 0 Sample.empty_db).1)
  = [Some (lit "I like coffee in the morning")].
Proof. vm_compute. reflexivity. Qed.

(** A turn one minute after the text was stored adds nothing. *)
Example coffee_suppressed_next_turn :
  run_agent_end Sample.accepts_all default_config Sample.coffee_turn
    Sample.today 0 Sample.coffee_db
  = (Sample.coffee_db, []).
Proof. vm_compute. reflexivity. Qed.

(** With the window at zero all three are stored. *)
Example coffee_without_dedupe :
  map item_text
    (items (run_agent_end Sample.accepts_all Sample.no_dedupe Sample.coffee_turn
              Sample.today 0 Sample.coffee_db).1)
  = [Some (lit "I like coffee in the morning");
     Some (lit "I like coffee in the morning");
     Some (lit "I like   COFFEE in the morning");
     Some (lit "I like coffee in the morning")].
Proof. vm_compute. reflexivity. Qed.

(** One raw message with two text blocks gives two stored items: the
    bound of the capture count is in extracted pairs, not raw messages. *)
Example two_blocks_two_items :
  length (items (run_agent_end Sample.accepts_all default_config Sample.two_blocks
                   Sample.today 0 Sample.empty_db).1) = 2%nat.
Proof. vm_compute. reflexivity. Qed.

Lemma capture_dedupe_witness :
  (0 < captureDedupeWindowMs (getCfg default_config)
   ∧ ∃ ins : list NewItem,
       items (run_agent_end Sample.accepts_all default_config Sample.coffee_turn
                Sample.today 0 Sample.coffee_db).1
       = items Sample.coffee_db ++ map (stored_row Sample.stringify Sample.today) ins
       ∧ (∀ it, it ∈ ins →
            item_hash it ∉ dedupe_window (getCfg default_config) Sample.today
                             Sample.coffee_db)
       ∧ NoDup (map item_hash ins))
  ∧ (captureDedupeWindowMs (getCfg Sample.no_dedupe) = 0
     ∧ ∃ ins : list NewItem,
         items (run_agent_end Sample.accepts_all Sample.no_dedupe Sample.coffee_turn
                  Sample.today 0 Sample.coffee_db).1
         = items Sample.coffee_db ++ map (stored_row Sample.stringify Sample.today) ins
         ∧ length ins = 3%nat).
Proof.
  split.
  - split; [reflexivity|].
    destruct (proj1 (capture_dedupe Sample.textHash Sample.toLowerCase
                       Sample.hasLetterOrNumber Sample.fold_case
                       Sample.randomUUID Sample.stringify Sample.accepts_all
                       Sample.extractFactsSimple Sample.acceptsFact
                       default_config Sample.coffee_turn Sample.today 0
                       Sample.coffee_db))
      as (ins & H1 & _ & H3 & H4); [reflexivity|].
    exists ins. split; [exact H1 | split; [exact H3 | exact H4]].
  - split; [reflexivity|].
    destruct (proj2 (capture_dedupe Sample.textHash Sample.toLowerCase
                       Sample.hasLetterOrNumber Sample.fold_case
                       Sample.randomUUID Sample.stringify Sample.accepts_all
                       Sample.extractFactsSimple Sample.acceptsFact
                       Sample.no_dedupe Sample.coffee_turn Sample.today 0
                       Sample.coffee_db))
      as (ins & H1 & H2); [reflexivity | reflexivity | reflexivity |].
    exists ins. split; [exact H1|].
    apply (f_equal length) in H2. rewrite !length_map in H2. exact H2.
Defined.

(** C3, the code at a failing input: a turn of three candidates on a
    store that refuses the second insert.  The first item is stored; the
    exception leaves the loop, so the third candidate is never handed to
    the store although the store would take it, and the hook logs the
    failure instead of the count of stored items. *)
Theorem failed_insert_aborts_batch :
  let out := run_agent_end (Sample.rejects Sample.second_text) default_config
               Sample.three_messages Sample.today 0 Sample.empty_db in
  map item_text (items out.1) = [Some Sample.first_text]
  ∧ out.2 = [ErrorAgentEndFailed]
  ∧ Sample.rejects Sample.second_text out.1
      (capture_item Sample.textHash Sample.toLowerCase Sample.randomUUID
         (getCfg default_config) Sample.three_messages Sample.today 1
         (mkCapture assistant Sample.third_text)) = true
  ∧ (let all := run_agent_end Sample.accepts_all default_config
                  Sample.three_messages Sample.today 0 Sample.empty_db in
     map item_text (items all.1)
     = [Some Sample.first_text; Some Sample.second_text; Some Sample.third_text]
     ∧ all.2 = [InfoAutoCaptured 3]).
Proof. vm_compute. repeat split; reflexivity. Qed.

(** The fact loop of the same hook goes on after an insert that fails:
    the fact refused is skipped, the next one is stored and counted. *)
Example facts_loop_skips_failed_insert :
  facts_loop Sample.two_facts (Sample.rejectsFact Sample.fact_one)
    [mkCapture user Sample.first_text] (Sample.empty_db, 0)
  = (mkDb [] [] [Sample.fact_two], 1).
Proof. vm_compute. reflexivity. Qed.

(** C10, the code at a failing input: with [captureMaxChars] at 200 a
    text of 201 code units is stored as its first 200 code units followed
    by the three code units U+00E2 U+20AC U+00A6 of the marker literal:
    203 code units, three over the cap and not one. *)
Theorem clipped_text_exceeds_cap_by_three :
  captureMaxChars (getCfg Sample.max_chars_200) = 200
  ∧ len Sample.long_text = 201
  ∧ map item_text
      (items (run_agent_end Sample.accepts_all Sample.max_chars_200
                Sample.long_message Sample.today 0 Sample.empty_db).1)
    = [Some (replicate 200 97%N ++ [226; 8364; 166]%N)]
  ∧ len (clip 200 Sample.long_text) = 203.
Proof. vm_compute. repeat split; reflexivity. Qed.

(** The retention scenario: of two rows of 40 days only the one tagged
    [work] is a candidate. *)
Example gc_scenario_dry_run :
  memory_gc default_config (mkGcParams None (Some 30) (Some [lit "personal"]) None)
    Sample.today Sample.no_faults
    (mkDb [Sample.item_A; Sample.item_B] [] [])
  = (mkDb [Sample.item_A; Sample.item_B] [] [],
     Some (GcDryRun (Sample.today - 30 * Sample.day) 1 [Sample.item_B])).
Proof. vm_compute. reflexivity. Qed.

(** C2, counterexample: with a scan limit of 1 the untagged row [C] of
    39 days is older than the horizon of 30 days and has no protected
    tag, yet the run selects only the older row [B]: being a candidate is
    not the same as being eligible. *)
Lemma gc_limit_leaves_eligible_row :
  let protectedTags := gc_protectedTags (getCfg default_config) Sample.gc_dry_limit_1 in
  let rows := gc_rows Sample.retention_db (gc_cutoff Sample.today 30)
                protectedTags (gc_lim Sample.gc_dry_limit_1) in
  memory_gc default_config Sample.gc_dry_limit_1 Sample.today Sample.no_faults
    Sample.retention_db
  = (Sample.retention_db,
     Some (GcDryRun (Sample.today - 30 * 86400000) 1 [Sample.item_B]))
  ∧ ¬ (Sample.item_C ∈ rows ↔
       created_at Sample.item_C < Sample.today - 30 * 86400000
       ∧ ¬ protected_tag protectedTags Sample.item_C).
Proof.
  split; [vm_compute; reflexivity|].
  intros [_ H].
  assert (Sample.item_C ∈ [Sample.item_B]) as Hin.
  { apply H. split; [vm_compute; reflexivity|].
    intros (t & Ht & _). discriminate. }
  apply list_elem_of_singleton in Hin. discriminate.
Qed.

Lemma gc_candidates_protected_witness :
  gc_days (getCfg default_config) Sample.gc_live_30 = Some 30
  ∧ NoDup (map id (items Sample.retention_db))
  ∧ protected_tag (gc_protectedTags (getCfg default_config) Sample.gc_live_30)
      Sample.item_A
  ∧ Sample.item_A
    ∈ items (memory_gc default_config Sample.gc_live_30 Sample.today
               Sample.no_faults Sample.retention_db).1.
Proof.
  assert (NoDup (map id (items Sample.retention_db))) as Hnd.
  { by_decide. }
  assert (protected_tag (gc_protectedTags (getCfg default_config) Sample.gc_live_30)
            Sample.item_A) as Hp.
  { exists (lit "personal"). split; [reflexivity|]. apply list_elem_of_singleton.
    reflexivity. }
  split; [reflexivity|]. split; [exact Hnd|]. split; [exact Hp|].
  destruct (gc_candidates_protected default_config Sample.gc_live_30 Sample.today
              Sample.no_faults Sample.retention_db 30 eq_refl)
    as (_ & _ & _ & _ & H).
  apply H; [reflexivity | exact Hnd | | exact Hp].
  apply elem_of_cons. left. reflexivity.
Defined.

(** A live run on the retention scenario: [B] and [C] go with their
    embeddings, [A] stays with its embedding. *)
Example gc_scenario_live :
  memory_gc default_config Sample.gc_live_30 Sample.today Sample.no_faults
    Sample.retention_db
  = (mkDb [Sample.item_A] [mkEmbedding (lit "A") (lit "bge-m3")] [],
     Some (GcLive (Sample.today - 30 * Sample.day) (mkDeleted 2 2))).
Proof. vm_compute. reflexivity. Qed.

(** The same run when the delete of the items fails after the delete of
    the embeddings: the transaction rolls back and nothing is gone. *)
Example gc_scenario_rollback :
  memory_gc default_config Sample.gc_live_30 Sample.today
    (mkFaults false true false) Sample.retention_db
  = (Sample.retention_db, None).
Proof. vm_compute. reflexivity. Qed.

Lemma gc_live_atomic_witness :
  Sample.item_B ∈ items Sample.retention_db
  ∧ (Sample.item_B
     ∉ items (memory_gc default_config Sample.gc_live_30 Sample.today
                Sample.no_faults Sample.retention_db).1)
  ∧ ∀ e, e ∈ embeddings (memory_gc default_config Sample.gc_live_30 Sample.today
                           Sample.no_faults Sample.retention_db).1 →
         item_id e ≠ id Sample.item_B.
Proof.
  assert (Sample.item_B ∈ items Sample.retention_db) as Hin.
  { apply elem_of_cons. right. apply elem_of_cons. left. reflexivity. }
  assert (Sample.item_B
          ∉ items (memory_gc default_config Sample.gc_live_30 Sample.today
                     Sample.no_faults Sample.retention_db).1) as Hout.
  { by_decide. }
  split; [exact Hin|]. split; [exact Hout|].
  intros e He.
  exact (proj1 (gc_live_atomic default_config (Some 30) None None Sample.today
                  Sample.no_faults Sample.retention_db)
           Sample.item_B e Hin Hout He).
Defined.

(** C5, counterexample: the result is not a selection of the messages
    given, since every text comes back trimmed, as the repository's test
    has it. *)
Lemma sanitize_trims_text :
  sanitizeCaptures [mkCapture user (lit " hello ")] = [mkCapture user (lit "hello")]
  ∧ mkCapture user (lit "hello") ∉ [mkCapture user (lit " hello ")].
Proof.
  split; [vm_compute; reflexivity|].
  intros H. apply list_elem_of_singleton in H. discriminate.
Qed.

(** The filter tests the one literal [<relevant-memories>].  What the
    host sends back after the short-term block alone was injected bears
    [<short-term-memory>] and is not dropped. *)
Example short_term_marker_not_tested :
  sanitizeCaptures [mkCapture user Sample.injected_short_term]
  = [mkCapture user Sample.injected_short_term]
  ∧ includes short_term_memory_open Sample.injected_short_term = true.
Proof. vm_compute. split; reflexivity. Qed.

(** C6, counterexample: the prompt [hi] in a session whose history
    renders to a short-term block.  The block exists, yet the hook returns
    nothing. *)
Lemma short_prompt_skips_short_term :
  short_term_block (short_term_lines (session_rows Sample.coffee_db (lit "session-1")))
  = short_term_memory_open ++ nl
    ++ lit "Recent messages (same session):" ++ nl
    ++ lit "[role: user] I like coffee in the morning" ++ nl
    ++ short_term_memory_close
  ∧ (run_before_agent_start default_config Sample.short_prompt Sample.coffee_db
       (ProbeResponse true) Sample.today 0).1.1 = None.
Proof. vm_compute. split; reflexivity. Qed.

(** The same session with a prompt of five characters gets the block. *)
Example long_enough_prompt_gets_short_term :
  (run_before_agent_start default_config
     (mkStartEvent (Some (lit "hello")) (Some (lit "session-1")))
     Sample.coffee_db (ProbeResponse true) Sample.today 0).1.1
  = Some (short_term_memory_open ++ nl
          ++ lit "Recent messages (same session):" ++ nl
          ++ lit "[role: user] I like coffee in the morning" ++ nl
          ++ short_term_memory_close).
Proof. vm_compute. reflexivity. Qed.

Lemma short_prompt_returns_nothing_witness :
  len (trim (default [] (se_prompt Sample.short_prompt))) < 5
  ∧ run_before_agent_start default_config Sample.short_prompt Sample.coffee_db
      (ProbeResponse true) Sample.today 0
    = (None, 0, []).
Proof.
  assert (len (trim (default [] (se_prompt Sample.short_prompt))) < 5) as H
    by reflexivity.
  split; [exact H|].
  exact (short_prompt_returns_nothing Sample.searchItems Sample.hybridSearch
           Sample.hybridSearchFiltered Sample.isoDate default_config
           Sample.short_prompt Sample.coffee_db (ProbeResponse true)
           Sample.today 0 H).
Defined.

(** Three degraded calls, the second half an hour after the first and
    the third an hour after the first: two warnings. *)
Example degraded_calls_logged :
  run_recall_calls Sample.hybrid_config Sample.empty_db (lit "coffee")
    [(ProbeTimeout, Sample.today);
     (ProbeNetworkError, Sample.today + 1800000);
     (ProbeResponse false, Sample.today + 3600000)] 0
  = [(Sample.today, WarnHybridDegraded);
     (Sample.today + 3600000, WarnHybridDegraded)].
Proof. vm_compute. reflexivity. Qed.


(** * The stand-ins of the concrete turns *)

Lemma not_contains_by_includes (p s : jsstring) :
  includes p s = false → ¬ contains p s.
Proof. intros H Hc. apply includes_spec in Hc. congruence. Qed.

Lemma hex_digit_lower (n : N) : (n < 16)%N → is_lower_hex (Sample.hex_digit n) = true.
Proof.
  intros Hn. unfold is_lower_hex, Sample.hex_digit.
  destruct (N.ltb_spec n 10); apply orb_true_iff; [left|right];
    apply andb_true_iff; split; apply N.leb_le; lia.
Qed.

(** The stand-in for the digest has the shape of a digest. *)
Lemma sample_textHash_digest (s : jsstring) : is_digest (Sample.textHash s).
Proof.
  unfold is_digest, Sample.textHash. split.
  - rewrite length_take, length_app, length_replicate. lia.
  - apply Forall_take, Forall_app. split.
    + apply Forall_concat, Forall_fmap, Forall_forall. intros c _.
      unfold Sample.hex_byte. repeat constructor; apply hex_digit_lower;
        apply N.mod_lt; done.
    + apply Forall_replicate. reflexivity.
Qed.

Lemma match_h_unfold (s : jsstring) :
  match_h s = match match_h_here s with
              | Some g => Some g
              | None => match s with [] => None | _ :: r => match_h r end
              end.
Proof. by destruct s. Qed.

(** The stand-in for the serializer writes the [h] entry so that the
    hash pattern of the dedupe window reads it back. *)
Lemma sample_stringify_match_h (m : Meta) :
  is_digest (m_h m) → match_h (Sample.stringify m) = Some (m_h m).
Proof.
  intros [Hlen Hall]. unfold Sample.stringify.
  generalize dependent (m_h m). intros h Hlen Hall.
  assert (forallb is_hex h = true) as Hhex.
  { apply forallb_forall. intros c Hc. apply list_elem_of_In in Hc.
    apply (proj1 (Forall_forall _ _) Hall) in Hc. unfold is_lower_hex in Hc.
    unfold is_hex. by rewrite Hc. }
  cbn [app]. remember (h ++ [34%N; 125%N]) as tail eqn:Et.
  rewrite match_h_unfold.
  assert (match_h_here (123%N :: 34%N :: 104%N :: 34%N :: 58%N :: 34%N :: tail)
          = None) as -> by reflexivity.
  rewrite match_h_unfold.
  assert (match_h_here (34%N :: 104%N :: 34%N :: 58%N :: 34%N :: tail) = Some h)
    as ->; [|done].
  change (match_h_here (34%N :: 104%N :: 34%N :: 58%N :: 34%N :: tail))
    with (if (length (take 40 tail) =? 40)%nat && forallb is_hex (take 40 tail)
             && startsWith [34%N] (drop 40 tail)
          then Some (take 40 tail) else None).
  assert (take 40 tail = h) as ->
    by (rewrite Et, <- Hlen; apply take_app_length).
  assert (drop 40 tail = [34%N; 125%N]) as ->
    by (rewrite Et, <- Hlen; apply drop_app_length).
  by rewrite Hlen, Hhex.
Qed.

(** * The further properties on concrete inputs *)

Lemma normalize_after_sanitize_witness :
  mkCapture user (lit "hello") ∈ sanitizeCaptures [mkCapture user (lit " hello ")]
  ∧ strip_relevant (lit "hello") = lit "hello"
  ∧ normalizeForDedupe Sample.toLowerCase (lit "hello")
    = Sample.toLowerCase (trim (collapse_ws (lit "hello"))).
Proof.
  assert (mkCapture user (lit "hello")
          ∈ sanitizeCaptures [mkCapture user (lit " hello ")]) as H by by_decide.
  split; [exact H|].
  exact (normalize_after_sanitize Sample.toLowerCase
           [mkCapture user (lit " hello ")] (mkCapture user (lit "hello")) H).
Defined.

Lemma normalize_ignores_whitespace_run_witness :
  all_ws (lit " ") ∧ all_ws [32; 10; 9]%N
  ∧ normalizeForDedupe Sample.toLowerCase (lit "I like" ++ lit " " ++ lit "coffee")
    = normalizeForDedupe Sample.toLowerCase
        (lit "I like" ++ [32; 10; 9]%N ++ lit "coffee")
  ∧ Sample.textHash
      (normalizeForDedupe Sample.toLowerCase (lit "I like" ++ lit " " ++ lit "coffee"))
    = Sample.textHash
        (normalizeForDedupe Sample.toLowerCase
           (lit "I like" ++ [32; 10; 9]%N ++ lit "coffee")).
Proof.
  assert (all_ws (lit " ")) as H1 by (repeat constructor).
  assert (all_ws [32; 10; 9]%N) as H2 by (repeat constructor).
  split; [exact H1|]. split; [exact H2|].
  apply (normalize_ignores_whitespace_run Sample.textHash Sample.toLowerCase
           (lit "I like") (lit " ") [32; 10; 9]%N (lit "coffee") H1);
    [discriminate | exact H2 | discriminate | |];
    apply not_contains_by_includes; vm_compute; reflexivity.
Defined.

Lemma strip_relevant_block_witness :
  includes relevant_memories_open (lit "hi ") = false
  ∧ includes relevant_memories_close (lit "x y") = false
  ∧ strip_relevant
      (lit "hi " ++ relevant_memories_open ++ lit "x y"
       ++ relevant_memories_close ++ lit " there")
    = lit "hi " ++ [32%N] ++ strip_relevant (lit " there")
  ∧ strip_relevant (lit "hi " ++ [32%N] ++ lit " there")
    = lit "hi " ++ [32%N] ++ strip_relevant (lit " there")
  ∧ normalizeForDedupe Sample.toLowerCase
      (lit "hi " ++ relevant_memories_open ++ lit "x y"
       ++ relevant_memories_close ++ lit " there")
    = normalizeForDedupe Sample.toLowerCase (lit "hi " ++ [32%N] ++ lit " there").
Proof.
  assert (includes relevant_memories_open (lit "hi ") = false) as H1
    by (vm_compute; reflexivity).
  assert (includes relevant_memories_close (lit "x y") = false) as H2
    by (vm_compute; reflexivity).
  split; [exact H1|]. split; [exact H2|].
  exact (strip_relevant_block Sample.toLowerCase (lit "hi ") (lit "x y")
           (lit " there") (not_contains_by_includes _ _ H1)
           (not_contains_by_includes _ _ H2)).
Defined.

Lemma capture_replay_stores_nothing_witness :
  0 < captureDedupeWindowMs (getCfg default_config)
  ∧ Sample.today + Sample.minute - captureDedupeWindowMs (getCfg default_config)
    ≤ Sample.today
  ∧ length (items (run_agent_end Sample.accepts_all default_config
                     Sample.three_messages Sample.today 0 Sample.empty_db).1)
    = 3%nat
  ∧ items (run_agent_end Sample.accepts_all default_config Sample.three_messages
             (Sample.today + Sample.minute) 3
             (run_agent_end Sample.accepts_all default_config
                Sample.three_messages Sample.today 0 Sample.empty_db).1).1
    = items (run_agent_end Sample.accepts_all default_config
               Sample.three_messages Sample.today 0 Sample.empty_db).1.
Proof.
  assert (0 < captureDedupeWindowMs (getCfg default_config)) as Hw by reflexivity.
  assert (Sample.today + Sample.minute
          - captureDedupeWindowMs (getCfg default_config) ≤ Sample.today) as Hn
    by by_decide.
  split; [exact Hw|]. split; [exact Hn|]. split; [vm_compute; reflexivity|].
  apply (capture_replay_stores_nothing Sample.textHash Sample.toLowerCase
           Sample.hasLetterOrNumber Sample.fold_case Sample.randomUUID
           Sample.stringify Sample.accepts_all Sample.extractFactsSimple
           Sample.acceptsFact default_config Sample.three_messages
           Sample.today (Sample.today + Sample.minute) 0 3 Sample.empty_db
           sample_textHash_digest sample_stringify_match_h
           (λ _ _, eq_refl) Hw Hn).
  - intros r Hr. apply elem_of_nil in Hr. destruct Hr.
  - by_decide.
Defined.

Lemma injected_recall_not_recaptured_witness :
  let hits := [mkHit (Some (lit "I like coffee in the morning"))
                 (Some (lit "user")) None None] in
  let c0 := mkCapture user
              (recall_block Sample.isoDate hits ++ lit " what do I like?") in
  hits ≠ [] ∧ trim_capture c0 ∉ sanitizeCaptures [c0].
Proof.
  cbv zeta. split; [discriminate|].
  apply (proj1 (injected_recall_not_recaptured Sample.isoDate
                  [mkHit (Some (lit "I like coffee in the morning"))
                     (Some (lit "user")) None None] _ ltac:(discriminate))).
  - apply elem_of_cons. left. reflexivity.
  - exists [], (lit " what do I like?"). reflexivity.
Defined.

Lemma before_agent_start_composition_witness :
  5 ≤ len (trim (lit "hello"))
  ∧ (before_agent_start Sample.searchItems_found Sample.hybridSearch
       Sample.hybridSearchFiltered Sample.isoDate default_config
       (mkStartEvent (Some (lit "hello")) (Some (lit "session-1")))
       Sample.coffee_db (ProbeResponse true) Sample.today 0).1.1
    = Some (session_block
              (mkStartEvent (Some (lit "hello")) (Some (lit "session-1")))
              Sample.coffee_db
            ++ nl ++ nl ++ recall_block Sample.isoDate [Sample.coffee_hit]).
Proof.
  assert (5 ≤ len (trim (lit "hello"))) as H by by_decide.
  split; [exact H|].
  refine (proj1 (proj2 (before_agent_start_composition Sample.searchItems_found
                          Sample.hybridSearch Sample.hybridSearchFiltered
                          Sample.isoDate default_config
                          (mkStartEvent (Some (lit "hello"))
                             (Some (lit "session-1")))
                          Sample.coffee_db (ProbeResponse true) Sample.today 0 H)
                  _)).
  intros h n Hin Hn. apply list_elem_of_singleton in Hin. subst h.
  injection Hn as <-. vm_compute. eexists. reflexivity.
Defined.

(** The same prompt when the hit found carries a [created_at] beyond the
    range of [Date]: the search succeeded and the session has a
    short-term block, yet the hook returns nothing and logs the failure. *)
Example bad_date_loses_both_blocks :
  before_agent_start Sample.searchItems_bad_date Sample.hybridSearch
    Sample.hybridSearchFiltered Sample.isoDate default_config
    (mkStartEvent (Some (lit "hello")) (Some (lit "session-1")))
    Sample.coffee_db (ProbeResponse true) Sample.today 0
  = (None, 0, [WarnAutoRecallFailed])
  ∧ session_block (mkStartEvent (Some (lit "hello")) (Some (lit "session-1")))
      Sample.coffee_db ≠ [].
Proof. split; [vm_compute; reflexivity | discriminate]. Qed.

Lemma short_term_shows_oldest_witness :
  sum_len (take 15 (rendered (reverse [Sample.coffee_row]))) ≤ 2000
  ∧ short_term_lines [Sample.coffee_row]
    = take 15 (rendered (reverse [Sample.coffee_row])).
Proof.
  assert (sum_len (take 15 (rendered (reverse [Sample.coffee_row]))) ≤ 2000) as H
    by by_decide.
  split; [exact H|].
  exact (short_term_shows_oldest [Sample.coffee_row] H).
Defined.

Lemma short_term_lines_single_line_witness :
  lit "[role: user] I like coffee in the morning"
  ∈ short_term_lines [Sample.coffee_row]
  ∧ (10%N ∉ lit "[role: user] I like coffee in the morning")
  ∧ Forall (λ c, is_ws c = true → c = 32%N)
      (lit "[role: user] I like coffee in the morning")
  ∧ startsWith (lit "[role: ") (lit "[role: user] I like coffee in the morning")
    = true
  ∧ 13 ≤ len (lit "[role: user] I like coffee in the morning") ≤ 321.
Proof.
  assert (lit "[role: user] I like coffee in the morning"
          ∈ short_term_lines [Sample.coffee_row]) as H by by_decide.
  split; [exact H|].
  exact (short_term_lines_single_line [Sample.coffee_row] _ H).
Defined.

Lemma captured_rows_in_session_witness :
  ev_sessionKey Sample.three_messages = Some (lit "session-1")
  ∧ ∃ ins : list NewItem,
      items (run_agent_end Sample.accepts_all default_config Sample.three_messages
               Sample.today 0 Sample.empty_db).1
      = items Sample.empty_db ++ map (stored_row Sample.stringify Sample.today) ins
      ∧ ∀ it, it ∈ ins →
          stored_row Sample.stringify Sample.today it
          ∈ session_rows
              (run_agent_end Sample.accepts_all default_config
                 Sample.three_messages Sample.today 0 Sample.empty_db).1
              (lit "session-1").
Proof.
  split; [reflexivity|].
  apply (captured_rows_in_session Sample.textHash Sample.toLowerCase
           Sample.hasLetterOrNumber Sample.fold_case Sample.randomUUID
           Sample.stringify Sample.accepts_all Sample.extractFactsSimple
           Sample.acceptsFact default_config Sample.three_messages Sample.today 0
           Sample.empty_db (lit "session-1") eq_refl).
  vm_compute. lia.
Defined.


Lemma gc_live_deletes_exactly_witness :
  let rows := gc_rows Sample.retention_db (gc_cutoff Sample.today 30)
                (gc_protectedTags (getCfg default_config) Sample.gc_live_30)
                (gc_lim Sample.gc_live_30) in
  let db' := (memory_gc default_config Sample.gc_live_30 Sample.today
                Sample.no_faults Sample.retention_db).1 in
  NoDup (map id (items Sample.retention_db))
  ∧ rows = [Sample.item_B; Sample.item_C]
  ∧ (∀ r, r ∈ items db' ↔ r ∈ items Sample.retention_db ∧ r ∉ rows)
  ∧ (∀ e, e ∈ embeddings db' ↔
          e ∈ embeddings Sample.retention_db
          ∧ ¬ ∃ r, r ∈ rows ∧ id r = item_id e)
  ∧ (∀ r, r ∈ items Sample.retention_db →
          gc_cutoff Sample.today 30 ≤ created_at r → r ∈ items db').
Proof.
  assert (NoDup (map id (items Sample.retention_db))) as Hnd by by_decide.
  cbv zeta. split; [exact Hnd|]. split; [vm_compute; reflexivity|].
  exact (gc_live_deletes_exactly default_config Sample.gc_live_30 Sample.today
           Sample.no_faults Sample.retention_db 30 eq_refl eq_refl eq_refl
           eq_refl Hnd).
Defined.

Lemma ack_list_redundant_witness :
  7 ≤ captureMinChars (getCfg default_config)
  ∧ shouldSkipCapture Sample.hasLetterOrNumber Sample.fold_case (lit " OK ")
      (captureMinChars (getCfg default_config))
    = bool_decide (trim (lit " OK ") = [])
      || (len (trim (lit " OK ")) <? captureMinChars (getCfg default_config))
      || negb (Sample.hasLetterOrNumber (trim (lit " OK "))).
Proof.
  assert (7 ≤ captureMinChars (getCfg default_config)) as H by by_decide.
  split; [exact H|].
  exact (ack_list_redundant Sample.hasLetterOrNumber Sample.fold_case (lit " OK ")
           (captureMinChars (getCfg default_config)) H).
Defined.

(** Forgetting [B] by identifier on the retention scenario: the row goes,
    its embedding stays, and no search is run. *)
Example memory_forget_by_id :
  memory_forget Sample.searchItems Sample.hybridSearch Sample.hybridSearchFiltered
    (λ _, None) default_config
    (mkForgetParams (Some (lit "B")) (Some (lit "notes")))
    Sample.retention_db ProbeTimeout Sample.today 0
  = (mkDb [Sample.item_A; Sample.item_C] (embeddings Sample.retention_db) [],
     Some (ForgetDeleted 1 (lit "B")), 0, []).
Proof. vm_compute. reflexivity. Qed.

(** In lexical mode a session filter is reported back and not applied. *)
Example memory_recall_lexical_filter :
  memory_recall Sample.searchItems Sample.hybridSearch Sample.hybridSearchFiltered
    default_config Sample.coffee_db
    (mkRecallParams (lit "coffee") None None None (Some (lit "session-2")))
    (ProbeResponse true) Sample.today 0
  = (Some (NoRelevantMemories,
           mkRecallDetails (lit "coffee") []
             (Some (mkFilterOpts None None (Some (lit "session-2"))))),
     0, []).
Proof. vm_compute. reflexivity. Qed.

(** C7, counterexample: fifteen rows of 120 letters render to fifteen
    lines of 133 characters, 1995 in all and within the budget; the block
    the hook returns for them has 18 lines and 2082 code units, more than
    the 2000 the budget names. *)
Lemma short_term_block_exceeds_budget :
  let lines := short_term_lines Sample.fifteen_rows in
  let block := short_term_block lines in
  length lines = 15%nat
  ∧ sum_len lines = 1995
  ∧ len block = 2082
  ∧ ¬ (len block ≤ 2000)
  ∧ length (filter (λ c, c = 10%N) block) = 17%nat.
Proof. vm_compute. split_and!; try reflexivity. intros H. by apply H. Qed.

(** * Configured numbers that are not integers *)

Abbreviation run_agent_end_number acc :=
  (agent_end_number Sample.textHash Sample.toLowerCase Sample.hasLetterOrNumber
     Sample.fold_case Sample.randomUUID Sample.stringify acc
     Sample.extractFactsSimple Sample.acceptsFact).

(** A fraction within the bounds stays a fraction, and a configured value
    that is not a number comes out as NaN. *)
Example getCfg_numbers_not_integers :
  js_captureMaxPerTurn
    (getCfg_numbers
       (mkHostConfig None None None None (Some (Finite (Q2Qc (3 # 2))))
          None None None None None))
  = Finite (Q2Qc (3 # 2))
  ∧ js_topK
      (getCfg_numbers
         (mkHostConfig (Some NaN) None None None None None None None None None))
    = NaN
  ∧ js_semanticWeight
      (getCfg_numbers
         (mkHostConfig None None None None None None None None None None))
    = Finite (Q2Qc (7 # 10)).
Proof. split_and!; reflexivity. Qed.

(** With [captureMaxPerTurn] at 1.5 the loop runs for the indices 0 and
    1; with a value that is not a number it does not run. *)
Example fractional_budget_visits_two :
  map text
    (visited_number (clamp_number 1 50 (Finite (Q2Qc (3 # 2))))
       (sanitizeCaptures (event_captures Sample.three_messages)))
  = [Sample.first_text; Sample.second_text]
  ∧ visited_number (clamp_number 1 50 NaN)
      (sanitizeCaptures (event_captures Sample.three_messages))
    = [].
Proof. split; vm_compute; reflexivity. Qed.


